(** * Group-based Encryption Protocol for NDN: producer and consumer engines

    A shallow embedding of [producer.cpp], [consumer.cpp] and [algo/rsa.cpp]
    of ndn-group-encrypt, and the properties of the producer's key-request
    bookkeeping and of the consumer's retrieval pipeline.

    Conventions of the embedding.
    - A [Name] is the list of its components; a component is a string.
    - A time point is its number of milliseconds since the unix epoch, an
      integer of the 64-bit signed range ([int64]).
    - A [Buffer] is a list of bytes.
    - The event-driven code is written in a state-and-exception monad over
      the object's fields, the table of interests the [Face] has pending
      and the list of user callbacks invoked so far. *)

From Stdlib Require Import ZArith String List Lia.
From Stdlib.Strings Require Import Byte.
From stdpp Require Import base tactics option list gmap strings fin_maps relations.
Local Open Scope Z_scope.

(** ** Names, time points, packets *)

Abbreviation Component := string (only parsing).

Abbreviation Name := (list string) (only parsing).

Abbreviation Buffer := (list byte) (only parsing).

Abbreviation TimePoint := Z (only parsing).

Definition NAME_COMPONENT_FOR : Component := "FOR"%string.

Definition NAME_COMPONENT_READ : Component := "READ"%string.

Definition NAME_COMPONENT_SAMPLE : Component := "SAMPLE"%string.

Definition NAME_COMPONENT_ACCESS : Component := "ACCESS"%string.

Definition NAME_COMPONENT_E_KEY : Component := "E-KEY"%string.

Definition NAME_COMPONENT_D_KEY : Component := "D-KEY"%string.

Definition NAME_COMPONENT_C_KEY : Component := "C-KEY"%string.

(** [Name::getSubName(iStartComponent, nComponents)] of ndn-cxx: a negative
    start counts from the end and is clamped at 0, the end is clamped at
    the size of the name. [None] stands for [npos]. *)
Definition getSubName (n : Name) (iStartComponent : Z) (nComponents : option Z) : Name :=
  let size := Z.of_nat (length n) in
  let iStart := Z.max (if iStartComponent <? 0 then size + iStartComponent else iStartComponent) 0 in
  let iEnd := match nComponents with
              | None => size
              | Some k => Z.min size (iStart + k)
              end in
  take (Z.to_nat (iEnd - iStart)) (drop (Z.to_nat iStart) n).

(** [size_t] arithmetic: 64 bits, wrapping. *)
Definition size_t_wrap (z : Z) : Z := z mod 2 ^ 64.

(** [Name::getPrefix(nComponents)]: for a negative argument the number of
    components kept is [size() + nComponents] computed in [size_t]. *)
Definition getPrefix (n : Name) (nComponents : Z) : Name :=
  if nComponents <? 0
  then let k := size_t_wrap (Z.of_nat (length n) + nComponents) in
       getSubName n 0 (if k =? 2 ^ 64 - 1 then None else Some k)
  else getSubName n 0 (Some nComponents).

(** [Name::get(i)]: unchecked access; a negative index counts from the end.
    [None] is an access outside the name, which the library leaves
    undefined. *)
Definition name_get (n : Name) (i : Z) : option Component :=
  let j := if i <? 0 then Z.of_nat (length n) + i else i in
  if j <? 0 then None else n !! Z.to_nat j.

Definition int64 (t : Z) : Prop := - 2 ^ 63 <= t < 2 ^ 63.

(** [toUnixTimestamp(timeslot).count()] converted to [uint64_t]. *)
Definition timeCount (timeslot : TimePoint) : Z := timeslot mod 2 ^ 64.

(** [getRoundedTimeslot]: the division of [producer.cpp] is the integer
    division of C++, which truncates toward zero. *)
Definition getRoundedTimeslot (timeslot : TimePoint) : TimePoint :=
  (timeslot ÷ 3600000) * 3600000.

(** The rounding as the specification words it: "floor to 3,600,000 ms",
    the start of the wall-clock hour. *)
Definition floorHour (timeslot : TimePoint) : TimePoint :=
  (timeslot `div` 3600000) * 3600000.

Inductive ErrorCode :=
  | Validation
  | DataRetrievalFailure
  | UnsupportedEncryptionScheme
  | InvalidEncryptedFormat
  | NoDecryptKey
  | EncryptionFailure
  | General.

Inductive AlgorithmTypeValue :=
  | AlgorithmAesEcb
  | AlgorithmAesCbc
  | AlgorithmRsaPkcs
  | AlgorithmRsaOaep
  | AlgorithmUnknown (code : Z).

(** An [Exclude] selector is kept as the sequence of the exclusions
    applied to it. [excludeAfter c] excludes every component after [c],
    [excludeBefore c] every component up to and including [c]. *)
Inductive Exclusion :=
  | ExcludedAfter (from : Component)
  | ExcludedBefore (to : Component).

Abbreviation Exclude := (list Exclusion) (only parsing).

Definition excludeAfter (from : Component) (e : Exclude) : Exclude := e ++ [ExcludedAfter from].

Definition excludeBefore (to : Component) (e : Exclude) : Exclude := e ++ [ExcludedBefore to].

(** A link object is the list of its delegations (preference, name); its
    wire encoding is identified with it. *)
Abbreviation Link := (list (Z * list string)) (only parsing).

Record Interest := mkInterest {
  i_name : Name;
  i_exclude : Exclude;
  i_childSelector : option Z;
  i_link : option Link;
  i_selectedDelegation : option Z
}.

(** [Interest(name)] *)
Definition Interest_of (n : Name) : Interest := mkInterest n [] None None None.

Definition setExclude (e : Exclude) (i : Interest) : Interest :=
  mkInterest (i_name i) e (i_childSelector i) (i_link i) (i_selectedDelegation i).

Definition setChildSelector (c : Z) (i : Interest) : Interest :=
  mkInterest (i_name i) (i_exclude i) (Some c) (i_link i) (i_selectedDelegation i).

(** [Interest::setLink] installs the link and clears the selected delegation. *)
Definition setLink (l : Link) (i : Interest) : Interest :=
  mkInterest (i_name i) (i_exclude i) (i_childSelector i) (Some l) None.

Definition setSelectedDelegation (d : Z) (i : Interest) : Interest :=
  mkInterest (i_name i) (i_exclude i) (i_childSelector i) (i_link i) (Some d).

Definition hasSelectedDelegation (i : Interest) : bool :=
  match i_selectedDelegation i with Some _ => true | None => false end.

Record Data := mkData {
  d_name : Name;
  d_content : Buffer
}.

(** What a handler can end with, besides returning. *)
Inductive Fault :=
  | OutOfRange          (* std::out_of_range of [unordered_map::at] *)
  | IsoStringError      (* [time::fromIsoString] rejects the component *)
  | DatabaseError       (* the key-value store has no such row *)
  | CryptoError (what : string)   (* [algo::Error] that nobody catches *)
  | TlvError            (* a block or an EncryptedContent does not decode *)
  | Undefined.          (* behaviour the language leaves undefined *)

Inductive res (A : Type) :=
  | Ret (a : A)
  | Throw (f : Fault).

Arguments Ret {A} a.

Arguments Throw {A} f.

(** What the [Face] answers to an expressed interest. *)
Inductive Response :=
  | RespData (d : Data)
  | RespNack
  | RespTimeout.

(** ** The producer ([producer.cpp]) *)

Module Producer.

(** [KeyInfo] of [producer.hpp], by the fields [producer.cpp] reads and
    writes. *)
Record KeyInfo := mkKeyInfo {
  beginTimeslot : TimePoint;
  endTimeslot : TimePoint;
  keyBits : Buffer
}.

(** Modelled from the spec: the [KeyRequest] structure is declared in
    [producer.hpp], which is not among the sources. Its fields are those
    [producer.cpp] uses; the specification gives their types as
    [{interestCount: int, repeatAttempts: mapping Name -> int,
    encryptedKeys: ordered sequence of data packets}], and the constructor
    sets [interestCount] to its argument. *)
Record KeyRequest := mkKeyRequest {
  interestCount : Z;
  repeatAttempts : gmap Name Z;
  encryptedKeys : list Data
}.

Definition KeyRequest_of (interests : Z) : KeyRequest := mkKeyRequest interests ∅ [].

(** A user callback is known by an identifier; [ProducerEKeyCallback] is a
    [std::function], which can be null. *)
Abbreviation ProducerEKeyCallback := (option nat) (only parsing).

Abbreviation ErrorCallBack := nat (only parsing).

(** An entry of the table of pending interests of the [Face]: the interest
    and the arguments bound into its three handlers by [sendKeyInterest]. *)
Record PendingInterest := mkPending {
  pi_interest : Interest;
  pi_delegationIndex : Z;
  pi_timeslot : TimePoint;
  pi_callback : ProducerEKeyCallback;
  pi_errorCallback : ErrorCallBack
}.

(** The invocations of the user's callbacks. The first field is not an
    argument of the callback: it records the key request (by its
    [timeCount]) on whose behalf the callback was invoked. *)
Inductive Event :=
  | EvKeys (request : Z) (callback : nat) (keys : list Data)
  | EvError (request : Z) (errorCallback : nat) (code : ErrorCode) (msg : string).

Record State := mkState {
  m_namespace : Name;
  m_maxRepeatAttempts : Z;
  m_useLink : bool;
  m_linkSize : Z;
  m_linkBlock : Link;
  m_ekeyInfo : gmap Name KeyInfo;
  m_keyRequests : gmap Z KeyRequest;
  m_db : gmap Z Buffer;
  face_pending : list PendingInterest;
  invoked : list Event
}.

Definition set_ekeyInfo (f : gmap Name KeyInfo → gmap Name KeyInfo) (s : State) : State :=
  mkState (m_namespace s) (m_maxRepeatAttempts s) (m_useLink s) (m_linkSize s) (m_linkBlock s)
          (f (m_ekeyInfo s)) (m_keyRequests s) (m_db s) (face_pending s) (invoked s).

Definition set_keyRequests (f : gmap Z KeyRequest → gmap Z KeyRequest) (s : State) : State :=
  mkState (m_namespace s) (m_maxRepeatAttempts s) (m_useLink s) (m_linkSize s) (m_linkBlock s)
          (m_ekeyInfo s) (f (m_keyRequests s)) (m_db s) (face_pending s) (invoked s).

Definition set_db (f : gmap Z Buffer → gmap Z Buffer) (s : State) : State :=
  mkState (m_namespace s) (m_maxRepeatAttempts s) (m_useLink s) (m_linkSize s) (m_linkBlock s)
          (m_ekeyInfo s) (m_keyRequests s) (f (m_db s)) (face_pending s) (invoked s).

Definition set_pending (f : list PendingInterest → list PendingInterest) (s : State) : State :=
  mkState (m_namespace s) (m_maxRepeatAttempts s) (m_useLink s) (m_linkSize s) (m_linkBlock s)
          (m_ekeyInfo s) (m_keyRequests s) (m_db s) (f (face_pending s)) (invoked s).

Definition set_invoked (f : list Event → list Event) (s : State) : State :=
  mkState (m_namespace s) (m_maxRepeatAttempts s) (m_useLink s) (m_linkSize s) (m_linkBlock s)
          (m_ekeyInfo s) (m_keyRequests s) (m_db s) (face_pending s) (f (invoked s)).

(** Modelled from the spec: the key-value store adapter of the producer
    ([ProducerDB]) is not among the sources. "Content-key rows are keyed by
    the rounded timeslot", and a rounded timeslot is the timeslot floored
    to 3,600,000 ms. *)
Definition hasContentKey (db : gmap Z Buffer) (timeslot : TimePoint) : bool :=
  bool_decide (is_Some (db !! floorHour timeslot)).

Definition addContentKey (timeslot : TimePoint) (key : Buffer) (db : gmap Z Buffer) : gmap Z Buffer :=
  <[floorHour timeslot := key]> db.

Definition getContentKey (db : gmap Z Buffer) (timeslot : TimePoint) : option Buffer :=
  db !! floorHour timeslot.

(** The state-and-exception monad of the handlers. *)
Definition M (A : Type) : Type := State → res A * State.

#[global] Instance M_ret : MRet M := λ A a s, (Ret a, s).

#[global] Instance M_bind : MBind M := λ A B f m s,
  match m s with
  | (Ret a, s') => f a s'
  | (Throw e, s') => (Throw e, s')
  end.

Definition get : M State := λ s, (Ret s, s).

Definition modify (f : State → State) : M unit := λ s, (Ret tt, f s).

Definition throw {A} (e : Fault) : M A := λ s, (Throw e, s).

Definition invoke (e : Event) : M unit := modify (set_invoked (λ l, l ++ [e])).

(** A [for] loop over a container. *)
Fixpoint for_each {A} (body : A → M unit) (l : list A) : M unit :=
  match l with
  | [] => mret tt
  | x :: l' => body x ≫= λ _, for_each body l'
  end.

(** Library functions the producer calls: ISO-8601 conversions of ndn-cxx
    ([fromIsoString] can reject its argument), [algo::encryptData] (which
    returns the encoded EncryptedContent or raises [algo::Error] with a
    message), and the key chain's signature. *)
Class Library := {
  toIsoString : TimePoint → Component;
  fromIsoString : Component → option TimePoint;
  encryptData : AlgorithmTypeValue → Buffer → Name → Buffer → string + Buffer;
  sign : Data → Data
}.

Section Model.

Context {library : Library}.

(** [m_keyRequests.at(timeCount)] *)
Definition keyRequest_at (tc : Z) : M KeyRequest := λ s,
  match m_keyRequests s !! tc with
  | Some kr => (Ret kr, s)
  | None => (Throw OutOfRange, s)
  end.

(** A write through the reference [KeyRequest& keyRequest] obtained from
    [m_keyRequests.at(timeCount)]; the reference dangles once the entry is
    erased. *)
Definition keyRequest_update (tc : Z) (f : KeyRequest → KeyRequest) : M unit := λ s,
  match m_keyRequests s !! tc with
  | Some kr => (Ret tt, set_keyRequests <[tc := f kr]> s)
  | None => (Throw Undefined, s)
  end.

Definition set_repeatAttempts (n : Name) (v : Z) (kr : KeyRequest) : KeyRequest :=
  mkKeyRequest (interestCount kr) (<[n := v]> (repeatAttempts kr)) (encryptedKeys kr).

Definition push_encryptedKey (d : Data) (kr : KeyRequest) : KeyRequest :=
  mkKeyRequest (interestCount kr) (repeatAttempts kr) (encryptedKeys kr ++ [d]).

Definition decr_interestCount (kr : KeyRequest) : KeyRequest :=
  mkKeyRequest (interestCount kr - 1) (repeatAttempts kr) (encryptedKeys kr).

(** [Producer::sendKeyInterest]: the interest enters the pending table of
    the face together with the arguments bound into its handlers. *)
Definition sendKeyInterest (interest : Interest) (delegationIndex : Z) (timeslot : TimePoint)
    (callback : ProducerEKeyCallback) (errorCallback : ErrorCallBack) : M unit :=
  modify (set_pending (λ l, l ++ [mkPending interest delegationIndex timeslot callback errorCallback])).

(** [Producer::updateKeyRequest], on the request stored under [timeCount]. *)
Definition updateKeyRequest (tc : Z) (callback : ProducerEKeyCallback) : M unit :=
  keyRequest_update tc decr_interestCount ≫= λ _,
  kr ← keyRequest_at tc;
  match callback with
  | Some cb =>
      if interestCount kr =? 0
      then invoke (EvKeys tc cb (encryptedKeys kr)) ≫= λ _,
           modify (set_keyRequests (delete tc))
      else mret tt
  | None => mret tt
  end.

(** [Producer::encryptContentKey] *)
Definition encryptContentKey (encryptionKey : Buffer) (eKeyName : Name) (timeslot : TimePoint)
    (callback : ProducerEKeyCallback) (errorCallBack : ErrorCallBack) : M bool :=
  let tc := timeCount timeslot in
  _ ← keyRequest_at tc;
  s ← get;
  let keyName := m_namespace s ++ [NAME_COMPONENT_C_KEY; toIsoString (getRoundedTimeslot timeslot)] in
  match getContentKey (m_db s) timeslot with
  | None => throw DatabaseError
  | Some contentKey =>
      match encryptData AlgorithmRsaOaep contentKey eKeyName encryptionKey with
      | inl what =>
          invoke (EvError tc errorCallBack EncryptionFailure what) ≫= λ _,
          mret false
      | inr blob =>
          let cKeyData := sign (mkData keyName blob) in
          keyRequest_update tc (push_encryptedKey cKeyData) ≫= λ _,
          updateKeyRequest tc callback ≫= λ _,
          mret true
      end
  end.

(** The body of the loop of [createContentKey] over [m_ekeyInfo]. *)
Definition createContentKey_body (timeslot : TimePoint) (callback : ProducerEKeyCallback)
    (errorCallback : ErrorCallBack) (it : Name * KeyInfo) : M unit :=
  let timeRange := excludeAfter (toIsoString timeslot) [] in
  if (timeslot <? beginTimeslot it.2) || (endTimeslot it.2 <=? timeslot)
  then
    keyRequest_update (timeCount timeslot) (set_repeatAttempts it.1 0) ≫= λ _,
    sendKeyInterest (setChildSelector 1 (setExclude timeRange (Interest_of it.1)))
                    0 timeslot callback errorCallback
  else
    let eKeyName := it.1 ++ [toIsoString (beginTimeslot it.2); toIsoString (endTimeslot it.2)] in
    encryptContentKey (keyBits it.2) eKeyName timeslot callback errorCallback ≫= λ _,
    mret tt.

(** [m_keyRequests.insert({timeCount, KeyRequest(n)})]: no effect on a key
    that is present. *)
Definition keyRequests_insert (tc : Z) (kr : KeyRequest) (m : gmap Z KeyRequest) : gmap Z KeyRequest :=
  match m !! tc with
  | Some _ => m
  | None => <[tc := kr]> m
  end.

(** [Producer::createContentKey]. [contentKeyBits] is the key that
    [algo::Aes::generateKey] draws. *)
Definition createContentKey (timeslot : TimePoint) (callback : ProducerEKeyCallback)
    (errorCallback : ErrorCallBack) (contentKeyBits : Buffer) : M Name :=
  let hourSlot := getRoundedTimeslot timeslot in
  s ← get;
  let contentKeyName := m_namespace s ++ [NAME_COMPONENT_C_KEY; toIsoString hourSlot] in
  if hasContentKey (m_db s) timeslot then mret contentKeyName
  else
    modify (set_db (addContentKey timeslot contentKeyBits)) ≫= λ _,
    let tc := timeCount timeslot in
    modify (set_keyRequests (keyRequests_insert tc (KeyRequest_of (Z.of_nat (size (m_ekeyInfo s)))))) ≫= λ _,
    for_each (createContentKey_body timeslot callback errorCallback)
             (map_to_list (m_ekeyInfo s)) ≫= λ _,
    mret contentKeyName.

(** [Producer::produce]; the returned packet is the [Data& data] argument
    after the call. *)
Definition produce (timeslot : TimePoint) (content : Buffer) (errorCallBack : ErrorCallBack)
    (contentKeyBits : Buffer) : M Data :=
  contentKeyName ← createContentKey timeslot None errorCallBack contentKeyBits;
  s ← get;
  match getContentKey (m_db s) timeslot with
  | None => throw DatabaseError
  | Some contentKey =>
      let dataName := m_namespace s ++ [toIsoString timeslot] in
      match encryptData AlgorithmAesCbc content contentKeyName contentKey with
      | inl what => throw (CryptoError what)
      | inr blob => mret (sign (mkData dataName blob))
      end
  end.

(** [Producer::handleNack] *)
Definition handleNack (interest : Interest) (delegationIndex : Z) (timeslot : TimePoint)
    (callback : ProducerEKeyCallback) (errorCallback : ErrorCallBack) : M unit :=
  s ← get;
  let outOfOptions : M unit :=
    let tc := timeCount timeslot in
    _ ← keyRequest_at tc;
    updateKeyRequest tc callback in
  if m_useLink s then
    if negb (hasSelectedDelegation interest) then
      sendKeyInterest (setSelectedDelegation 0 (setLink (m_linkBlock s) interest))
                      0 timeslot callback errorCallback
    else
      let delegationIndex' := size_t_wrap (delegationIndex + 1) in
      if delegationIndex' <? m_linkSize s then
        sendKeyInterest (setSelectedDelegation delegationIndex' interest)
                        delegationIndex' timeslot callback errorCallback
      else outOfOptions
  else outOfOptions.

(** [Producer::handleTimeout]. [repeatAttempts[interestName]] creates the
    entry, with value 0, when it reads a name that is absent. *)
Definition handleTimeout (interest : Interest) (delegationIndex : Z) (timeslot : TimePoint)
    (callback : ProducerEKeyCallback) (errorCallback : ErrorCallBack) : M unit :=
  let tc := timeCount timeslot in
  keyRequest ← keyRequest_at tc;
  s ← get;
  let interestName := i_name interest in
  let attempts := default 0 (repeatAttempts keyRequest !! interestName) in
  if attempts <? m_maxRepeatAttempts s then
    keyRequest_update tc (set_repeatAttempts interestName (attempts + 1)) ≫= λ _,
    sendKeyInterest interest delegationIndex timeslot callback errorCallback
  else
    keyRequest_update tc (set_repeatAttempts interestName attempts) ≫= λ _,
    handleNack interest delegationIndex timeslot callback errorCallback.

(** [Producer::handleCoveringKey] *)
Definition handleCoveringKey (interest : Interest) (data : Data) (delegationIndex : Z)
    (timeslot : TimePoint) (callback : ProducerEKeyCallback)
    (errorCallback : ErrorCallBack) : M unit :=
  let tc := timeCount timeslot in
  _ ← keyRequest_at tc;
  let interestName := i_name interest in
  let keyName := d_name data in
  match name_get keyName (-2), name_get keyName (-1) with
  | Some startComponent, Some endComponent =>
      match fromIsoString startComponent, fromIsoString endComponent with
      | Some begin, Some end_ =>
          if end_ <=? timeslot then
            keyRequest_update tc (set_repeatAttempts interestName 0) ≫= λ _,
            let timeRange := excludeBefore startComponent (i_exclude interest) in
            sendKeyInterest (setChildSelector 1 (setExclude timeRange (Interest_of interestName)))
                            delegationIndex timeslot callback errorCallback
          else
            let encryptionKey := d_content data in
            ok ← encryptContentKey encryptionKey keyName timeslot callback errorCallback;
            if ok : bool then
              modify (set_ekeyInfo <[interestName := mkKeyInfo begin end_ encryptionKey]>)
            else mret tt
      | _, _ => throw IsoStringError
      end
  | _, _ => throw Undefined
  end.

(** The handler that [sendKeyInterest] bound to each answer of the face. *)
Definition dispatch (p : PendingInterest) (r : Response) : M unit :=
  match r with
  | RespData d =>
      handleCoveringKey (pi_interest p) d (pi_delegationIndex p) (pi_timeslot p)
                        (pi_callback p) (pi_errorCallback p)
  | RespNack =>
      handleNack (pi_interest p) (pi_delegationIndex p) (pi_timeslot p)
                 (pi_callback p) (pi_errorCallback p)
  | RespTimeout =>
      handleTimeout (pi_interest p) (pi_delegationIndex p) (pi_timeslot p)
                    (pi_callback p) (pi_errorCallback p)
  end.

(** [Producer::Producer]: the loop that seeds [m_ekeyInfo] with one node per
    non-empty prefix of [dataType]. [fuel] bounds the iterations of the
    [while]; the length of [dataType] is enough, since each iteration
    drops one component. [keyInfo] is the default-constructed [KeyInfo] of
    [producer.hpp] and [db] what the database at [dbPath] already holds. *)
Fixpoint seed_ekeyInfo (fuel : nat) (fixedPrefix : Name) (keyInfo : KeyInfo)
    (fixedDataType : Name) (m : gmap Name KeyInfo) : gmap Name KeyInfo :=
  match fuel with
  | O => m
  | S fuel' =>
      match fixedDataType with
      | [] => m
      | _ =>
          let nodeName := fixedPrefix ++ fixedDataType ++ [NAME_COMPONENT_E_KEY] in
          seed_ekeyInfo fuel' fixedPrefix keyInfo (getPrefix fixedDataType (-1))
                        (<[nodeName := keyInfo]> m)
      end
  end.

Definition Producer_new (prefix dataType : Name) (db : gmap Z Buffer) (repeatAttempts : Z)
    (keyRetrievalLink : Link) (keyInfo : KeyInfo) : State :=
  let linkSize := Z.of_nat (length keyRetrievalLink) in
  let useLink := 0 <? linkSize in
  let fixedPrefix := prefix ++ [NAME_COMPONENT_READ] in
  {| m_namespace := prefix ++ [NAME_COMPONENT_SAMPLE] ++ dataType;
     m_maxRepeatAttempts := repeatAttempts;
     m_useLink := useLink;
     m_linkSize := linkSize;
     m_linkBlock := if useLink then keyRetrievalLink else [];
     m_ekeyInfo := seed_ekeyInfo (length dataType) fixedPrefix keyInfo dataType ∅;
     m_keyRequests := ∅;
     m_db := db;
     face_pending := [];
     invoked := [] |}.

(** *** The producer on its event loop

    One step is either a call of the public interface ([createContentKey]
    with any callback, [produce]) or the face answering one pending
    interest: the entry leaves the pending table and the bound handler
    runs. A step that ends by an exception is a step (the object keeps the
    state reached); an execution with undefined behaviour is none. *)
Inductive step : State → State → Prop :=
  | step_createContentKey s timeslot callback errorCallback bits r s' :
      int64 timeslot →
      createContentKey timeslot callback errorCallback bits s = (r, s') →
      r ≠ Throw Undefined →
      step s s'
  | step_produce s timeslot content errorCallback bits r s' :
      int64 timeslot →
      produce timeslot content errorCallback bits s = (r, s') →
      r ≠ Throw Undefined →
      step s s'
  | step_face s l1 p l2 resp r s' :
      face_pending s = l1 ++ p :: l2 →
      dispatch p resp (set_pending (λ _, l1 ++ l2) s) = (r, s') →
      r ≠ Throw Undefined →
      step s s'.

(** A producer as its constructor leaves it. *)
Definition initial (s : State) : Prop :=
  m_keyRequests s = ∅ ∧ face_pending s = [] ∧ invoked s = [].

Definition reachable (s : State) : Prop :=
  ∃ s0, initial s0 ∧ rtc step s0 s.

(** *** Counting, and the bookkeeping invariant *)

Definition count {A} (f : A → bool) (l : list A) : Z :=
  Z.of_nat (length (List.filter f l)).

Definition for_request (tc : Z) (p : PendingInterest) : bool :=
  bool_decide (timeCount (pi_timeslot p) = tc).

Definition is_failure (tc : Z) (e : Event) : bool :=
  match e with
  | EvError r _ EncryptionFailure _ => bool_decide (r = tc)
  | _ => false
  end.

Definition is_completion (tc : Z) (e : Event) : bool :=
  match e with
  | EvKeys r _ _ => bool_decide (r = tc)
  | _ => false
  end.

(** The bookkeeping invariant of the key requests, over the four fields it
    reads. For every live request, the interests pending on its behalf and
    the wraps that failed are covered by [interestCount]; [k] more are
    owed to the request [tc0] by the code that is running (the answer
    being handled, or the iterations left of the loop of
    [createContentKey]). A request that is not in the table has nothing
    pending, and its completion callback ran at most once. *)
Record Inv_at (tc0 k : Z) (reqs : gmap Z KeyRequest) (db : gmap Z Buffer)
    (pending : list PendingInterest) (evs : list Event) : Prop := {
  inv_owed : 0 <= k;
  inv_live : ∀ tc kr, reqs !! tc = Some kr →
    count (for_request tc) pending + count (is_failure tc) evs
      + (if decide (tc = tc0) then k else 0) <= interestCount kr
    ∧ count (is_completion tc) evs = 0;
  inv_dead : ∀ tc, reqs !! tc = None →
    count (for_request tc) pending = 0 ∧ count (is_failure tc) evs = 0
    ∧ count (is_completion tc) evs <= 1 ∧ (tc = tc0 → k = 0);
  inv_db : ∀ tc, is_Some (reqs !! tc) ∨ 0 < count (is_completion tc) evs →
    ∃ t, int64 t ∧ timeCount t = tc ∧ is_Some (db !! floorHour t);
  inv_int64 : ∀ p, p ∈ pending → int64 (pi_timeslot p)
}.

Definition InvS (tc0 k : Z) (s : State) : Prop :=
  Inv_at tc0 k (m_keyRequests s) (m_db s) (face_pending s) (invoked s).

Definition Inv (s : State) : Prop := InvS 0 0 s.

(** A result that is neither the failed lookup of [m_keyRequests.at] nor
    undefined behaviour. *)
Definition safe {A} (r : res A) : Prop :=
  r ≠ Throw OutOfRange ∧ r ≠ Throw Undefined.

Definition grows {A} (m : M A) : Prop :=
  ∀ s r s', m s = (r, s') → invoked s `prefix_of` invoked s'.

(** A timeslot is covered by a [KeyInfo] when it lies in
    [[beginTimeslot, endTimeslot)]. *)
Definition covered (info : KeyInfo) (timeslot : TimePoint) : Prop :=
  beginTimeslot info <= timeslot < endTimeslot info.

(** *** Footprints, nodes and runs

    What the code that runs for one request may touch, the names of the
    nodes the constructor makes, and runs in which one interest keeps
    timing out. *)

(** The name of the node of [m_ekeyInfo] for the first [k] components of
    the data type. *)
Definition nodeName (prefix dataType : Name) (k : nat) : Name :=
  prefix ++ [NAME_COMPONENT_READ] ++ take k dataType ++ [NAME_COMPONENT_E_KEY].

(** The fields that the constructor sets. *)
Definition configuration (s : State) : Name * Z * bool * Z * Link :=
  (m_namespace s, m_maxRepeatAttempts s, m_useLink s, m_linkSize s, m_linkBlock s).

(** The interests and the invocations that code running for the request
    of [timeslot], with the callbacks bound by [sendKeyInterest], may add. *)
Definition interest_for (timeslot : TimePoint) (callback : ProducerEKeyCallback)
    (errorCallback : ErrorCallBack) (node : Name → Prop) (p : PendingInterest) : Prop :=
  pi_timeslot p = timeslot ∧ pi_callback p = callback
  ∧ pi_errorCallback p = errorCallback ∧ node (i_name (pi_interest p)).

Definition event_for (timeslot : TimePoint) (callback : ProducerEKeyCallback)
    (errorCallback : ErrorCallBack) (e : Event) : Prop :=
  match e with
  | EvKeys tc c _ => tc = timeCount timeslot ∧ callback = Some c
  | EvError tc ecb code _ =>
      tc = timeCount timeslot ∧ ecb = errorCallback ∧ code = EncryptionFailure
  end.

(** The keys a request can still deliver: those it holds and one for
    every interest it counts. For a request that is not in the table it
    is -1: no completion is left to come, not even with no key. *)
Definition potential (request : option KeyRequest) : Z :=
  match request with
  | Some kr => Z.of_nat (length (encryptedKeys kr)) + interestCount kr
  | None => -1
  end.

Definition keys_within (n : Z) (e : Event) : Prop :=
  match e with
  | EvKeys _ _ keys => Z.of_nat (length keys) <= n
  | EvError _ _ _ _ => True
  end.

(** The footprint of such code, between the state it starts in and the
    state it leaves. *)
Record effect (timeslot : TimePoint) (callback : ProducerEKeyCallback)
    (errorCallback : ErrorCallBack) (node : Name → Prop) (s s' : State) : Prop := {
  eff_configuration : configuration s' = configuration s;
  eff_db : m_db s' = m_db s;
  eff_others : ∀ tc, tc ≠ timeCount timeslot → m_keyRequests s' !! tc = m_keyRequests s !! tc;
  eff_kept : callback = None → is_Some (m_keyRequests s !! timeCount timeslot) →
             is_Some (m_keyRequests s' !! timeCount timeslot);
  eff_no_new : is_Some (m_keyRequests s' !! timeCount timeslot) →
               is_Some (m_keyRequests s !! timeCount timeslot);
  eff_ekeyInfo : ∀ k, m_ekeyInfo s' !! k = m_ekeyInfo s !! k
                      ∨ (node k ∧ is_Some (m_ekeyInfo s' !! k));
  eff_pending : ∃ news, face_pending s' = face_pending s ++ news
                        ∧ Forall (interest_for timeslot callback errorCallback node) news;
  eff_potential : ∀ n, potential (m_keyRequests s !! timeCount timeslot) <= n →
                  potential (m_keyRequests s' !! timeCount timeslot) <= n;
  eff_invoked : ∃ evs, invoked s' = invoked s ++ evs
                       ∧ Forall (event_for timeslot callback errorCallback) evs
                       ∧ ∀ n, potential (m_keyRequests s !! timeCount timeslot) <= n →
                              Forall (keys_within n) evs
}.

Definition footprint {A} (timeslot : TimePoint) (callback : ProducerEKeyCallback)
    (errorCallback : ErrorCallBack) (node : Name → Prop) (m : M A) : Prop :=
  ∀ s r s', m s = (r, s') → effect timeslot callback errorCallback node s s'.

(** The state in which the loop of [createContentKey] starts: the content
    key is stored and the request is in the table. *)
Definition opened (timeslot : TimePoint) (contentKeyBits : Buffer) (s : State) : State :=
  set_keyRequests
    (keyRequests_insert (timeCount timeslot) (KeyRequest_of (Z.of_nat (size (m_ekeyInfo s)))))
    (set_db (addContentKey timeslot contentKeyBits) s).

(** A request whose interests all carry the null callback. *)
Definition null_request (tc : Z) (s : State) : Prop :=
  is_Some (m_keyRequests s !! tc)
  ∧ ∀ p, p ∈ face_pending s → timeCount (pi_timeslot p) = tc → pi_callback p = None.

(** Every pending interest is for a node of [m_ekeyInfo]. *)
Definition pending_nodes (s : State) : Prop :=
  ∀ p, p ∈ face_pending s → is_Some (m_ekeyInfo s !! i_name (pi_interest p)).

(** No request can deliver more than [n] keys, and no completion callback
    has received more. *)
Definition within_nodes (n : Z) (s : State) : Prop :=
  (∀ tc, potential (m_keyRequests s !! tc) <= n) ∧ Forall (keys_within n) (invoked s).

(** The face lets the pending interest [p] time out [n] times in a row. *)
Inductive timed_out (p : PendingInterest) : nat → State → State → Prop :=
  | timed_out_O s : timed_out p O s s
  | timed_out_S n s l1 l2 s1 s2 :
      face_pending s = l1 ++ p :: l2 →
      dispatch p RespTimeout (set_pending (λ _, l1 ++ l2) s) = (Ret tt, s1) →
      timed_out p n s1 s2 →
      timed_out p (S n) s s2.

(** The attempts counted for a name of a request: [repeatAttempts[name]]
    reads 0 for a name that is absent. *)
Definition attempts (kr : KeyRequest) (name : Name) : Z :=
  default 0 (repeatAttempts kr !! name).

End Model.

(** *** What one node of [m_ekeyInfo] contributes to the loop of
    [createContentKey]: an interest, a wrapped key or an error. *)

Section Node.

Context {library : Library}.

Variables (timeslot : TimePoint) (callback : ProducerEKeyCallback)
  (errorCallback : ErrorCallBack) (contentKey : Buffer) (namespace : Name).

Let tc := timeCount timeslot.
Let keyName := namespace ++ [NAME_COMPONENT_C_KEY; toIsoString (getRoundedTimeslot timeslot)].

Definition node_uncovered (it : Name * KeyInfo) : bool :=
  (timeslot <? beginTimeslot it.2) || (endTimeslot it.2 <=? timeslot).

Definition node_wrap (it : Name * KeyInfo) : string + Buffer :=
  encryptData AlgorithmRsaOaep contentKey
    (it.1 ++ [toIsoString (beginTimeslot it.2); toIsoString (endTimeslot it.2)])
    (keyBits it.2).

(** What one node of [m_ekeyInfo] contributes: an interest, a wrapped key
    or an error. *)
Definition node_interest (it : Name * KeyInfo) : option PendingInterest :=
  if node_uncovered it
  then Some (mkPending
               (mkInterest it.1 [ExcludedAfter (toIsoString timeslot)] (Some 1) None None)
               0 timeslot callback errorCallback)
  else None.

Definition node_key (it : Name * KeyInfo) : option Data :=
  if node_uncovered it then None
  else match node_wrap it with
       | inr blob => Some (sign (mkData keyName blob))
       | inl _ => None
       end.

Definition node_error (it : Name * KeyInfo) : option Event :=
  if node_uncovered it then None
  else match node_wrap it with
       | inr _ => None
       | inl what => Some (EvError tc errorCallback EncryptionFailure what)
       end.

Definition node_attempts (m : gmap Name Z) (it : Name * KeyInfo) : gmap Name Z :=
  if node_uncovered it then <[it.1 := 0]> m else m.

Definition request_after (l : list (Name * KeyInfo)) (kr : KeyRequest) : KeyRequest :=
  mkKeyRequest (interestCount kr - Z.of_nat (length (omap node_key l)))
               (foldl node_attempts (repeatAttempts kr) l)
               (encryptedKeys kr ++ omap node_key l).

Definition with_request (kr : KeyRequest) (news : list PendingInterest)
    (evs : list Event) (s : State) : State :=
  mkState (m_namespace s) (m_maxRepeatAttempts s) (m_useLink s) (m_linkSize s) (m_linkBlock s)
          (m_ekeyInfo s) (<[tc := kr]> (m_keyRequests s)) (m_db s)
          (face_pending s ++ news) (invoked s ++ evs).

End Node.

End Producer.

(** ** The consumer ([consumer.cpp]) and RSA ([algo/rsa.cpp]) *)

Module Consumer.

Record EncryptedContent := mkEncryptedContent {
  ec_algorithmType : AlgorithmTypeValue;
  ec_keyLocator : Name;
  ec_initialVector : Buffer;
  ec_payload : Buffer
}.

Abbreviation ConsumptionCallBack := nat (only parsing).

Abbreviation ErrorCallBack := nat (only parsing).

(** The closures of type [PlainTextCallBack] that the pipeline builds, by
    the lambda that creates them and the values it captures. *)
Inductive PlainTextCallBack :=
  | OnPlainContent (validData : Data) (consumptionCallBack : ConsumptionCallBack)
      (* consume: hand the data and the plaintext to the user *)
  | OnCKeyBits (encryptedContent : Buffer) (cKeyName : Name)
      (plainTextCallBack : PlainTextCallBack) (errorCallback : ErrorCallBack)
      (* decryptContent: decrypt the content, then cache the C-KEY *)
  | OnDKeyBits (cKeyContent : Buffer) (dKeyName : Name)
      (plainTextCallBack : PlainTextCallBack) (errorCallback : ErrorCallBack)
      (* decryptCKey: decrypt the C-KEY, then cache the D-KEY *)
  | OnNonceKeyBits (encryptedPayloadBlock : Buffer)
      (plainTextCallBack : PlainTextCallBack) (errorCallback : ErrorCallBack).
      (* decryptDKey: decrypt the second block with the nonce *)

(** The closures of type [OnDataValidated]. *)
Inductive OnDataValidated :=
  | OnValidContent (consumptionCallBack : ConsumptionCallBack) (errorCallback : ErrorCallBack)
  | OnValidCKey (encryptedContent : Buffer) (cKeyName : Name)
      (plainTextCallBack : PlainTextCallBack) (errorCallback : ErrorCallBack)
  | OnValidDKey (cKeyContent : Buffer) (dKeyName : Name)
      (plainTextCallBack : PlainTextCallBack) (errorCallback : ErrorCallBack).

(** An entry of the pending table of the face: the interest and what
    [sendInterest] bound into its handlers. *)
Record PendingInterest := mkPending {
  pi_interest : Interest;
  pi_nRetrials : Z;
  pi_delegations : Link;
  pi_delegationIndex : Z;
  pi_validationCallback : OnDataValidated;
  pi_errorCallback : ErrorCallBack
}.

Inductive Event :=
  | EvConsumed (callback : ConsumptionCallBack) (data : Data) (plainText : Buffer)
  | EvError (errorCallback : ErrorCallBack) (code : ErrorCode) (msg : string).

(** The consumer, the pending table of its face, every interest the face
    was asked to express (in order), and the user callbacks invoked. *)
Record State := mkState {
  m_db : gmap Name Buffer;
  m_groupName : Name;
  m_consumerName : Name;
  m_cKeyLink : Link;
  m_dKeyLink : Link;
  m_cKeyMap : gmap Name Buffer;
  m_dKeyMap : gmap Name Buffer;
  face_pending : list PendingInterest;
  face_expressed : list Interest;
  invoked : list Event
}.

Definition set_cKeyMap (f : gmap Name Buffer → gmap Name Buffer) (s : State) : State :=
  mkState (m_db s) (m_groupName s) (m_consumerName s) (m_cKeyLink s) (m_dKeyLink s)
          (f (m_cKeyMap s)) (m_dKeyMap s) (face_pending s) (face_expressed s) (invoked s).

Definition set_dKeyMap (f : gmap Name Buffer → gmap Name Buffer) (s : State) : State :=
  mkState (m_db s) (m_groupName s) (m_consumerName s) (m_cKeyLink s) (m_dKeyLink s)
          (m_cKeyMap s) (f (m_dKeyMap s)) (face_pending s) (face_expressed s) (invoked s).

Definition set_pending (f : list PendingInterest → list PendingInterest) (s : State) : State :=
  mkState (m_db s) (m_groupName s) (m_consumerName s) (m_cKeyLink s) (m_dKeyLink s)
          (m_cKeyMap s) (m_dKeyMap s) (f (face_pending s)) (face_expressed s) (invoked s).

Definition set_expressed (f : list Interest → list Interest) (s : State) : State :=
  mkState (m_db s) (m_groupName s) (m_consumerName s) (m_cKeyLink s) (m_dKeyLink s)
          (m_cKeyMap s) (m_dKeyMap s) (face_pending s) (f (face_expressed s)) (invoked s).

Definition set_invoked (f : list Event → list Event) (s : State) : State :=
  mkState (m_db s) (m_groupName s) (m_consumerName s) (m_cKeyLink s) (m_dKeyLink s)
          (m_cKeyMap s) (m_dKeyMap s) (face_pending s) (face_expressed s) (f (invoked s)).

(** Modelled from the spec: the key-value store adapter of the consumer
    ([ConsumerDB]) is not among the sources. [getKey(name)] is "bytes |
    empty": the empty buffer when the name has no row. *)
Definition getKey (db : gmap Name Buffer) (name : Name) : Buffer :=
  default [] (db !! name).

(** [std::map::insert]: no effect on a key that is present. *)
Definition map_insert (k : Name) (v : Buffer) (m : gmap Name Buffer) : gmap Name Buffer :=
  match m !! k with
  | Some _ => m
  | None => <[k := v]> m
  end.

Definition M (A : Type) : Type := State → res A * State.

#[global] Instance M_ret : MRet M := λ A a s, (Ret a, s).

#[global] Instance M_bind : MBind M := λ A B f m s,
  match m s with
  | (Ret a, s') => f a s'
  | (Throw e, s') => (Throw e, s')
  end.

Definition get : M State := λ s, (Ret s, s).

Definition modify (f : State → State) : M unit := λ s, (Ret tt, f s).

Definition throw {A} (e : Fault) : M A := λ s, (Throw e, s).

Definition invoke (e : Event) : M unit := modify (set_invoked (λ l, l ++ [e])).

Definition lift {A} (r : res A) : M A := λ s, (r, s).

Definition or_throw {A} (e : Fault) (o : option A) : M A :=
  match o with
  | Some a => mret a
  | None => throw e
  end.

(** Library functions: TLV decoding of ndn-cxx ([Block::blockFromValue],
    [Block::parse] with the list of elements), the EncryptedContent codec
    and AES of this library (not among the sources), the RSA decryptors of
    Crypto++ with the loading of the private key, URIs and decimal
    strings, [Interest::matchesData], and the validator. A function that
    can raise returns [None] when it does. *)
Class Library := {
  blockFromValue : Buffer → option Buffer;
  parseElements : Buffer → option (list Buffer);
  decodeEncryptedContent : Buffer → option EncryptedContent;
  Aes_decrypt : Buffer → Buffer → Buffer → option Buffer;
  loadsPrivateKey : Buffer → bool;
  RSAES_PKCS1v15_decrypt : Buffer → Buffer → option Buffer;
  RSAES_OAEP_SHA_decrypt : Buffer → Buffer → option Buffer;
  toUri : Name → string;
  to_string : AlgorithmTypeValue → string;
  matchesData : Interest → Data → bool;
  validate : Data → option string
}.

Section Model.

Context {library : Library}.

(** [algo::Rsa::decrypt] of [rsa.cpp]. *)
Definition Rsa_decrypt (key payload : Buffer) (params : AlgorithmTypeValue) : res Buffer :=
  if loadsPrivateKey key then
    match params with
    | AlgorithmRsaPkcs =>
        match RSAES_PKCS1v15_decrypt key payload with
        | Some b => Ret b
        | None => Throw (CryptoError "")
        end
    | AlgorithmRsaOaep =>
        match RSAES_OAEP_SHA_decrypt key payload with
        | Some b => Ret b
        | None => Throw (CryptoError "")
        end
    | _ => Throw (CryptoError "unsupported padding scheme")
    end
  else Throw (CryptoError "").

(** [Consumer::decrypt], over what its [plainTextCallBack] does. *)
Definition decrypt_with (plainTextCallBack : Buffer → M unit) (encryptedBlock keyBits : Buffer)
    (errorCallback : ErrorCallBack) : M unit :=
  encryptedContent ← or_throw TlvError (decodeEncryptedContent encryptedBlock);
  let payload := ec_payload encryptedContent in
  match ec_algorithmType encryptedContent with
  | AlgorithmAesCbc =>
      content ← or_throw (CryptoError "")
                  (Aes_decrypt keyBits payload (ec_initialVector encryptedContent));
      plainTextCallBack content
  | AlgorithmRsaOaep =>
      content ← lift (Rsa_decrypt keyBits payload AlgorithmRsaOaep);
      plainTextCallBack content
  | other =>
      invoke (EvError errorCallback UnsupportedEncryptionScheme (to_string other))
  end.

(** Calling a [PlainTextCallBack]. *)
Fixpoint call (k : PlainTextCallBack) (bits : Buffer) : M unit :=
  match k with
  | OnPlainContent validData consumptionCallBack =>
      invoke (EvConsumed consumptionCallBack validData bits)
  | OnCKeyBits encryptedContent cKeyName plainTextCallBack errorCallback =>
      decrypt_with (call plainTextCallBack) encryptedContent bits errorCallback ≫= λ _,
      modify (set_cKeyMap (map_insert cKeyName bits))
  | OnDKeyBits cKeyContent dKeyName plainTextCallBack errorCallback =>
      decrypt_with (call plainTextCallBack) cKeyContent bits errorCallback ≫= λ _,
      modify (set_dKeyMap (map_insert dKeyName bits))
  | OnNonceKeyBits encryptedPayloadBlock plainTextCallBack errorCallback =>
      decrypt_with (call plainTextCallBack) encryptedPayloadBlock bits errorCallback
  end.

Definition decrypt (encryptedBlock keyBits : Buffer) (plainTextCallBack : PlainTextCallBack)
    (errorCallback : ErrorCallBack) : M unit :=
  decrypt_with (call plainTextCallBack) encryptedBlock keyBits errorCallback.

(** [Consumer::sendInterest] *)
Definition sendInterest (interest : Interest) (nRetrials : Z) (delegations : Link)
    (delegationIndex : Z) (validationCallback : OnDataValidated)
    (errorCallback : ErrorCallBack) : M unit :=
  modify (set_expressed (λ l, l ++ [interest])) ≫= λ _,
  modify (set_pending (λ l, l ++ [mkPending interest nRetrials delegations delegationIndex
                                            validationCallback errorCallback])).

(** [Consumer::getDecryptionKey] *)
Definition getDecryptionKey (decryptionKeyName : Name) : M Buffer :=
  s ← get; mret (getKey (m_db s) decryptionKeyName).

(** [Consumer::decryptDKey] *)
Definition decryptDKey (dKeyData : Data) (plainTextCallBack : PlainTextCallBack)
    (errorCallback : ErrorCallBack) : M unit :=
  elements ← or_throw TlvError (parseElements (d_content dKeyData));
  (if bool_decide (length elements ≠ 2%nat)
   then invoke (EvError errorCallback InvalidEncryptedFormat
                        "Data packet does not satisfy D-KEY packet format")
   else mret tt) ≫= λ _,
  (* process nonce *)
  encryptedNonceBlock ← or_throw Undefined (elements !! 0%nat);
  encryptedNonce ← or_throw TlvError (decodeEncryptedContent encryptedNonceBlock);
  let consumerKeyName := ec_keyLocator encryptedNonce in
  (* get consumer decryption key *)
  consumerKeyBuf ← getDecryptionKey consumerKeyName;
  match consumerKeyBuf with
  | [] =>
      invoke (EvError errorCallback NoDecryptKey
                      "No desired consumer decryption key in database")
  | _ =>
      (* process d-key *)
      encryptedPayloadBlock ← or_throw Undefined (elements !! 1%nat);
      (* decrypt d-key *)
      decrypt encryptedNonceBlock consumerKeyBuf
              (OnNonceKeyBits encryptedPayloadBlock plainTextCallBack errorCallback)
              errorCallback
  end.

(** [Consumer::decryptCKey] *)
Definition decryptCKey (cKeyData : Data) (plainTextCallBack : PlainTextCallBack)
    (errorCallback : ErrorCallBack) : M unit :=
  cKeyContent ← or_throw TlvError (blockFromValue (d_content cKeyData));
  encryptedContent ← or_throw TlvError (decodeEncryptedContent cKeyContent);
  let eKeyName := ec_keyLocator encryptedContent in
  let dKeyName := getPrefix eKeyName (-3) ++ [NAME_COMPONENT_D_KEY]
                  ++ getSubName eKeyName (-2) None in
  s ← get;
  match m_dKeyMap s !! dKeyName with
  | Some dKeyBits => decrypt cKeyContent dKeyBits plainTextCallBack errorCallback
  | None =>
      let interestName := dKeyName ++ [NAME_COMPONENT_FOR] ++ m_consumerName s in
      sendInterest (Interest_of interestName) 1 (m_dKeyLink s) 0
                   (OnValidDKey cKeyContent dKeyName plainTextCallBack errorCallback)
                   errorCallback
  end.

(** [Consumer::decryptContent] *)
Definition decryptContent (data : Data) (plainTextCallBack : PlainTextCallBack)
    (errorCallback : ErrorCallBack) : M unit :=
  encryptedContent ← or_throw TlvError (blockFromValue (d_content data));
  content ← or_throw TlvError (decodeEncryptedContent encryptedContent);
  let cKeyName := ec_keyLocator content in
  s ← get;
  match m_cKeyMap s !! cKeyName with
  | Some cKeyBits => decrypt encryptedContent cKeyBits plainTextCallBack errorCallback
  | None =>
      let interestName := cKeyName ++ [NAME_COMPONENT_FOR] ++ m_groupName s in
      sendInterest (Interest_of interestName) 1 (m_cKeyLink s) 0
                   (OnValidCKey encryptedContent cKeyName plainTextCallBack errorCallback)
                   errorCallback
  end.

(** Calling an [OnDataValidated]. *)
Definition validated (k : OnDataValidated) (validData : Data) : M unit :=
  match k with
  | OnValidContent consumptionCallBack errorCallback =>
      decryptContent validData (OnPlainContent validData consumptionCallBack) errorCallback
  | OnValidCKey encryptedContent cKeyName plainTextCallBack errorCallback =>
      decryptCKey validData
                  (OnCKeyBits encryptedContent cKeyName plainTextCallBack errorCallback)
                  errorCallback
  | OnValidDKey cKeyContent dKeyName plainTextCallBack errorCallback =>
      decryptDKey validData
                  (OnDKeyBits cKeyContent dKeyName plainTextCallBack errorCallback)
                  errorCallback
  end.

(** The [dataCallback] that [sendInterest] builds. *)
Definition dataCallback (validationCallback : OnDataValidated) (errorCallback : ErrorCallBack)
    (contentInterest : Interest) (contentData : Data) : M unit :=
  if negb (matchesData contentInterest contentData) then mret tt
  else match validate contentData with
       | None => validated validationCallback contentData
       | Some e => invoke (EvError errorCallback Validation e)
       end.

(** [Consumer::handleNack] *)
Definition handleNack (interest : Interest) (delegations : Link) (delegationIndex : Z)
    (callback : OnDataValidated) (errorCallback : ErrorCallBack) : M unit :=
  let outOfOptions :=
    invoke (EvError errorCallback DataRetrievalFailure (toUri (i_name interest))) in
  if negb (bool_decide (delegations = [])) then
    if negb (hasSelectedDelegation interest) then
      sendInterest (setSelectedDelegation 0 (setLink delegations interest))
                   0 delegations 0 callback errorCallback
    else
      let delegationIndex' := size_t_wrap (delegationIndex + 1) in
      if delegationIndex' <? Z.of_nat (length delegations) then
        sendInterest (setSelectedDelegation delegationIndex' interest)
                     0 delegations delegationIndex' callback errorCallback
      else outOfOptions
  else outOfOptions.

(** [Consumer::handleTimeout] *)
Definition handleTimeout (interest : Interest) (nRetrials : Z) (delegations : Link)
    (delegationIndex : Z) (callback : OnDataValidated)
    (errorCallback : ErrorCallBack) : M unit :=
  if 0 <? nRetrials then
    sendInterest interest (nRetrials - 1) delegations delegationIndex callback errorCallback
  else
    handleNack interest delegations delegationIndex callback errorCallback.

(** [Consumer::consume] *)
Definition consume (contentName : Name) (consumptionCallBack : ConsumptionCallBack)
    (errorCallback : ErrorCallBack) (delegations : Link) : M unit :=
  sendInterest (Interest_of contentName) 1 delegations 0
               (OnValidContent consumptionCallBack errorCallback) errorCallback.

(** The handler that [sendInterest] bound to each answer of the face. *)
Definition dispatch (p : PendingInterest) (r : Response) : M unit :=
  match r with
  | RespData d =>
      dataCallback (pi_validationCallback p) (pi_errorCallback p) (pi_interest p) d
  | RespNack =>
      handleNack (pi_interest p) (pi_delegations p) (pi_delegationIndex p)
                 (pi_validationCallback p) (pi_errorCallback p)
  | RespTimeout =>
      handleTimeout (pi_interest p) (pi_nRetrials p) (pi_delegations p)
                    (pi_delegationIndex p) (pi_validationCallback p) (pi_errorCallback p)
  end.

(** A retrieval that only fails: the face answers the interest that is
    pending, one answer after the other, as long as exactly one is. *)
Fixpoint answer_in_turn (answers : list Response) (s : State) : res unit * State :=
  match answers with
  | [] => (Ret tt, s)
  | r :: rest =>
      match face_pending s with
      | [p] =>
          match dispatch p r (set_pending (λ _, []) s) with
          | (Ret _, s') => answer_in_turn rest s'
          | (Throw e, s') => (Throw e, s')
          end
      | _ => (Ret tt, s)
      end
  end.

Definition is_failure (r : Response) : Prop :=
  match r with
  | RespData _ => False
  | _ => True
  end.

(** *** Retrieval failures *)

(** The state [sendInterest] leaves. *)
Definition sent (interest : Interest) (nRetrials : Z) (delegations : Link)
    (delegationIndex : Z) (callback : OnDataValidated) (ecb : ErrorCallBack)
    (s : State) : State :=
  set_pending (λ l, l ++ [mkPending interest nRetrials delegations delegationIndex callback ecb])
              (set_expressed (λ l, l ++ [interest]) s).

(** The interest with the link attached and delegation [j] selected. *)
Definition linked (delegations : Link) (interest : Interest) (j : Z) : Interest :=
  setSelectedDelegation j (setLink delegations interest).

(** *** The pipeline as a whole *)

(** [Consumer::Consumer]: nothing is cached and nothing is pending; [db]
    is what the database at [dbPath] holds. *)
Definition Consumer_new (db : gmap Name Buffer) (groupName consumerName : Name)
    (cKeyLink dKeyLink : Link) : State :=
  {| m_db := db;
     m_groupName := groupName;
     m_consumerName := consumerName;
     m_cKeyLink := cKeyLink;
     m_dKeyLink := dKeyLink;
     m_cKeyMap := ∅;
     m_dKeyMap := ∅;
     face_pending := [];
     face_expressed := [];
     invoked := [] |}.

(** What [Consumer::decrypt] hands to its [plainTextCallBack], by the
    algorithm of the block: [None] when it hands nothing (the scheme is not
    supported, or the decryption raises). *)
Definition decrypted (encryptedContent : EncryptedContent) (keyBits : Buffer) : option Buffer :=
  match ec_algorithmType encryptedContent with
  | AlgorithmAesCbc =>
      Aes_decrypt keyBits (ec_payload encryptedContent) (ec_initialVector encryptedContent)
  | AlgorithmRsaOaep =>
      match Rsa_decrypt keyBits (ec_payload encryptedContent) AlgorithmRsaOaep with
      | Ret content => Some content
      | Throw _ => None
      end
  | _ => None
  end.

Definition is_consumption (e : Event) : bool :=
  match e with
  | EvConsumed _ _ _ => true
  | EvError _ _ _ => false
  end.

(** What the pipeline leaves of the consumer: the database, the names and
    the links are not written, the caches keep what they hold, interests
    and invocations are only added, at most [n] of them consumptions. *)
Record extends (n : nat) (s s' : State) : Prop := {
  ext_db : m_db s' = m_db s;
  ext_groupName : m_groupName s' = m_groupName s;
  ext_consumerName : m_consumerName s' = m_consumerName s;
  ext_cKeyLink : m_cKeyLink s' = m_cKeyLink s;
  ext_dKeyLink : m_dKeyLink s' = m_dKeyLink s;
  ext_cKeyMap : m_cKeyMap s ⊆ m_cKeyMap s';
  ext_dKeyMap : m_dKeyMap s ⊆ m_dKeyMap s';
  ext_pending : face_pending s `prefix_of` face_pending s';
  ext_expressed : face_expressed s `prefix_of` face_expressed s';
  ext_invoked : ∃ evs, invoked s' = invoked s ++ evs
                       ∧ (length (List.filter is_consumption evs) <= n)%nat
}.

Definition extending {A} (n : nat) (m : M A) : Prop :=
  ∀ s r s', m s = (r, s') → extends n s s'.

End Model.

End Consumer.

(** ** A producer and a consumer at work

    A small instance of the library functions, on which the theorems
    below are exercised. *)

Module ProducerScenario.

Import Producer.

(** Four time points of 1970-01-01 and their ISO strings. *)
Definition iso_table : list (Z * string) :=
  [(0, "19700101T000000"); (600000, "19700101T001000");
   (3600000, "19700101T010000"); (7200000, "19700101T020000")]%string.

Definition isoString (t : TimePoint) : Component :=
  default ""%string (snd <$> List.find (λ e, fst e =? t) iso_table).

Definition parseIsoString (c : Component) : option TimePoint :=
  fst <$> List.find (λ e, String.eqb (snd e) c) iso_table.

(** Encryption that rejects the empty key. *)
Definition encrypt (alg : AlgorithmTypeValue) (payload : Buffer) (keyName : Name)
    (key : Buffer) : string + Buffer :=
  match key with
  | [] => inl "empty key"%string
  | _ => inr (payload ++ key)
  end.

#[export] Instance library : Library :=
  {| toIsoString := isoString;
     fromIsoString := parseIsoString;
     encryptData := encrypt;
     sign := λ d, d |}.

Definition eKeyNode : Name := ["p"; "READ"; "x"; "E-KEY"]%string.
Definition hops : Link := [(1, ["hub"%string]); (2, ["relay"%string])].

(** The producer of [/p] for the data type [/x], with at most one repeated
    attempt, without a link and with one. *)
Definition producer0 : State :=
  Producer_new ["p"%string] ["x"%string] ∅ 1 [] (mkKeyInfo 0 0 []).
Definition linkProducer0 : State :=
  Producer_new ["p"%string] ["x"%string] ∅ 1 hops (mkKeyInfo 0 0 []).

(** After [createContentKey] at 00:10:00 with callback 7. *)
Definition producer1 : State :=
  (createContentKey 600000 (Some 7%nat) 9%nat ["1"%byte] producer0).2.
Definition linkProducer1 : State :=
  (createContentKey 600000 (Some 7%nat) 9%nat ["1"%byte] linkProducer0).2.

(** The same with the null callback, as [produce] calls it. *)
Definition producer1_null : State :=
  (createContentKey 600000 None 9%nat ["1"%byte] producer0).2.

(** The request and the interest that [createContentKey] leaves. *)
Definition request1 : KeyRequest := mkKeyRequest 1 {[eKeyNode := 0]} [].
Definition interest1 : Interest :=
  mkInterest eKeyNode [ExcludedAfter "19700101T001000"%string] (Some 1) None None.
Definition pending1 : PendingInterest := mkPending interest1 0 600000 (Some 7%nat) 9%nat.

(** After the face answered [interest1] of [linkProducer1] with a NACK:
    the interest is out again, with the link and delegation 0. *)
Definition interest1_linked : Interest := setSelectedDelegation 0 (setLink hops interest1).
Definition linkProducer2 : State :=
  (dispatch pending1 RespNack (set_pending (λ _, []) linkProducer1)).2.

(** A stale E-KEY, valid from 00:00:00 to 00:00:00. *)
Definition staleKey : Data :=
  mkData (eKeyNode ++ ["19700101T000000"; "19700101T000000"]%string) ["5"%byte].

End ProducerScenario.

Module ConsumerScenario.

Import Consumer.

Definition eKeyName : Name :=
  ["p"; "READ"; "x"; "E-KEY"; "19700101T000000"; "19700101T010000"]%string.
Definition dKeyName : Name :=
  ["p"; "READ"; "x"; "D-KEY"; "19700101T000000"; "19700101T010000"]%string.

(** A toy wire format: every byte of a content is one sub-block; the
    block ["N"] decodes to a nonce wrapped with RSA-OAEP under the key
    [/c/k], the block ["P"] to a payload wrapped with AES-CBC, the block
    ["C"] to a C-KEY wrapped under the E-KEY [eKeyName]. Decryption
    appends the key to the payload. *)
Definition firstBlock (content : Buffer) : option Buffer :=
  match content with
  | b :: _ => Some [b]
  | [] => None
  end.

(** [Name::toUri] on components that need no escaping: every component
    is preceded by a slash, and the empty name is the slash alone. *)
Definition uri (n : Name) : string :=
  match n with
  | [] => "/"%string
  | _ => String.concat ""%string (String.append "/"%string <$> n)
  end.

Definition decode (block : Buffer) : option EncryptedContent :=
  match block with
  | ["N"%byte] => Some (mkEncryptedContent AlgorithmRsaOaep ["c"; "k"]%string [] ["n"%byte])
  | ["P"%byte] => Some (mkEncryptedContent AlgorithmAesCbc ["nonce"]%string ["i"%byte] ["d"%byte])
  | ["C"%byte] => Some (mkEncryptedContent AlgorithmAesCbc eKeyName ["i"%byte] ["c"%byte])
  | _ => None
  end.

#[export] Instance library : Library :=
  {| blockFromValue := firstBlock;
     parseElements := λ content, Some ((λ b, [b]) <$> content);
     decodeEncryptedContent := decode;
     Aes_decrypt := λ key payload iv, Some (payload ++ key);
     loadsPrivateKey := λ key, true;
     RSAES_PKCS1v15_decrypt := λ key payload, Some (payload ++ key);
     RSAES_OAEP_SHA_decrypt := λ key payload, Some (payload ++ key);
     toUri := uri;
     to_string := λ _, ""%string;
     matchesData := λ _ _, true;
     validate := λ _, None |}.

(** The consumer [/c] of the group [/g], with its key [/c/k] in the
    database and nothing cached. *)
Definition consumer0 : State :=
  {| m_db := {[ ["c"; "k"]%string := ["K"%byte] ]};
     m_groupName := ["g"%string];
     m_consumerName := ["c"%string];
     m_cKeyLink := [];
     m_dKeyLink := [];
     m_cKeyMap := ∅;
     m_dKeyMap := ∅;
     face_pending := [];
     face_expressed := [];
     invoked := [] |}.

Definition twoHops : Link := [(1, ["hub"%string]); (2, ["relay"%string])].
Definition contentInterest : Interest :=
  Interest_of ["p"; "SAMPLE"; "x"; "19700101T001000"]%string.

(** After [consume] with a link of two delegations. *)
Definition consumer1 : State :=
  (consume ["p"; "SAMPLE"; "x"; "19700101T001000"]%string 5%nat 6%nat twoHops consumer0).2.

(** A C-KEY packet whose key locator is [eKeyName]. *)
Definition cKeyPacket : Data :=
  mkData ["p"; "SAMPLE"; "x"; "C-KEY"; "19700101T000000"; "FOR"; "g"]%string ["C"%byte].

(** A D-KEY packet with three sub-blocks, and the packet made of the
    first two. *)
Definition dKeyPacket3 : Data := mkData (dKeyName ++ ["FOR"; "c"]%string) ["N"; "P"; "X"]%byte.
Definition dKeyPacket2 : Data := mkData (dKeyName ++ ["FOR"; "c"]%string) ["N"; "P"]%byte.

End ConsumerScenario.

(** ** More of the producer and the consumer at work *)

Module ProducerLifecycleScenario.

Import Producer ProducerScenario.

(** The producer of [/p] for the data type [/x/y]: two nodes. *)
Definition producerXY : State :=
  Producer_new ["p"%string] ["x"; "y"]%string ∅ 1 [] (mkKeyInfo 0 0 []).

(** A producer whose node holds an E-KEY for the first hour of 1970 with
    no key bits, before and after [createContentKey] at 00:10:00: the wrap
    under the empty key fails. *)
Definition emptyKeyProducer0 : State :=
  Producer_new ["p"%string] ["x"%string] ∅ 1 [] (mkKeyInfo 0 3600000 []).

Definition emptyKeyProducer1 : State :=
  (createContentKey 600000 (Some 7%nat) 9%nat ["1"%byte] emptyKeyProducer0).2.

(** [producer1] with the pending table the face has after taking
    [pending1] out of it. *)
Definition producer1_answering : State := set_pending (λ _, []) producer1.

(** An E-KEY for the first two hours of 1970. *)
Definition coveringKey : Data :=
  mkData (eKeyNode ++ ["19700101T000000"; "19700101T020000"]%string) ["5"%byte].

End ProducerLifecycleScenario.

Module ConsumerPipelineScenario.

Import Consumer.

Definition cKeyName : Name := ["p"; "SAMPLE"; "x"; "C-KEY"; "19700101T000000"]%string.
Definition eKeyName : Name :=
  ["p"; "READ"; "x"; "E-KEY"; "19700101T000000"; "19700101T010000"]%string.
Definition dKeyName : Name :=
  ["p"; "READ"; "x"; "D-KEY"; "19700101T000000"; "19700101T010000"]%string.
Definition consumerKeyName : Name := ["c"; "k"]%string.

(** A toy wire format: every byte of a content is one sub-block. The
    block ["D"] is a content encrypted with AES-CBC under the C-KEY
    [cKeyName], ["C"] that C-KEY encrypted with RSA-OAEP under the E-KEY
    [eKeyName], ["N"] a nonce encrypted with RSA-OAEP under the consumer
    key [/c/k], ["P"] the D-KEY encrypted with AES-CBC under the nonce, and
    ["R"] a block encrypted with RSA-PKCS. Decryption appends the key to
    the payload. *)
Definition decode (block : Buffer) : option EncryptedContent :=
  match block with
  | ["D"%byte] => Some (mkEncryptedContent AlgorithmAesCbc cKeyName ["i"%byte] ["d"%byte])
  | ["C"%byte] => Some (mkEncryptedContent AlgorithmRsaOaep eKeyName [] ["c"%byte])
  | ["N"%byte] => Some (mkEncryptedContent AlgorithmRsaOaep consumerKeyName [] ["n"%byte])
  | ["P"%byte] => Some (mkEncryptedContent AlgorithmAesCbc [] ["i"%byte] ["k"%byte])
  | ["R"%byte] => Some (mkEncryptedContent AlgorithmRsaPkcs consumerKeyName [] ["r"%byte])
  | _ => None
  end.

#[export] Instance library : Library :=
  {| blockFromValue := λ content, match content with b :: _ => Some [b] | [] => None end;
     parseElements := λ content, Some ((λ b, [b]) <$> content);
     decodeEncryptedContent := decode;
     Aes_decrypt := λ key payload iv, Some (payload ++ key);
     loadsPrivateKey := λ key, true;
     RSAES_PKCS1v15_decrypt := λ key payload, Some (payload ++ key);
     RSAES_OAEP_SHA_decrypt := λ key payload, Some (payload ++ key);
     toUri := ConsumerScenario.uri;
     to_string := λ scheme, match scheme with AlgorithmRsaPkcs => "2" | _ => "" end%string;
     matchesData := λ _ _, true;
     validate := λ _, None |}.

(** The consumer [/c] of the group [/g] as constructed, with its key
    [/c/k] in the database; the same without the key; and the same with
    the C-KEY already cached. *)
Definition consumer : State :=
  Consumer_new {[ consumerKeyName := ["K"%byte] ]} ["g"%string] ["c"%string] [] [].

Definition keylessConsumer : State := Consumer_new ∅ ["g"%string] ["c"%string] [] [].


Definition contentName : Name := ["p"; "SAMPLE"; "x"; "19700101T001000"]%string.
Definition contentPacket : Data := mkData contentName ["D"%byte].
Definition cKeyPacket : Data := mkData (cKeyName ++ ["FOR"; "g"]%string) ["C"%byte].
Definition dKeyPacket : Data := mkData (dKeyName ++ ["FOR"; "c"]%string) ["N"; "P"]%byte.

End ConsumerPipelineScenario.

(** ** The producer: bookkeeping of the key requests *)

Module ProducerTheory.

Import Producer.

Section Theory.

Context {library : Library}.

(** *** Counting lemmas *)

Lemma count_nil {A} (f : A → bool) : count f [] = 0.
Proof. reflexivity. Qed.

Lemma count_app {A} (f : A → bool) (l1 l2 : list A) :
  count f (l1 ++ l2) = count f l1 + count f l2.
Proof. unfold count. rewrite List.filter_app, length_app. lia. Qed.

Lemma count_cons {A} (f : A → bool) (x : A) (l : list A) :
  count f (x :: l) = (if f x then 1 else 0) + count f l.
Proof. unfold count. simpl. destruct (f x); simpl; lia. Qed.

Lemma count_nonneg {A} (f : A → bool) (l : list A) : 0 <= count f l.
Proof. unfold count. lia. Qed.

Lemma count_pos_elem {A} (f : A → bool) (x : A) (l : list A) :
  x ∈ l → f x = true → 0 < count f l.
Proof.
  induction 1 as [x l|x y l _ IH]; intros Hf; rewrite count_cons.
  - rewrite Hf. pose proof (count_nonneg f l). lia.
  - specialize (IH Hf). destruct (f y); lia.
Qed.

Lemma count_zero_elem {A} (f : A → bool) (x : A) (l : list A) :
  count f l = 0 → x ∈ l → f x = false.
Proof.
  intros H0 Hin. destruct (f x) eqn:Hf; [|done].
  pose proof (count_pos_elem f x l Hin Hf). lia.
Qed.

Lemma timeCount_inj (t1 t2 : Z) :
  int64 t1 → int64 t2 → timeCount t1 = timeCount t2 → t1 = t2.
Proof.
  unfold int64, timeCount. intros H1 H2 Heq.
  assert (Hd : (t1 - t2) mod 2 ^ 64 = 0).
  { rewrite Zminus_mod, Heq, Z.sub_diag. reflexivity. }
  apply Z.mod_divide in Hd; [|lia].
  destruct Hd as [q Hq]. nia.
Qed.

(** *** The invariant under the elementary effects *)

Lemma Inv_at_live tc k reqs db pending evs :
  Inv_at tc k reqs db pending evs → 0 < k → is_Some (reqs !! tc).
Proof.
  intros HI Hk. destruct (reqs !! tc) eqn:E; [by eexists|].
  destruct (inv_dead _ _ _ _ _ _ HI tc E) as (_ & _ & _ & Hz).
  specialize (Hz eq_refl). lia.
Qed.

Lemma Inv_at_weaken tc k reqs db pending evs :
  Inv_at tc (k + 1) reqs db pending evs → 0 <= k → Inv_at tc k reqs db pending evs.
Proof.
  intros HI Hk. pose proof (Inv_at_live _ _ _ _ _ _ HI ltac:(lia)) as [kr0 Hkr0].
  destruct HI as [_ Hl Hd Hdb Hi]. split; try done.
  - intros tc' kr E. destruct (Hl tc' kr E) as [H1 H2]. split; [|done].
    case_decide; lia.
  - intros tc' E. destruct (Hd tc' E) as (? & ? & ? & ?). repeat split; try done.
    intros ->. congruence.
Qed.

Lemma Inv_at_retarget tc0 tc1 reqs db pending evs :
  Inv_at tc0 0 reqs db pending evs → Inv_at tc1 0 reqs db pending evs.
Proof.
  intros [_ Hl Hd Hdb Hi]. split; try done.
  - intros tc kr E. destruct (Hl tc kr E) as [H1 H2]. split; [|done].
    repeat case_decide; lia.
  - intros tc E. destruct (Hd tc E) as (? & ? & ? & ?). repeat split; done.
Qed.

Lemma Inv_at_send tc k reqs db pending evs p :
  Inv_at tc (k + 1) reqs db pending evs → 0 <= k →
  timeCount (pi_timeslot p) = tc → int64 (pi_timeslot p) →
  Inv_at tc k reqs db (pending ++ [p]) evs.
Proof.
  intros HI Hk Htc Hp. pose proof (Inv_at_live _ _ _ _ _ _ HI ltac:(lia)) as [kr0 Hkr0].
  destruct HI as [_ Hl Hd Hdb Hi]. split; try done.
  - intros tc' kr E. destruct (Hl tc' kr E) as [H1 H2]. split; [|done].
    rewrite count_app, count_cons, count_nil. unfold for_request at 2.
    rewrite Htc. case_bool_decide; case_decide; subst; try congruence; lia.
  - intros tc' E. destruct (Hd tc' E) as (H1 & H2 & H3 & H4).
    assert (tc' ≠ tc) by congruence.
    rewrite count_app, count_cons, count_nil. unfold for_request at 2.
    rewrite Htc. case_bool_decide; [congruence|]. repeat split; try done; lia.
  - intros q [Hq|Hq]%elem_of_app; [by apply Hi|].
    apply list_elem_of_singleton in Hq. by subst.
Qed.

Lemma Inv_at_failure tc k reqs db pending evs ecb what :
  Inv_at tc (k + 1) reqs db pending evs → 0 <= k →
  Inv_at tc k reqs db pending (evs ++ [EvError tc ecb EncryptionFailure what]).
Proof.
  intros HI Hk. pose proof (Inv_at_live _ _ _ _ _ _ HI ltac:(lia)) as [kr0 Hkr0].
  destruct HI as [_ Hl Hd Hdb Hi]. split; try done.
  - intros tc' kr E. destruct (Hl tc' kr E) as [H1 H2].
    rewrite !count_app, !count_cons, !count_nil. simpl.
    split; [|lia]. case_bool_decide; case_decide; subst; try congruence; lia.
  - intros tc' E. destruct (Hd tc' E) as (H1 & H2 & H3 & H4).
    assert (tc' ≠ tc) by congruence.
    rewrite !count_app, !count_cons, !count_nil. simpl.
    case_bool_decide; [congruence|]. repeat split; try done; lia.
  - intros tc' [Hs|Hc]; apply Hdb; [by left|right].
    revert Hc. rewrite !count_app, !count_cons, !count_nil. simpl. lia.
Qed.

Lemma Inv_at_modify tc0 k reqs db pending evs tc kr kr' :
  reqs !! tc = Some kr → interestCount kr' = interestCount kr →
  Inv_at tc0 k reqs db pending evs →
  Inv_at tc0 k (<[tc := kr']> reqs) db pending evs.
Proof.
  intros E Hc [Hk Hl Hd Hdb Hi]. split; try done.
  - intros tc' kr2. rewrite lookup_insert. case_decide.
    + intros [= <-]. subst tc'. rewrite Hc. by apply Hl.
    + apply Hl.
  - intros tc'. rewrite lookup_insert. case_decide; [done|]. apply Hd.
  - intros tc' [Hs|Hc']; apply Hdb; [left|by right].
    revert Hs. rewrite lookup_insert. case_decide; [|done]. subst. by eexists.
Qed.

Lemma Inv_at_decrement tc k reqs db pending evs kr :
  reqs !! tc = Some kr →
  Inv_at tc (k + 1) reqs db pending evs → 0 <= k →
  Inv_at tc k (<[tc := decr_interestCount kr]> reqs) db pending evs.
Proof.
  intros E [_ Hl Hd Hdb Hi] Hk. split; try done.
  - intros tc' kr2. rewrite lookup_insert. case_decide.
    + intros [= <-]. subst tc'. destruct (Hl tc kr E) as [H1 H2].
      split; [|done]. simpl. rewrite decide_True in * by done. lia.
    + intros E'. destruct (Hl tc' kr2 E') as [H1 H2]. split; [|done].
      rewrite decide_False in * by done. lia.
  - intros tc'. rewrite lookup_insert. case_decide; [done|].
    intros E'. destruct (Hd tc' E') as (? & ? & ? & ?). repeat split; try done.
  - intros tc' [Hs|Hc']; apply Hdb; [left|by right].
    revert Hs. rewrite lookup_insert. case_decide; [|done]. subst. by eexists.
Qed.

Lemma Inv_at_complete tc k reqs db pending evs kr cb keys :
  reqs !! tc = Some kr → interestCount kr = 0 →
  Inv_at tc k reqs db pending evs →
  Inv_at tc k (delete tc reqs) db pending (evs ++ [EvKeys tc cb keys]).
Proof.
  intros E Hz [Hk Hl Hd Hdb Hi].
  destruct (Hl tc kr E) as [H1 H2]. rewrite decide_True in H1 by done.
  pose proof (count_nonneg (for_request tc) pending).
  pose proof (count_nonneg (is_failure tc) evs).
  split; try done.
  - intros tc' kr2. rewrite lookup_delete. case_decide; [done|].
    intros E'. destruct (Hl tc' kr2 E') as [Hle Hco].
    rewrite !count_app, !count_cons, !count_nil. simpl.
    case_bool_decide; [congruence|]. split; lia.
  - intros tc'. rewrite lookup_delete. case_decide.
    + subst tc'. intros _.
      rewrite !count_app, !count_cons, !count_nil. simpl.
      rewrite bool_decide_true by done. repeat split; lia.
    + intros E'. destruct (Hd tc' E') as (? & ? & ? & ?).
      rewrite !count_app, !count_cons, !count_nil. simpl.
      case_bool_decide; [congruence|]. repeat split; try done; lia.
  - intros tc'. destruct (decide (tc' = tc)) as [->|Hne].
    + intros _. apply Hdb. left. by eexists.
    + rewrite lookup_delete_ne by done.
      rewrite !count_app, !count_cons, !count_nil. simpl.
      rewrite bool_decide_false by congruence.
      intros [Hs|Hc']; apply Hdb; [by left|right; lia].
Qed.

Lemma Inv_at_take tc0 reqs db l1 p l2 evs :
  Inv_at tc0 0 reqs db (l1 ++ p :: l2) evs →
  Inv_at (timeCount (pi_timeslot p)) 1 reqs db (l1 ++ l2) evs.
Proof.
  intros [_ Hl Hd Hdb Hi]. split; try done.
  - intros tc kr E. destruct (Hl tc kr E) as [H1 H2]. split; [|done].
    revert H1. rewrite !count_app, count_cons. unfold for_request at 2.
    case_bool_decide; repeat case_decide; subst; try congruence; lia.
  - intros tc E. destruct (Hd tc E) as (H1 & H2 & H3 & _).
    revert H1. rewrite !count_app, count_cons. unfold for_request at 2.
    pose proof (count_nonneg (for_request tc) l1).
    pose proof (count_nonneg (for_request tc) l2).
    case_bool_decide; intros; repeat split; try done; try lia.
    all: try (intros ->; congruence).
  - intros q Hq. apply Hi. rewrite elem_of_app in Hq. rewrite elem_of_app, elem_of_cons.
    tauto.
Qed.

Lemma Inv_at_settle tc (n : nat) reqs db pending evs :
  Inv_at tc (Z.of_nat n) reqs db pending evs → Inv_at tc 0 reqs db pending evs.
Proof.
  induction n as [|n IH]; [done|].
  intros HI. apply IH, Inv_at_weaken; [|lia].
  by replace (Z.of_nat n + 1) with (Z.of_nat (S n)) by lia.
Qed.

(** *** The handlers, equation by equation *)

Ltac monad_unfold :=
  unfold mbind, M_bind, mret, M_ret, get, modify, throw, invoke,
    keyRequest_at, keyRequest_update, sendKeyInterest in *.

Ltac state_simpl :=
  unfold set_keyRequests, set_invoked, set_pending, set_db, set_ekeyInfo in *; simpl in *.

Lemma updateKeyRequest_eq tc cb s kr :
  m_keyRequests s !! tc = Some kr →
  updateKeyRequest tc cb s =
    (Ret tt,
     let s1 := set_keyRequests <[tc := decr_interestCount kr]> s in
     match cb with
     | Some c =>
         if interestCount kr - 1 =? 0
         then set_keyRequests (delete tc)
                (set_invoked (λ l, l ++ [EvKeys tc c (encryptedKeys kr)]) s1)
         else s1
     | None => s1
     end).
Proof.
  intros E. unfold updateKeyRequest. monad_unfold. rewrite E. simpl.
  rewrite lookup_insert_eq. simpl.
  destruct cb as [c|]; [|done]. by destruct (interestCount kr - 1 =? 0).
Qed.

Lemma updateKeyRequest_inv tc cb s k r s' :
  InvS tc (k + 1) s → 0 <= k →
  updateKeyRequest tc cb s = (r, s') →
  r = Ret tt ∧ InvS tc k s'.
Proof.
  intros HI Hk. destruct (Inv_at_live _ _ _ _ _ _ HI ltac:(lia)) as [kr E].
  rewrite (updateKeyRequest_eq _ _ _ _ E). intros [= <- <-]. split; [done|].
  pose proof (Inv_at_decrement _ _ _ _ _ _ _ E HI Hk) as HI1.
  destruct cb as [c|]; [|exact HI1]. simpl.
  destruct (interestCount kr - 1 =? 0) eqn:Hz; [|exact HI1].
  unfold InvS. state_simpl.
  eapply Inv_at_complete; [apply lookup_insert_eq| |exact HI1].
  simpl. lia.
Qed.

Lemma encryptContentKey_inv encryptionKey eKeyName timeslot cb ecb s k r s' :
  InvS (timeCount timeslot) (k + 1) s → 0 <= k →
  encryptContentKey encryptionKey eKeyName timeslot cb ecb s = (r, s') →
  safe r ∧ InvS (timeCount timeslot) k s'.
Proof.
  intros HI Hk. destruct (Inv_at_live _ _ _ _ _ _ HI ltac:(lia)) as [kr E].
  unfold encryptContentKey. monad_unfold. rewrite E. simpl.
  destruct (getContentKey (m_db s) timeslot) as [contentKey|].
  2:{ intros [= <- <-]. split; [by split|]. by apply Inv_at_weaken. }
  destruct (encryptData _ _ _ _) as [what|blob].
  - simpl. intros [= <- <-]. split; [by split|].
    unfold InvS. state_simpl. by apply Inv_at_failure.
  - rewrite E.
    match goal with |- context [updateKeyRequest ?a ?b ?c] =>
      destruct (updateKeyRequest a b c) as [r1 s1] eqn:Hu end.
    apply updateKeyRequest_inv with (k := k) in Hu as [-> HI1]; [|..|done].
    + intros [= <- <-]. split; [by split|done].
    + unfold InvS. state_simpl. eapply Inv_at_modify; [exact E|done|exact HI].
Qed.

Lemma sendKeyInterest_inv interest idx timeslot cb ecb s k r s' :
  InvS (timeCount timeslot) (k + 1) s → 0 <= k → int64 timeslot →
  sendKeyInterest interest idx timeslot cb ecb s = (r, s') →
  r = Ret tt ∧ InvS (timeCount timeslot) k s'.
Proof.
  intros HI Hk Ht. monad_unfold. intros [= <- <-]. split; [done|].
  unfold InvS. state_simpl. by apply Inv_at_send.
Qed.

Lemma handleNack_inv interest idx timeslot cb ecb s k r s' :
  InvS (timeCount timeslot) (k + 1) s → 0 <= k → int64 timeslot →
  handleNack interest idx timeslot cb ecb s = (r, s') →
  r = Ret tt ∧ InvS (timeCount timeslot) k s'.
Proof.
  intros HI Hk Ht. destruct (Inv_at_live _ _ _ _ _ _ HI ltac:(lia)) as [kr E].
  unfold handleNack.
  assert (Hout : ∀ r s',
    (keyRequest_at (timeCount timeslot) ≫= λ _, updateKeyRequest (timeCount timeslot) cb) s
      = (r, s') → r = Ret tt ∧ InvS (timeCount timeslot) k s').
  { intros r0 s0. monad_unfold. rewrite E. by apply updateKeyRequest_inv. }
  change (get ≫= ?f) with (λ s0 : State, f s0 s0). cbv beta.
  destruct (m_useLink s); [|apply Hout].
  destruct (negb (hasSelectedDelegation interest)).
  { by apply sendKeyInterest_inv. }
  destruct (_ <? _); [by apply sendKeyInterest_inv|apply Hout].
Qed.

Lemma handleTimeout_inv interest idx timeslot cb ecb s k r s' :
  InvS (timeCount timeslot) (k + 1) s → 0 <= k → int64 timeslot →
  handleTimeout interest idx timeslot cb ecb s = (r, s') →
  r = Ret tt ∧ InvS (timeCount timeslot) k s'.
Proof.
  intros HI Hk Ht. destruct (Inv_at_live _ _ _ _ _ _ HI ltac:(lia)) as [kr E].
  unfold handleTimeout. monad_unfold. rewrite E. simpl.
  destruct (_ <? _); rewrite E.
  - intros [= <- <-]. split; [done|]. unfold InvS. state_simpl.
    apply Inv_at_send; [|done..]. by eapply Inv_at_modify.
  - apply handleNack_inv; [|done..].
    unfold InvS. state_simpl. by eapply Inv_at_modify.
Qed.

Lemma handleCoveringKey_inv interest data idx timeslot cb ecb s k r s' :
  InvS (timeCount timeslot) (k + 1) s → 0 <= k → int64 timeslot →
  handleCoveringKey interest data idx timeslot cb ecb s = (r, s') →
  r ≠ Throw OutOfRange ∧ InvS (timeCount timeslot) k s'.
Proof.
  intros HI Hk Ht. destruct (Inv_at_live _ _ _ _ _ _ HI ltac:(lia)) as [kr E].
  unfold handleCoveringKey. monad_unfold. rewrite E. simpl.
  destruct (name_get (d_name data) (-2)) as [c1|], (name_get (d_name data) (-1)) as [c2|];
    try (intros [= <- <-]; split; [done|by apply Inv_at_weaken]).
  destruct (fromIsoString c1) as [b|], (fromIsoString c2) as [e|];
    try (intros [= <- <-]; split; [done|by apply Inv_at_weaken]).
  destruct (e <=? timeslot).
  - rewrite E. intros [= <- <-]. split; [done|]. unfold InvS. state_simpl.
    apply Inv_at_send; [|done..]. by eapply Inv_at_modify.
  - destruct (encryptContentKey _ _ _ _ _ s) as [r1 s1] eqn:He.
    apply encryptContentKey_inv with (k := k) in He as [[Hs1 Hs2] HI1]; [|done..].
    destruct r1 as [[]|f]; intros [= <- <-]; (split; [congruence|done]).
Qed.

Lemma dispatch_inv p resp s k r s' :
  InvS (timeCount (pi_timeslot p)) (k + 1) s → 0 <= k → int64 (pi_timeslot p) →
  dispatch p resp s = (r, s') →
  r ≠ Throw OutOfRange ∧ InvS (timeCount (pi_timeslot p)) k s'.
Proof.
  intros HI Hk Ht. destruct resp as [d| |]; simpl.
  - by apply handleCoveringKey_inv.
  - intros H. by destruct (handleNack_inv _ _ _ _ _ _ _ _ _ HI Hk Ht H) as [-> ?].
  - intros H. by destruct (handleTimeout_inv _ _ _ _ _ _ _ _ _ HI Hk Ht H) as [-> ?].
Qed.

(** Undefined behaviour in a handler can only come from a data name of
    fewer than two components. *)
Lemma name_get_last_two (n : Name) :
  (2 <= length n)%nat → is_Some (name_get n (-2)) ∧ is_Some (name_get n (-1)).
Proof.
  intros Hlen. unfold name_get. cbn [Z.ltb Z.compare].
  split.
  - destruct (Z.ltb_spec (Z.of_nat (length n) + -2) 0); [lia|].
    apply lookup_lt_is_Some. lia.
  - destruct (Z.ltb_spec (Z.of_nat (length n) + -1) 0); [lia|].
    apply lookup_lt_is_Some. lia.
Qed.

Lemma encryptContentKey_defined encryptionKey eKeyName timeslot cb ecb s :
  is_Some (m_keyRequests s !! timeCount timeslot) →
  (encryptContentKey encryptionKey eKeyName timeslot cb ecb s).1 ≠ Throw Undefined.
Proof.
  intros [kr E]. unfold encryptContentKey. monad_unfold. rewrite E. simpl.
  destruct (getContentKey (m_db s) timeslot) as [contentKey|]; [|done].
  destruct (encryptData _ _ _ _) as [what|blob]; [done|].
  rewrite E.
  match goal with |- context [push_encryptedKey ?d kr] =>
    rewrite (updateKeyRequest_eq _ _ _ (push_encryptedKey d kr)) end; [done|].
  simpl. apply lookup_insert_eq.
Qed.

Lemma handleCoveringKey_defined interest data idx timeslot cb ecb s :
  is_Some (m_keyRequests s !! timeCount timeslot) →
  (2 <= length (d_name data))%nat →
  (handleCoveringKey interest data idx timeslot cb ecb s).1 ≠ Throw Undefined.
Proof.
  intros Hreq Hlen. pose proof Hreq as [kr E].
  destruct (name_get_last_two _ Hlen) as [[c1 Hc1] [c2 Hc2]].
  unfold handleCoveringKey. monad_unfold. rewrite E. simpl. rewrite Hc1, Hc2.
  destruct (fromIsoString c1) as [b|], (fromIsoString c2) as [e|]; try done.
  destruct (e <=? timeslot); [by rewrite E|].
  pose proof (encryptContentKey_defined (d_content data) (d_name data) timeslot cb ecb s Hreq)
    as Hdef.
  destruct (encryptContentKey _ _ _ _ _ s) as [[[]|f] s1]; simpl in *; congruence.
Qed.

Lemma createContentKey_body_inv timeslot cb ecb it s k r s' :
  InvS (timeCount timeslot) (k + 1) s → 0 <= k → int64 timeslot →
  createContentKey_body timeslot cb ecb it s = (r, s') →
  safe r ∧ InvS (timeCount timeslot) k s'.
Proof.
  intros HI Hk Ht. destruct (Inv_at_live _ _ _ _ _ _ HI ltac:(lia)) as [kr E].
  unfold createContentKey_body.
  destruct (_ || _).
  - monad_unfold. rewrite E. intros [= <- <-]. split; [by split|].
    unfold InvS. state_simpl. apply Inv_at_send; [|done..]. by eapply Inv_at_modify.
  - unfold mbind, M_bind.
    destruct (encryptContentKey _ _ _ _ _ s) as [r1 s1] eqn:He.
    apply encryptContentKey_inv with (k := k) in He as [[Hs1 Hs2] HI1]; [|done..].
    destruct r1 as [?|f]; intros [= <- <-]; (split; [split|]; congruence).
Qed.

Lemma for_each_body_inv timeslot cb ecb l s k r s' :
  InvS (timeCount timeslot) (k + Z.of_nat (length l)) s → 0 <= k → int64 timeslot →
  for_each (createContentKey_body timeslot cb ecb) l s = (r, s') →
  safe r ∧ InvS (timeCount timeslot) k s'.
Proof.
  revert s. induction l as [|it l IH]; intros s HI Hk Ht; simpl.
  - intros [= <- <-]. split; [by split|]. by rewrite Z.add_0_r in HI.
  - unfold mbind, M_bind.
    destruct (createContentKey_body _ _ _ it s) as [r1 s1] eqn:Hb.
    apply createContentKey_body_inv with (k := k + Z.of_nat (length l)) in Hb
      as [Hs HI1]; [|by replace (k + Z.of_nat (length l) + 1)
                          with (k + Z.of_nat (S (length l))) by lia|lia|done].
    destruct r1 as [[]|f].
    + by apply IH.
    + intros [= <- <-]. split; [destruct Hs; split; congruence|].
      clear -HI1 Hk. unfold InvS in *. revert HI1.
      generalize (length l) as n. induction n as [|n IHn]; intros HI1.
      * by rewrite Z.add_0_r in HI1.
      * apply IHn, Inv_at_weaken; [|lia].
        by replace (k + Z.of_nat n + 1) with (k + Z.of_nat (S n)) by lia.
Qed.

(** A fresh timeslot has no request, pending interest or event yet: the
    database row is written before the request is created and it is never
    removed. *)
Lemma Inv_at_fresh tc0 reqs db pending evs t :
  Inv_at tc0 0 reqs db pending evs → int64 t → db !! floorHour t = None →
  reqs !! timeCount t = None ∧ count (is_completion (timeCount t)) evs = 0.
Proof.
  intros HI Ht Hdb.
  assert (Hno : ¬ (is_Some (reqs !! timeCount t) ∨ 0 < count (is_completion (timeCount t)) evs)).
  { intros H. destruct (inv_db _ _ _ _ _ _ HI _ H) as (t' & Ht' & Heq & Hs).
    apply timeCount_inj in Heq; [|done..]. subst t'. rewrite Hdb in Hs. by destruct Hs. }
  pose proof (count_nonneg (is_completion (timeCount t)) evs).
  split.
  - destruct (reqs !! timeCount t) eqn:E; [|done]. destruct Hno. left. by eexists.
  - lia.
Qed.

Lemma Inv_at_create tc0 reqs db pending evs t bits n :
  Inv_at tc0 0 reqs db pending evs → int64 t → db !! floorHour t = None → 0 <= n →
  Inv_at (timeCount t) n (<[timeCount t := KeyRequest_of n]> reqs)
         (<[floorHour t := bits]> db) pending evs.
Proof.
  intros HI Ht Hdb Hn. destruct (Inv_at_fresh _ _ _ _ _ _ HI Ht Hdb) as [Hnone Hcompl].
  destruct (inv_dead _ _ _ _ _ _ HI _ Hnone) as (Hp & Hf & _ & _).
  destruct HI as [_ Hl Hd Hdbi Hi]. split; try done.
  - intros tc kr. rewrite lookup_insert. case_decide.
    + intros [= <-]. subst tc. simpl. rewrite decide_True by done. split; [lia|done].
    + intros E. destruct (Hl tc kr E) as [H1 H2]. split; [|done].
      rewrite decide_False by done. case_decide; lia.
  - intros tc. rewrite lookup_insert. case_decide; [done|].
    intros E. destruct (Hd tc E) as (? & ? & ? & ?). repeat split; try done.
  - intros tc. destruct (decide (tc = timeCount t)) as [->|Hne].
    + intros _. exists t. split; [done|]. split; [done|].
      rewrite lookup_insert_eq. by eexists.
    + rewrite lookup_insert_ne by done. intros H.
      destruct (Hdbi tc H) as (t' & ? & ? & [x Hx]). exists t'.
      split; [done|]. split; [done|].
      rewrite lookup_insert. case_decide; by eexists.
Qed.

Lemma createContentKey_inv timeslot cb ecb bits s r s' :
  Inv s → int64 timeslot →
  createContentKey timeslot cb ecb bits s = (r, s') →
  safe r ∧ Inv s'.
Proof.
  intros HI Ht. unfold createContentKey.
  change (get ≫= ?f) with (λ s0 : State, f s0 s0). cbv beta.
  unfold hasContentKey. case_bool_decide as Hhas.
  { intros [= <- <-]. split; [by split|done]. }
  assert (Hnone : m_db s !! floorHour timeslot = None).
  { destruct (m_db s !! floorHour timeslot) eqn:E; [|done]. destruct Hhas. by eexists. }
  destruct (Inv_at_fresh _ _ _ _ _ _ HI Ht Hnone) as [Hreq _].
  monad_unfold.
  match goal with |- context [for_each ?b ?l ?s0] =>
    destruct (for_each b l s0) as [r1 s1] eqn:Hloop end.
  apply for_each_body_inv with (k := 0) in Hloop as [[Hs1 Hs2] HI1]; [| |lia|done].
  - destruct r1 as [[]|f]; intros [= <- <-]; (split; [split; congruence|]).
    + exact (Inv_at_retarget _ _ _ _ _ _ HI1).
    + exact (Inv_at_retarget _ _ _ _ _ _ HI1).
  - unfold InvS. state_simpl. unfold keyRequests_insert, addContentKey. rewrite Hreq.
    rewrite length_map_to_list, Z.add_0_l.
    apply (Inv_at_create 0); [exact HI|done|done|lia].
Qed.

Lemma produce_inv timeslot content ecb bits s r s' :
  Inv s → int64 timeslot →
  produce timeslot content ecb bits s = (r, s') →
  safe r ∧ Inv s'.
Proof.
  intros HI Ht. unfold produce. unfold mbind at 1, M_bind at 1.
  destruct (createContentKey _ _ _ _ s) as [r1 s1] eqn:Hc.
  apply createContentKey_inv in Hc as [[Hs1 Hs2] HI1]; [|done..].
  destruct r1 as [n|f]; [|intros [= <- <-]; split; [split; congruence|done]].
  monad_unfold. destruct (getContentKey _ _); [|intros [= <- <-]; split; [by split|done]].
  destruct (encryptData _ _ _ _); intros [= <- <-]; (split; [by split|done]).
Qed.

Lemma step_inv s s' : Inv s → step s s' → Inv s'.
Proof.
  intros HI Hstep. destruct Hstep as [s t cb ecb bits r s' Ht Hc _
    | s t content ecb bits r s' Ht Hp _ | s l1 p l2 resp r s' Hpend Hd _].
  - by apply createContentKey_inv in Hc as [_ ?].
  - by apply produce_inv in Hp as [_ ?].
  - assert (Hi : int64 (pi_timeslot p)).
    { apply (inv_int64 _ _ _ _ _ _ HI). rewrite Hpend, elem_of_app, elem_of_cons. tauto. }
    apply dispatch_inv with (k := 0) in Hd as [_ HI1]; [|..|lia|done].
    + exact (Inv_at_retarget _ _ _ _ _ _ HI1).
    + unfold Inv, InvS in *. state_simpl. rewrite Hpend in HI. by apply Inv_at_take in HI.
Qed.

Lemma initial_inv s : initial s → Inv s.
Proof.
  intros (Hreq & Hpend & Hev). unfold Inv, InvS. rewrite Hreq, Hpend, Hev.
  split.
  - lia.
  - intros tc kr Hx. by rewrite lookup_empty in Hx.
  - intros tc _. rewrite !count_nil. repeat split; lia.
  - intros tc [[x Hx]|Hc]; [by rewrite lookup_empty in Hx|by rewrite count_nil in Hc].
  - intros p Hp. by apply elem_of_nil in Hp.
Qed.

Lemma reachable_inv s : reachable s → Inv s.
Proof.
  intros (s0 & Hinit & Hsteps). apply initial_inv in Hinit.
  induction Hsteps as [|s1 s2 s3 Hstep _ IH]; [done|].
  apply IH. by eapply step_inv.
Qed.

Lemma Producer_new_initial prefix dataType db repeatAttempts link keyInfo :
  initial (Producer_new prefix dataType db repeatAttempts link keyInfo).
Proof. by repeat split. Qed.

(** *** Callbacks invoked are never taken back *)

Lemma grows_ret {A} (a : A) : grows (mret a).
Proof. by intros s r s' [= <- <-]. Qed.

Lemma grows_throw {A} (e : Fault) : grows (@throw A e).
Proof. by intros s r s' [= <- <-]. Qed.

Lemma grows_get : grows get.
Proof. by intros s r s' [= <- <-]. Qed.

Lemma grows_modify (f : State → State) :
  (∀ s, invoked s `prefix_of` invoked (f s)) → grows (modify f).
Proof. intros Hf s r s' [= <- <-]. apply Hf. Qed.

Lemma grows_bind {A B} (m : M A) (f : A → M B) :
  grows m → (∀ a, grows (f a)) → grows (m ≫= f).
Proof.
  intros Hm Hf s r s'. unfold mbind, M_bind.
  destruct (m s) as [[a|e] s1] eqn:E; apply Hm in E.
  - intros H. apply Hf in H. by etrans.
  - by intros [= <- <-].
Qed.

Lemma grows_keyRequest_at tc : grows (keyRequest_at tc).
Proof. intros s r s'. unfold keyRequest_at. by destruct (_ !! _); intros [= <- <-]. Qed.

Lemma grows_keyRequest_update tc f : grows (keyRequest_update tc f).
Proof. intros s r s'. unfold keyRequest_update. by destruct (_ !! _); intros [= <- <-]. Qed.

Lemma grows_for_each {A} (body : A → M unit) (l : list A) :
  (∀ x, grows (body x)) → grows (for_each body l).
Proof.
  intros Hb. induction l as [|x l IH]; simpl.
  - apply grows_ret.
  - apply grows_bind; [apply Hb|by intros _].
Qed.

Ltac grows_step :=
  first
    [ apply grows_ret
    | apply grows_throw
    | apply grows_get
    | apply grows_keyRequest_at
    | apply grows_keyRequest_update
    | apply grows_modify; intros ?; simpl; first [done | by eexists]
    | apply grows_bind; [|intros ?]
    | match goal with
      | |- grows (match ?x with _ => _ end) => destruct x
      | |- grows (if ?b then _ else _) => destruct b
      end ].

Lemma grows_updateKeyRequest tc cb : grows (updateKeyRequest tc cb).
Proof. unfold updateKeyRequest, invoke. repeat grows_step. Qed.

Lemma grows_encryptContentKey encryptionKey eKeyName timeslot cb ecb :
  grows (encryptContentKey encryptionKey eKeyName timeslot cb ecb).
Proof.
  unfold encryptContentKey, invoke. cbv zeta.
  repeat first [apply grows_updateKeyRequest | grows_step].
Qed.

Lemma grows_handleNack interest idx timeslot cb ecb :
  grows (handleNack interest idx timeslot cb ecb).
Proof.
  unfold handleNack, sendKeyInterest. cbv zeta.
  repeat first [apply grows_updateKeyRequest | grows_step].
Qed.

Lemma grows_handleTimeout interest idx timeslot cb ecb :
  grows (handleTimeout interest idx timeslot cb ecb).
Proof.
  unfold handleTimeout, sendKeyInterest. cbv zeta.
  repeat first [apply grows_handleNack | grows_step].
Qed.

Lemma grows_handleCoveringKey interest data idx timeslot cb ecb :
  grows (handleCoveringKey interest data idx timeslot cb ecb).
Proof.
  unfold handleCoveringKey, sendKeyInterest. cbv zeta.
  repeat first [apply grows_encryptContentKey | grows_step].
Qed.

Lemma grows_createContentKey timeslot cb ecb bits :
  grows (createContentKey timeslot cb ecb bits).
Proof.
  unfold createContentKey. cbv zeta.
  repeat first [apply grows_for_each; intros ?; unfold createContentKey_body, sendKeyInterest; cbv zeta
               | apply grows_encryptContentKey | grows_step].
Qed.

Lemma grows_produce timeslot content ecb bits :
  grows (produce timeslot content ecb bits).
Proof.
  unfold produce. repeat first [apply grows_createContentKey | grows_step].
Qed.

Lemma step_log s s' : step s s' → invoked s `prefix_of` invoked s'.
Proof.
  intros [s0 t cb ecb bits r s1 _ Hc _
    | s0 t content ecb bits r s1 _ Hp _ | s0 l1 p l2 resp r s1 _ Hd _].
  - by apply grows_createContentKey in Hc.
  - by apply grows_produce in Hp.
  - destruct resp as [d| |]; simpl in Hd.
    + by apply grows_handleCoveringKey in Hd.
    + by apply grows_handleNack in Hd.
    + by apply grows_handleTimeout in Hd.
Qed.

Lemma steps_log s s' : rtc step s s' → invoked s `prefix_of` invoked s'.
Proof.
  induction 1 as [|s1 s2 s3 Hstep _ IH]; [done|].
  etrans; [by apply step_log|done].
Qed.

Lemma steps_reachable s s' : reachable s → rtc step s s' → reachable s'.
Proof. intros (s0 & Hi & Hs) Hs'. exists s0. split; [done|]. by etrans. Qed.

(** *** The claims about the key requests *)

(** C10. In every state the producer can reach, the key request that a
    pending interest was sent for is in [m_keyRequests]: whatever the face
    answers, the handler's [m_keyRequests.at] does not fail (and the
    handler does nothing undefined, provided a data packet has the two
    name components that hold its bounds), and neither does the one of
    [encryptContentKey] under [createContentKey]. Once [updateKeyRequest]
    has erased a request (its completion callback has run), no interest
    is pending for it, so none of its answers is handled afterwards. *)
Theorem keyRequest_lookup_never_fails (s : State) :
  reachable s →
  (∀ p, p ∈ face_pending s → is_Some (m_keyRequests s !! timeCount (pi_timeslot p)))
  ∧ (∀ l1 p l2 resp, face_pending s = l1 ++ p :: l2 →
       (dispatch p resp (set_pending (λ _, l1 ++ l2) s)).1 ≠ Throw OutOfRange)
  ∧ (∀ l1 p l2 resp, face_pending s = l1 ++ p :: l2 →
       (∀ d, resp = RespData d → (2 <= length (d_name d))%nat) →
       (dispatch p resp (set_pending (λ _, l1 ++ l2) s)).1 ≠ Throw Undefined)
  ∧ (∀ timeslot cb ecb bits, int64 timeslot →
       safe (createContentKey timeslot cb ecb bits s).1)
  ∧ (∀ tc, m_keyRequests s !! tc = None ∨ 0 < count (is_completion tc) (invoked s) →
       m_keyRequests s !! tc = None
       ∧ ∀ p, p ∈ face_pending s → timeCount (pi_timeslot p) ≠ tc).
Proof.
  intros HI%reachable_inv.
  assert (Hpend : ∀ tc, m_keyRequests s !! tc = None →
            ∀ p, p ∈ face_pending s → timeCount (pi_timeslot p) ≠ tc).
  { intros tc E p Hp Heq.
    destruct (inv_dead _ _ _ _ _ _ HI tc E) as (Hz & _).
    pose proof (count_zero_elem _ _ _ Hz Hp) as Hf.
    unfold for_request in Hf. by rewrite bool_decide_true in Hf. }
  assert (Hlive : ∀ p, p ∈ face_pending s →
            is_Some (m_keyRequests s !! timeCount (pi_timeslot p))).
  { intros p Hp. destruct (m_keyRequests s !! _) eqn:E; [by eexists|].
    by destruct (Hpend _ E p Hp). }
  assert (Htake : ∀ l1 p l2, face_pending s = l1 ++ p :: l2 →
            int64 (pi_timeslot p)
            ∧ InvS (timeCount (pi_timeslot p)) (0 + 1) (set_pending (λ _, l1 ++ l2) s)).
  { intros l1 p l2 Hl. split.
    - apply (inv_int64 _ _ _ _ _ _ HI). rewrite Hl, elem_of_app, elem_of_cons. tauto.
    - unfold Inv, InvS in *. state_simpl. rewrite Hl in HI. by apply Inv_at_take in HI. }
  split; [exact Hlive|]. split; [|split; [|split]].
  - intros l1 p l2 resp Hl. destruct (Htake l1 p l2 Hl) as [Hi HI1].
    destruct (dispatch p resp _) as [r s'] eqn:Hd. simpl.
    by apply dispatch_inv with (k := 0) in Hd as [Hr _]; [|done|lia|done].
  - intros l1 p l2 resp Hl Hname. destruct (Htake l1 p l2 Hl) as [Hi HI1].
    destruct resp as [d| |]; simpl.
    + apply handleCoveringKey_defined; [|by apply Hname].
      apply Hlive. rewrite Hl, elem_of_app, elem_of_cons. tauto.
    + destruct (handleNack _ _ _ _ _ _) as [r s'] eqn:Hd. simpl.
      by apply handleNack_inv with (k := 0) in Hd as [-> _]; [|done|lia|done].
    + destruct (handleTimeout _ _ _ _ _ _) as [r s'] eqn:Hd. simpl.
      by apply handleTimeout_inv with (k := 0) in Hd as [-> _]; [|done|lia|done].
  - intros t cb ecb bits Ht.
    destruct (createContentKey t cb ecb bits s) as [r s'] eqn:Hc. simpl.
    by apply createContentKey_inv in Hc as [? _].
  - intros tc Herased.
    assert (E : m_keyRequests s !! tc = None).
    { destruct Herased as [E|Hc]; [done|].
      destruct (m_keyRequests s !! tc) eqn:E; [|done].
      destruct (inv_live _ _ _ _ _ _ HI tc _ E) as [_ Hz]. lia. }
    split; [done|]. by apply Hpend.
Qed.

(** C1. When the RSA-OAEP encryption of the C-KEY raises,
    [encryptContentKey] reports [EncryptionFailure] through the error
    callback and returns false, and nothing else changes: the request is
    still in [m_keyRequests] with the same [interestCount] and the same
    [encryptedKeys]. From then on, however the producer runs, the request
    stays in the table and its completion callback is never invoked. *)
Theorem encryptContentKey_failure (s : State) (encryptionKey : Buffer) (eKeyName : Name)
    (timeslot : TimePoint) (cb : ProducerEKeyCallback) (ecb : ErrorCallBack)
    (kr : KeyRequest) (contentKey : Buffer) (what : string) :
  m_keyRequests s !! timeCount timeslot = Some kr →
  getContentKey (m_db s) timeslot = Some contentKey →
  encryptData AlgorithmRsaOaep contentKey eKeyName encryptionKey = inl what →
  let failure := EvError (timeCount timeslot) ecb EncryptionFailure what in
  let s' := (encryptContentKey encryptionKey eKeyName timeslot cb ecb s).2 in
  encryptContentKey encryptionKey eKeyName timeslot cb ecb s
    = (Ret false, set_invoked (λ l, l ++ [failure]) s)
  ∧ invoked s' = invoked s ++ [failure]
  ∧ m_keyRequests s' = m_keyRequests s
  ∧ m_keyRequests s' !! timeCount timeslot = Some kr
  ∧ ∀ s1 s2, reachable s1 → failure ∈ invoked s1 → rtc step s1 s2 →
      is_Some (m_keyRequests s2 !! timeCount timeslot)
      ∧ ∀ c keys, EvKeys (timeCount timeslot) c keys ∉ invoked s2.
Proof.
  intros E Hdb Henc failure s'.
  assert (Heq : encryptContentKey encryptionKey eKeyName timeslot cb ecb s
                = (Ret false, set_invoked (λ l, l ++ [failure]) s)).
  { unfold encryptContentKey. monad_unfold. rewrite E. simpl. by rewrite Hdb, Henc. }
  subst s'. rewrite Heq. simpl. repeat split; try done.
  - destruct (m_keyRequests s2 !! timeCount timeslot) eqn:E2; [by eexists|].
    pose proof (reachable_inv _ (steps_reachable _ _ H H1)) as HI.
    destruct (inv_dead _ _ _ _ _ _ HI _ E2) as (_ & Hz & _).
    apply steps_log in H1. destruct H1 as [l Hl].
    assert (Hin : failure ∈ invoked s2) by (rewrite Hl, elem_of_app; by left).
    pose proof (count_zero_elem _ _ _ Hz Hin) as Hf.
    simpl in Hf. by rewrite bool_decide_true in Hf.
  - intros c keys Hk.
    pose proof (reachable_inv _ (steps_reachable _ _ H H1)) as HI.
    apply steps_log in H1. destruct H1 as [l Hl].
    assert (Hin : failure ∈ invoked s2) by (rewrite Hl, elem_of_app; by left).
    destruct (m_keyRequests s2 !! timeCount timeslot) eqn:E2.
    + destruct (inv_live _ _ _ _ _ _ HI _ _ E2) as [_ Hz].
      pose proof (count_zero_elem _ _ _ Hz Hk) as Hf.
      simpl in Hf. by rewrite bool_decide_true in Hf.
    + destruct (inv_dead _ _ _ _ _ _ HI _ E2) as (_ & Hz & _).
      pose proof (count_zero_elem _ _ _ Hz Hin) as Hf.
      simpl in Hf. by rewrite bool_decide_true in Hf.
Qed.

(** C3, as the code has it. A successful wrap appends the signed packet
    to [encryptedKeys] and decrements [interestCount] by one. With a
    callback that is not null, reaching zero invokes that callback, once,
    with the accumulated packets, and erases the request; before zero
    nothing is invoked. With the null callback nothing is invoked at all.
    Over a whole run, the completion callback of a request is invoked at
    most once. *)
Theorem successful_wrap_updates_request (s : State) (encryptionKey : Buffer)
    (eKeyName : Name) (timeslot : TimePoint) (cb : ProducerEKeyCallback)
    (ecb : ErrorCallBack) (kr : KeyRequest) (contentKey blob : Buffer) :
  m_keyRequests s !! timeCount timeslot = Some kr →
  getContentKey (m_db s) timeslot = Some contentKey →
  encryptData AlgorithmRsaOaep contentKey eKeyName encryptionKey = inr blob →
  let tc := timeCount timeslot in
  let cKeyData :=
    sign (mkData (m_namespace s ++ [NAME_COMPONENT_C_KEY;
                                    toIsoString (getRoundedTimeslot timeslot)]) blob) in
  let kr' := mkKeyRequest (interestCount kr - 1) (repeatAttempts kr)
                          (encryptedKeys kr ++ [cKeyData]) in
  let s' := (encryptContentKey encryptionKey eKeyName timeslot cb ecb s).2 in
  (encryptContentKey encryptionKey eKeyName timeslot cb ecb s).1 = Ret true
  ∧ (∀ kr2, m_keyRequests s' !! tc = Some kr2 → kr2 = kr')
  ∧ match cb with
    | Some c =>
        if interestCount kr - 1 =? 0
        then invoked s' = invoked s ++ [EvKeys tc c (encryptedKeys kr ++ [cKeyData])]
             ∧ m_keyRequests s' = delete tc (m_keyRequests s)
        else invoked s' = invoked s
             ∧ m_keyRequests s' = <[tc := kr']> (m_keyRequests s)
    | None => invoked s' = invoked s
    end
  ∧ ∀ s1 tc1, reachable s1 → count (is_completion tc1) (invoked s1) <= 1.
Proof.
  intros E Hdb Henc tc cKeyData kr' s'.
  assert (Heq : encryptContentKey encryptionKey eKeyName timeslot cb ecb s
    = (Ret true,
       let s1 := set_keyRequests <[tc := kr']> s in
       match cb with
       | Some c =>
           if interestCount kr - 1 =? 0
           then set_keyRequests (delete tc)
                  (set_invoked (λ l, l ++ [EvKeys tc c (encryptedKeys kr')]) s1)
           else s1
       | None => s1
       end)).
  { unfold encryptContentKey. monad_unfold. rewrite E. simpl. rewrite Hdb, Henc, E.
    rewrite (updateKeyRequest_eq _ _ _ (push_encryptedKey cKeyData kr)).
    2:{ simpl. apply lookup_insert_eq. }
    simpl. unfold set_keyRequests. simpl. rewrite insert_insert_eq.
    destruct cb as [c|]; [|done]. by destruct (_ =? 0). }
  subst s'. rewrite Heq. simpl. split; [done|]. split; [|split].
  - intros kr2. destruct cb as [c|]; simpl.
    + destruct (_ =? 0); simpl.
      * rewrite lookup_delete_eq. done.
      * rewrite lookup_insert_eq. by intros [= <-].
    + rewrite lookup_insert_eq. by intros [= <-].
  - destruct cb as [c|]; [|done].
    destruct (_ =? 0); simpl; [|done]. split; [done|].
    by rewrite delete_insert_eq.
  - intros s1 tc1 HI%reachable_inv.
    destruct (m_keyRequests s1 !! tc1) eqn:E1.
    + destruct (inv_live _ _ _ _ _ _ HI _ _ E1) as [_ Hz]. lia.
    + by destruct (inv_dead _ _ _ _ _ _ HI _ E1) as (_ & _ & Hz & _).
Qed.

(** C9. When the database already has the content key of the timeslot,
    [createContentKey] returns the content-key name and changes nothing:
    no key is stored, no interest is expressed, no callback is invoked,
    and [m_keyRequests] and [m_ekeyInfo] are as before. *)
Theorem createContentKey_known_timeslot (s : State) (timeslot : TimePoint)
    (cb : ProducerEKeyCallback) (ecb : ErrorCallBack) (bits : Buffer) :
  hasContentKey (m_db s) timeslot = true →
  createContentKey timeslot cb ecb bits s
    = (Ret (m_namespace s ++ [NAME_COMPONENT_C_KEY;
                              toIsoString (getRoundedTimeslot timeslot)]), s).
Proof.
  intros Hhas. unfold createContentKey.
  change (get ≫= ?f) with (λ s0 : State, f s0 s0). cbv beta.
  by rewrite Hhas.
Qed.

(** *** The loop of [createContentKey], node by node *)

Lemma covered_test info timeslot :
  (timeslot <? beginTimeslot info) || (endTimeslot info <=? timeslot) = false
  ↔ covered info timeslot.
Proof. unfold covered. rewrite orb_false_iff, Z.ltb_ge, Z.leb_gt. tauto. Qed.

Lemma uncovered_test info timeslot :
  (timeslot <? beginTimeslot info) || (endTimeslot info <=? timeslot) = true
  ↔ ¬ covered info timeslot.
Proof. rewrite <- covered_test. by destruct (_ || _). Qed.

Lemma omap_cons_app {A B} (f : A → option B) (x : A) (l : list A) :
  omap f (x :: l) = omap f [x] ++ omap f l.
Proof. simpl. by destruct (f x). Qed.

Lemma for_each_app {A} (body : A → M unit) (l1 l2 : list A) (s : State) :
  for_each body (l1 ++ l2) s
  = match for_each body l1 s with
    | (Ret _, s1) => for_each body l2 s1
    | (Throw e, s1) => (Throw e, s1)
    end.
Proof.
  revert s. induction l1 as [|x l1 IH]; intros s; [done|].
  simpl. unfold mbind, M_bind. destruct (body x s) as [[[]|e] s1]; [apply IH|done].
Qed.

Lemma length_omap_le {A B} (f : A → option B) (l : list A) :
  (length (omap f l) <= length l)%nat.
Proof. induction l as [|x l IH]; csimpl; [lia|]. destruct (f x); csimpl; lia. Qed.

Lemma omap_full {A B} (f : A → option B) (l : list A) :
  length (omap f l) = length l → ∀ x, x ∈ l → is_Some (f x).
Proof.
  induction l as [|y l IH]; intros Hlen x Hx; [by apply elem_of_nil in Hx|].
  csimpl in Hlen. pose proof (length_omap_le f l).
  destruct (f y) eqn:Hy; csimpl in Hlen; [|lia].
  apply elem_of_cons in Hx as [->|Hx]; [by eexists|].
  apply IH; [lia|done].
Qed.

Lemma omap_none {A B} (f : A → option B) (l : list A) :
  (∀ x, x ∈ l → f x = None) → omap f l = [].
Proof.
  induction l as [|y l IH]; intros H; [done|]. csimpl.
  rewrite (H y) by (apply elem_of_cons; by left).
  apply IH. intros x Hx. apply H. apply elem_of_cons. by right.
Qed.

Section Loop.

Variables (timeslot : TimePoint) (callback : ProducerEKeyCallback)
  (errorCallback : ErrorCallBack) (contentKey : Buffer) (namespace : Name).

Let tc := timeCount timeslot.
Let keyName := namespace ++ [NAME_COMPONENT_C_KEY; toIsoString (getRoundedTimeslot timeslot)].

Local Abbreviation node_uncovered := (Producer.node_uncovered timeslot).
Local Abbreviation node_wrap := (Producer.node_wrap contentKey).
Local Abbreviation node_interest := (Producer.node_interest timeslot callback errorCallback).
Local Abbreviation node_key := (Producer.node_key timeslot contentKey namespace).
Local Abbreviation node_error := (Producer.node_error timeslot errorCallback contentKey).
Local Abbreviation node_attempts := (Producer.node_attempts timeslot).
Local Abbreviation request_after := (Producer.request_after timeslot contentKey namespace).
Local Abbreviation with_request := (Producer.with_request timeslot).

Lemma with_request_twice kr1 kr2 n1 n2 e1 e2 s :
  with_request kr2 n2 e2 (with_request kr1 n1 e1 s)
  = with_request kr2 (n1 ++ n2) (e1 ++ e2) s.
Proof.
  unfold with_request. simpl. by rewrite insert_insert_eq, <- !app_assoc.
Qed.

Lemma with_request_id kr s :
  m_keyRequests s !! tc = Some kr → with_request kr [] [] s = s.
Proof.
  intros E. unfold with_request. rewrite insert_id by done.
  rewrite !app_nil_r. by destruct s.
Qed.

Lemma body_step it s kr :
  m_namespace s = namespace →
  m_keyRequests s !! tc = Some kr →
  getContentKey (m_db s) timeslot = Some contentKey →
  callback = None ∨ Z.of_nat (length (omap node_key [it])) < interestCount kr →
  createContentKey_body timeslot callback errorCallback it s
  = (Ret tt, with_request (request_after [it] kr)
                          (omap node_interest [it]) (omap node_error [it]) s).
Proof.
  intros Hns E Hdb Hcount.
  unfold createContentKey_body, request_after, with_request. simpl.
  unfold node_key, node_interest, node_error, node_attempts, node_wrap in *.
  unfold node_uncovered in *. fold tc. simpl in Hcount.
  destruct (_ || _) eqn:Hu; rewrite ?Hu in Hcount; simpl in *.
  - monad_unfold. rewrite E. simpl.
    rewrite Z.sub_0_r, !app_nil_r. reflexivity.
  - unfold encryptContentKey. monad_unfold. fold tc. rewrite E. simpl.
    rewrite Hdb, Hns. fold keyName.
    destruct (encryptData _ _ _ _) as [what|blob] eqn:Hw; rewrite ?Hw in Hcount; simpl in *.
    + rewrite Z.sub_0_r, !app_nil_r.
      replace (mkKeyRequest (interestCount kr) (repeatAttempts kr) (encryptedKeys kr))
        with kr by (by destruct kr).
      rewrite insert_id by done. unfold set_invoked. simpl. by rewrite Hns.
    + rewrite E.
      rewrite (updateKeyRequest_eq _ _ _ (push_encryptedKey (sign (mkData keyName blob)) kr)).
      2:{ simpl. apply lookup_insert_eq. }
      simpl. unfold set_keyRequests. simpl. rewrite insert_insert_eq, !app_nil_r, ?Hns.
      destruct callback as [c|]; [|done].
      destruct (interestCount kr - 1 =? 0) eqn:Hz; [|done].
      apply Z.eqb_eq in Hz. destruct Hcount as [?|?]; [done|]. simpl in *. lia.
Qed.

Lemma request_after_cons it l kr :
  request_after (it :: l) kr = request_after l (request_after [it] kr).
Proof.
  unfold request_after. cbn [interestCount repeatAttempts encryptedKeys foldl].
  rewrite (omap_cons_app _ it l), length_app, Nat2Z.inj_add, <- app_assoc.
  f_equal. lia.
Qed.

(** The loop, as long as it does not complete the request: every node
    adds its interest, its key or its error. *)
Lemma loop_open l s kr :
  m_namespace s = namespace →
  m_keyRequests s !! tc = Some kr →
  getContentKey (m_db s) timeslot = Some contentKey →
  callback = None ∨ Z.of_nat (length (omap node_key l)) < interestCount kr →
  for_each (createContentKey_body timeslot callback errorCallback) l s
  = (Ret tt, with_request (request_after l kr)
                          (omap node_interest l) (omap node_error l) s).
Proof.
  revert s kr. induction l as [|it l IH]; intros s kr Hns E Hdb Hcount.
  - simpl. unfold request_after. simpl. rewrite Z.sub_0_r, app_nil_r.
    replace (mkKeyRequest _ _ _) with kr by (by destruct kr).
    by rewrite with_request_id.
  - simpl for_each. unfold mbind, M_bind.
    rewrite (body_step it s kr Hns E Hdb).
    2:{ destruct Hcount as [?|Hc]; [by left|right].
        rewrite omap_cons_app, length_app in Hc. lia. }
    rewrite (IH _ (request_after [it] kr)); try done.
    + rewrite with_request_twice, (request_after_cons it l kr).
      by rewrite (omap_cons_app _ it l), (omap_cons_app node_error it l).
    + unfold with_request. simpl. apply lookup_insert_eq.
    + destruct Hcount as [?|Hc]; [by left|right].
      rewrite omap_cons_app, length_app in Hc.
      unfold request_after at 1. cbn [interestCount]. lia.
Qed.

Lemma node_key_covered it d :
  node_key it = Some d → node_interest it = None ∧ node_error it = None.
Proof.
  unfold node_key, node_interest, node_error.
  destruct (node_uncovered it); [done|]. by destruct (node_wrap it).
Qed.

Lemma body_complete it s kr c d :
  callback = Some c →
  m_namespace s = namespace →
  m_keyRequests s !! tc = Some kr →
  getContentKey (m_db s) timeslot = Some contentKey →
  node_key it = Some d →
  interestCount kr = 1 →
  createContentKey_body timeslot callback errorCallback it s
  = (Ret tt,
     mkState (m_namespace s) (m_maxRepeatAttempts s) (m_useLink s) (m_linkSize s)
             (m_linkBlock s) (m_ekeyInfo s) (delete tc (m_keyRequests s)) (m_db s)
             (face_pending s) (invoked s ++ [EvKeys tc c (encryptedKeys kr ++ [d])])).
Proof.
  intros Hcb Hns E Hdb Hd Hcount.
  unfold createContentKey_body. unfold node_key, node_uncovered, node_wrap in Hd.
  destruct (_ || _); [done|].
  unfold encryptContentKey. monad_unfold. fold tc. rewrite E. simpl.
  rewrite Hdb, Hns. fold keyName.
  destruct (encryptData _ _ _ _) as [what|blob]; [done|]. injection Hd as <-.
  rewrite E.
  rewrite (updateKeyRequest_eq _ _ _ (push_encryptedKey (sign (mkData keyName blob)) kr)).
  2:{ simpl. apply lookup_insert_eq. }
  rewrite Hcb. simpl. rewrite Hcount. simpl.
  unfold set_keyRequests, set_invoked. simpl.
  by rewrite !delete_insert_eq, Hns.
Qed.

(** The loop when every node is covered and every wrap succeeds: the
    last wrap brings [interestCount] to zero, the callback (if there is
    one) receives the packets and the request is erased. *)
Lemma loop_complete l s kr c :
  callback = Some c →
  m_namespace s = namespace →
  m_keyRequests s !! tc = Some kr →
  getContentKey (m_db s) timeslot = Some contentKey →
  l ≠ [] →
  length (omap node_key l) = length l →
  interestCount kr = Z.of_nat (length l) →
  for_each (createContentKey_body timeslot callback errorCallback) l s
  = (Ret tt,
     mkState (m_namespace s) (m_maxRepeatAttempts s) (m_useLink s) (m_linkSize s)
             (m_linkBlock s) (m_ekeyInfo s) (delete tc (m_keyRequests s)) (m_db s)
             (face_pending s)
             (invoked s ++ [EvKeys tc c (encryptedKeys kr ++ omap node_key l)])).
Proof.
  intros Hcb Hns E Hdb Hne Hfull Hcount.
  destruct (exists_last Hne) as (l' & it & ->). clear Hne.
  pose proof (omap_full _ _ Hfull) as Hall.
  rewrite omap_app, !length_app in Hfull. simpl in Hfull.
  pose proof (length_omap_le node_key l') as Hle'.
  pose proof (length_omap_le node_key [it]) as Hle1. simpl in Hle1.
  rewrite for_each_app.
  rewrite (loop_open l' s kr Hns E Hdb).
  2:{ right. rewrite Hcount, length_app. simpl. lia. }
  rewrite (omap_none node_interest l'), (omap_none node_error l').
  2,3: intros x Hx; destruct (Hall x) as [d Hd];
       [rewrite elem_of_app; by left|by apply node_key_covered in Hd as [? ?]].
  destruct (Hall it) as [d Hd]; [rewrite elem_of_app, list_elem_of_singleton; by right|].
  simpl for_each. unfold mbind, M_bind, mret, M_ret.
  rewrite (body_complete it _ (request_after l' kr) c d Hcb); try done.
  - unfold with_request. simpl.
    rewrite !delete_insert_eq, !app_nil_r, omap_app, <- app_assoc.
    csimpl. by rewrite Hd.
  - unfold with_request. simpl. apply lookup_insert_eq.
  - unfold request_after. simpl. rewrite Hcount, length_app. simpl. lia.
Qed.

End Loop.

Lemma foldl_attempts_keep timeslot l m k :
  m !! k = Some 0 → foldl (node_attempts timeslot) m l !! k = Some 0.
Proof.
  revert m. induction l as [|it l IH]; intros m Hm; [done|].
  simpl. apply IH. unfold node_attempts. destruct (node_uncovered _ _); [|done].
  rewrite lookup_insert. by case_decide.
Qed.

Lemma foldl_attempts_set timeslot l m k info :
  (k, info) ∈ l → node_uncovered timeslot (k, info) = true →
  foldl (node_attempts timeslot) m l !! k = Some 0.
Proof.
  revert m. induction l as [|it l IH]; intros m Hin Hu; [by apply elem_of_nil in Hin|].
  apply elem_of_cons in Hin as [<-|Hin]; simpl.
  - apply foldl_attempts_keep. unfold node_attempts. rewrite Hu. apply lookup_insert_eq.
  - by apply IH.
Qed.

(** What [createContentKey] leaves behind for a timeslot it has not seen:
    either the request is still open, holding the keys wrapped so far, or
    every node was covered and wrapped, and the request has completed. *)
Lemma createContentKey_fresh (s : State) (timeslot : TimePoint)
    (cb : ProducerEKeyCallback) (ecb : ErrorCallBack) (bits : Buffer) :
  hasContentKey (m_db s) timeslot = false →
  m_keyRequests s !! timeCount timeslot = None →
  let tc := timeCount timeslot in
  let l := map_to_list (m_ekeyInfo s) in
  let keys := omap (node_key timeslot bits (m_namespace s)) l in
  ∃ s',
    createContentKey timeslot cb ecb bits s
    = (Ret (m_namespace s ++ [NAME_COMPONENT_C_KEY;
                              toIsoString (getRoundedTimeslot timeslot)]), s')
    ∧ face_pending s' = face_pending s ++ omap (node_interest timeslot cb ecb) l
    ∧ ((m_keyRequests s' !! tc
          = Some (request_after timeslot bits (m_namespace s) l
                                (KeyRequest_of (Z.of_nat (length l))))
        ∧ invoked s' = invoked s ++ omap (node_error timeslot ecb bits) l)
       ∨ (∃ c, cb = Some c ∧ length keys = length l
          ∧ m_keyRequests s' !! tc = None
          ∧ invoked s' = invoked s ++ [EvKeys tc c keys])).
Proof.
  intros Hhas Hreq tc l keys.
  unfold createContentKey.
  change (get ≫= ?f) with (λ s0 : State, f s0 s0). cbv beta.
  rewrite Hhas. monad_unfold. fold l.
  set (s2 := set_keyRequests _ (set_db _ s)).
  assert (Hns : m_namespace s2 = m_namespace s) by done.
  assert (E : m_keyRequests s2 !! tc = Some (KeyRequest_of (Z.of_nat (length l)))).
  { subst s2 tc. simpl. unfold keyRequests_insert. rewrite Hreq.
    unfold l. rewrite length_map_to_list. apply lookup_insert_eq. }
  assert (Hdb : getContentKey (m_db s2) timeslot = Some bits).
  { subst s2. simpl. unfold getContentKey, addContentKey. apply lookup_insert_eq. }
  assert (Hopen : cb = None ∨ Z.of_nat (length keys) < Z.of_nat (length l) →
    ∃ s', (let (r, s') := for_each (createContentKey_body timeslot cb ecb) l s2 in
           match r with
           | Ret _ => (Ret (m_namespace s ++ [NAME_COMPONENT_C_KEY;
                              toIsoString (getRoundedTimeslot timeslot)]), s')
           | Throw e => (Throw e, s')
           end) = (Ret (m_namespace s ++ [NAME_COMPONENT_C_KEY;
                              toIsoString (getRoundedTimeslot timeslot)]), s')
      ∧ face_pending s' = face_pending s ++ omap (node_interest timeslot cb ecb) l
      ∧ ((m_keyRequests s' !! tc
          = Some (request_after timeslot bits (m_namespace s) l
                                (KeyRequest_of (Z.of_nat (length l))))
        ∧ invoked s' = invoked s ++ omap (node_error timeslot ecb bits) l)
       ∨ (∃ c, cb = Some c ∧ length keys = length l
          ∧ m_keyRequests s' !! tc = None
          ∧ invoked s' = invoked s ++ [EvKeys tc c keys]))).
  { intros Hc.
    rewrite (loop_open timeslot cb ecb bits (m_namespace s) l s2 _ Hns E Hdb Hc).
    eexists. split; [done|]. split; [done|]. left. split; [|done].
    unfold with_request. simpl. apply lookup_insert_eq. }
  destruct cb as [c|]; [|apply Hopen; by left].
  pose proof (length_omap_le (node_key timeslot bits (m_namespace s)) l) as Hle.
  fold keys in Hle.
  destruct (decide (length keys = length l)) as [Hfull|Hnot];
    [|apply Hopen; right; lia].
  destruct (decide (l = [])) as [El|El].
  { exists s2. rewrite El. simpl. split; [done|]. split; [by rewrite app_nil_r|].
    left. split; [by rewrite El in E|by rewrite app_nil_r]. }
  rewrite (loop_complete timeslot (Some c) ecb bits (m_namespace s) l s2 _ c
             eq_refl Hns E Hdb); [|done..].
  eexists. split; [done|]. simpl. split.
  - rewrite omap_none; [by rewrite app_nil_r|].
    intros x Hx. destruct (omap_full _ _ Hfull x Hx) as [d Hd].
    by apply (node_key_covered timeslot (Some c) ecb bits) in Hd as [? ?].
  - right. exists c. split; [done|]. split; [done|]. split.
    + apply lookup_delete_eq.
    + done.
Qed.

Lemma elem_of_node_interests timeslot cb ecb (l : list (Name * KeyInfo)) p :
  p ∈ omap (node_interest timeslot cb ecb) l
  ↔ ∃ k info, (k, info) ∈ l ∧ ¬ covered info timeslot
      ∧ p = mkPending (mkInterest k [ExcludedAfter (toIsoString timeslot)] (Some 1) None None)
                      0 timeslot cb ecb.
Proof.
  rewrite list_elem_of_omap. split.
  - intros ([k info] & Hin & Hn). unfold node_interest, node_uncovered in Hn.
    destruct (_ || _) eqn:Hu; [|done]. injection Hn as <-.
    exists k, info. split; [done|]. split; [|done]. by apply uncovered_test.
  - intros (k & info & Hin & Hu & ->). exists (k, info). split; [done|].
    unfold node_interest, node_uncovered. apply uncovered_test in Hu. simpl in *.
    by rewrite Hu.
Qed.

(** C4. For a timeslot whose content key is new, [createContentKey] goes
    through the nodes of [m_ekeyInfo]. A node gets an interest exactly
    when its [KeyInfo] does not cover the timeslot; the interest is for
    the node's name with the exclude "after the timeslot's ISO component"
    and ChildSelector 1, it is bound to delegation index 0, and the node's
    [repeatAttempts] is 0. For a node that covers the timeslot there is no
    interest: the content key is wrapped at once under the cached
    [keyBits], with the name node/iso(begin)/iso(end) as the locator, and
    the packet joins the request (or the wrap's failure is reported). *)
Theorem createContentKey_interest_iff_uncovered (s : State) (timeslot : TimePoint)
    (cb : ProducerEKeyCallback) (ecb : ErrorCallBack) (bits : Buffer) :
  hasContentKey (m_db s) timeslot = false →
  m_keyRequests s !! timeCount timeslot = None →
  let tc := timeCount timeslot in
  let keyName :=
    m_namespace s ++ [NAME_COMPONENT_C_KEY; toIsoString (getRoundedTimeslot timeslot)] in
  let s' := (createContentKey timeslot cb ecb bits s).2 in
  (createContentKey timeslot cb ecb bits s).1 = Ret keyName
  ∧ ∃ issued, face_pending s' = face_pending s ++ issued
    ∧ ∀ eKeyPrefix info, m_ekeyInfo s !! eKeyPrefix = Some info →
      let interest :=
        mkInterest eKeyPrefix [ExcludedAfter (toIsoString timeslot)] (Some 1) None None in
      let eKeyName :=
        eKeyPrefix ++ [toIsoString (beginTimeslot info); toIsoString (endTimeslot info)] in
      ((∃ p, p ∈ issued ∧ i_name (pi_interest p) = eKeyPrefix) ↔ ¬ covered info timeslot)
      ∧ (∀ p, p ∈ issued → i_name (pi_interest p) = eKeyPrefix →
           p = mkPending interest 0 timeslot cb ecb)
      ∧ (¬ covered info timeslot →
           mkPending interest 0 timeslot cb ecb ∈ issued
           ∧ ∃ kr, m_keyRequests s' !! tc = Some kr
                   ∧ repeatAttempts kr !! eKeyPrefix = Some 0)
      ∧ (covered info timeslot →
           match encryptData AlgorithmRsaOaep bits eKeyName (keyBits info) with
           | inr blob =>
               let cKeyData := sign (mkData keyName blob) in
               (∃ kr, m_keyRequests s' !! tc = Some kr ∧ cKeyData ∈ encryptedKeys kr)
               ∨ (∃ c keys, EvKeys tc c keys ∈ invoked s' ∧ cKeyData ∈ keys)
           | inl what => EvError tc ecb EncryptionFailure what ∈ invoked s'
           end).
Proof.
  intros Hhas Hreq tc keyName s'.
  destruct (createContentKey_fresh s timeslot cb ecb bits Hhas Hreq)
    as (s1 & Heq & Hpend & Hcases).
  subst s'. rewrite Heq. simpl. split; [done|].
  set (l := map_to_list (m_ekeyInfo s)) in *.
  exists (omap (node_interest timeslot cb ecb) l). split; [done|].
  intros k info Hk.
  set (interest :=
         mkInterest k [ExcludedAfter (toIsoString timeslot)] (Some 1) None None).
  assert (Hin : (k, info) ∈ l) by (by apply elem_of_map_to_list).
  assert (Hnames : ∀ p, p ∈ omap (node_interest timeslot cb ecb) l →
            i_name (pi_interest p) = k →
            ¬ covered info timeslot ∧ p = mkPending interest 0 timeslot cb ecb).
  { intros p (k' & info' & Hin' & Hu & ->)%elem_of_node_interests Hn. simpl in Hn.
    subst k'. apply elem_of_map_to_list in Hin'.
    assert (info' = info) by congruence. by subst info'. }
  assert (Hissued : ¬ covered info timeslot →
            mkPending interest 0 timeslot cb ecb ∈ omap (node_interest timeslot cb ecb) l).
  { intros Hu. apply elem_of_node_interests. by exists k, info. }
  split; [|split; [|split]].
  - split.
    + intros (p & Hp & Hn). by destruct (Hnames p Hp Hn).
    + intros Hu. eexists. split; [by apply Hissued|done].
  - intros p Hp Hn. by destruct (Hnames p Hp Hn).
  - intros Hu. split; [by apply Hissued|].
    destruct Hcases as [[Hkr _]|(c & _ & Hfull & _)].
    + eexists. split; [exact Hkr|]. simpl.
      eapply foldl_attempts_set; [exact Hin|]. by apply uncovered_test.
    + destruct (omap_full _ _ Hfull _ Hin) as [d Hd].
      unfold node_key, node_uncovered in Hd. simpl in Hd.
      apply uncovered_test in Hu. by rewrite Hu in Hd.
  - intros Hc. apply covered_test in Hc.
    destruct (encryptData _ _ _ _) as [what|blob] eqn:Hw.
    + assert (Hne : node_error timeslot ecb bits (k, info)
                    = Some (EvError tc ecb EncryptionFailure what)).
      { unfold node_error, node_uncovered, node_wrap. simpl. by rewrite Hc, Hw. }
      destruct Hcases as [[_ Hinv]|(c & _ & Hfull & _)].
      * rewrite Hinv, elem_of_app. right. apply list_elem_of_omap. by exists (k, info).
      * destruct (omap_full _ _ Hfull _ Hin) as [d Hd].
        unfold node_key, node_uncovered, node_wrap in Hd. simpl in Hd.
        by rewrite Hc, Hw in Hd.
    + assert (Hnk : node_key timeslot bits (m_namespace s) (k, info)
                    = Some (sign (mkData keyName blob))).
      { unfold node_key, node_uncovered, node_wrap. simpl. by rewrite Hc, Hw. }
      assert (Hkeys : sign (mkData keyName blob)
                      ∈ omap (node_key timeslot bits (m_namespace s)) l).
      { apply list_elem_of_omap. by exists (k, info). }
      destruct Hcases as [[Hkr _]|(c & _ & _ & _ & Hinv)].
      * left. eexists. split; [exact Hkr|]. simpl. done.
      * right. exists c, (omap (node_key timeslot bits (m_namespace s)) l).
        split; [|done]. rewrite Hinv, elem_of_app. right.
        by apply list_elem_of_singleton.
Qed.

(** *** An E-KEY arrives *)

Lemma encryptContentKey_frame encryptionKey eKeyName timeslot cb ecb s kr :
  m_keyRequests s !! timeCount timeslot = Some kr →
  let w := encryptContentKey encryptionKey eKeyName timeslot cb ecb s in
  face_pending w.2 = face_pending s
  ∧ m_ekeyInfo w.2 = m_ekeyInfo s
  ∧ m_db w.2 = m_db s
  ∧ (w.1 = Ret true
     ↔ ∃ contentKey blob,
         getContentKey (m_db s) timeslot = Some contentKey
         ∧ encryptData AlgorithmRsaOaep contentKey eKeyName encryptionKey = inr blob).
Proof.
  intros E. unfold encryptContentKey. monad_unfold. rewrite E. simpl.
  destruct (getContentKey (m_db s) timeslot) as [contentKey|]; simpl.
  2:{ repeat split; try done. by intros (? & ? & ? & _). }
  destruct (encryptData _ _ _ _) as [what|blob] eqn:Hw; simpl.
  { repeat split; try done. intros (ck & blob & [= <-] & Hb). congruence. }
  rewrite E.
  match goal with |- context [push_encryptedKey ?d kr] =>
    rewrite (updateKeyRequest_eq _ _ _ (push_encryptedKey d kr)) end.
  2:{ simpl. apply lookup_insert_eq. }
  simpl. repeat split; try (by destruct cb; [destruct (_ =? 0)|]).
  intros _. by exists contentKey, blob.
Qed.

(** C5, as the code has it. The E-KEY received for the interest names
    its bounds in its last two components. If the timeslot is at or after
    the end bound, the key is stale: [repeatAttempts[interestName]] is set
    to 0 and an interest for the same name is expressed afresh, with
    ChildSelector 1 and the exclude of the interest answered, extended to
    exclude everything up to the begin component; it carries neither link
    nor selected delegation, whatever the answered interest carried, and
    is bound to the same delegation index, timeslot and callbacks.
    [m_ekeyInfo] is unchanged. Otherwise the content key is wrapped under
    the payload with the data name as locator, no interest is expressed,
    and [m_ekeyInfo[interestName]] becomes [{begin, end, payload}] exactly
    when the wrap succeeded. *)
Theorem handleCoveringKey_stale_or_covering (s : State) (interest : Interest)
    (data : Data) (delegationIndex : Z) (timeslot : TimePoint)
    (cb : ProducerEKeyCallback) (ecb : ErrorCallBack) (kr : KeyRequest)
    (startComponent endComponent : Component) (begin end_ : TimePoint) :
  m_keyRequests s !! timeCount timeslot = Some kr →
  name_get (d_name data) (-2) = Some startComponent →
  name_get (d_name data) (-1) = Some endComponent →
  fromIsoString startComponent = Some begin →
  fromIsoString endComponent = Some end_ →
  let tc := timeCount timeslot in
  let interestName := i_name interest in
  let s' := (handleCoveringKey interest data delegationIndex timeslot cb ecb s).2 in
  (end_ <= timeslot →
     let reissued :=
       mkInterest interestName (i_exclude interest ++ [ExcludedBefore startComponent])
                  (Some 1) None None in
     (handleCoveringKey interest data delegationIndex timeslot cb ecb s).1 = Ret tt
     ∧ m_keyRequests s' = <[tc := set_repeatAttempts interestName 0 kr]> (m_keyRequests s)
     ∧ face_pending s'
       = face_pending s ++ [mkPending reissued delegationIndex timeslot cb ecb]
     ∧ m_ekeyInfo s' = m_ekeyInfo s
     ∧ invoked s' = invoked s
     ∧ m_db s' = m_db s)
  ∧ (timeslot < end_ →
     let wrapped :=
       encryptContentKey (d_content data) (d_name data) timeslot cb ecb s in
     face_pending s' = face_pending s
     ∧ m_keyRequests s' = m_keyRequests wrapped.2
     ∧ invoked s' = invoked wrapped.2
     ∧ (wrapped.1 = Ret true
        ↔ ∃ contentKey blob,
            getContentKey (m_db s) timeslot = Some contentKey
            ∧ encryptData AlgorithmRsaOaep contentKey (d_name data) (d_content data)
              = inr blob)
     ∧ (wrapped.1 = Ret true →
        m_ekeyInfo s'
        = <[interestName := mkKeyInfo begin end_ (d_content data)]> (m_ekeyInfo s))
     ∧ (wrapped.1 ≠ Ret true → m_ekeyInfo s' = m_ekeyInfo s)).
Proof.
  intros E Hs He Hb Hen tc interestName s'. subst s'.
  unfold handleCoveringKey. monad_unfold. rewrite E. simpl.
  rewrite Hs, He, Hb, Hen. split.
  - intros Hstale. apply Z.leb_le in Hstale. rewrite Hstale, E. simpl. done.
  - intros Hcov. apply Z.leb_gt in Hcov. rewrite Hcov.
    pose proof (encryptContentKey_frame (d_content data) (d_name data) timeslot cb ecb s kr E)
      as (Hp & Hk & _ & Hiff). simpl in *.
    destruct (encryptContentKey _ _ _ _ _ s) as [[[]|f] s1]; simpl in *;
      repeat split; try done; try (apply Hiff); try (by intros ?%Hiff).
    by rewrite Hk.
Qed.

(** C7, on the code. [createContentKey] composes the content-key name
    from [getRoundedTimeslot], whose division truncates toward zero. One
    millisecond before the epoch it names the hour that starts at the
    epoch, not the hour the timeslot lies in; the first and the last
    millisecond of the hour before the epoch are rounded to different
    time points. *)
Theorem createContentKey_before_epoch (s : State) (cb : ProducerEKeyCallback)
    (ecb : ErrorCallBack) (bits : Buffer) :
  getRoundedTimeslot (-1) = 0
  ∧ floorHour (-1) = -3600000
  ∧ floorHour (-3600000) = floorHour (-1)
  ∧ getRoundedTimeslot (-3600000) ≠ getRoundedTimeslot (-1)
  ∧ ((createContentKey (-1) cb ecb bits s).1
       = Ret (m_namespace s ++ [NAME_COMPONENT_C_KEY; toIsoString 0])
     ∨ ∃ f, (createContentKey (-1) cb ecb bits s).1 = Throw f).
Proof.
  repeat split; try done.
  unfold createContentKey.
  change (get ≫= ?f) with (λ s0 : State, f s0 s0). cbv beta.
  destruct (hasContentKey _ _); [by left|].
  monad_unfold.
  match goal with |- context [for_each ?b ?l ?s0] =>
    destruct (for_each b l s0) as [[[]|f] s1] end; simpl; [by left|right; by eexists].
Qed.

(** Where the unix time is not negative, the rounding of the code is the
    floor to the hour. *)
Lemma getRoundedTimeslot_floorHour (timeslot : TimePoint) :
  0 <= timeslot → getRoundedTimeslot timeslot = floorHour timeslot.
Proof.
  intros H. unfold getRoundedTimeslot, floorHour. by rewrite Z.quot_div_nonneg by lia.
Qed.

End Theory.

End ProducerTheory.

(** ** The consumer: key names and retrieval failures *)

Module ConsumerTheory.

Import Consumer.

Section Theory.

Context {library : Library}.

(** *** Lemmas on names *)



(** *** Retrieval failures *)

Lemma handleTimeout_retry interest nRetrials delegations idx callback ecb s :
  0 < nRetrials →
  handleTimeout interest nRetrials delegations idx callback ecb s
  = (Ret tt, sent interest (nRetrials - 1) delegations idx callback ecb s).
Proof. intros H. unfold handleTimeout. by rewrite (proj2 (Z.ltb_lt _ _)) by done. Qed.

Lemma handleTimeout_exhausted interest nRetrials delegations idx callback ecb s :
  nRetrials <= 0 →
  handleTimeout interest nRetrials delegations idx callback ecb s
  = handleNack interest delegations idx callback ecb s.
Proof. intros H. unfold handleTimeout. by rewrite (proj2 (Z.ltb_ge _ _)) by done. Qed.

Lemma handleNack_first interest delegations idx callback ecb s :
  delegations ≠ [] → hasSelectedDelegation interest = false →
  handleNack interest delegations idx callback ecb s
  = (Ret tt, sent (linked delegations interest 0) 0 delegations 0 callback ecb s).
Proof.
  intros HL Hsel. unfold handleNack. rewrite bool_decide_false by done.
  by rewrite Hsel.
Qed.

Lemma handleNack_next interest delegations idx callback ecb s :
  delegations ≠ [] → hasSelectedDelegation interest = true →
  0 <= idx → idx + 1 < 2 ^ 64 → idx + 1 < Z.of_nat (length delegations) →
  handleNack interest delegations idx callback ecb s
  = (Ret tt, sent (setSelectedDelegation (idx + 1) interest) 0 delegations (idx + 1)
                  callback ecb s).
Proof.
  intros HL Hsel H0 Hw Hlt. unfold handleNack, size_t_wrap.
  rewrite bool_decide_false by done. rewrite Hsel. simpl.
  rewrite Z.mod_small by lia. by rewrite (proj2 (Z.ltb_lt _ _)) by done.
Qed.

Lemma handleNack_out_of_options interest delegations idx callback ecb s :
  delegations = []
  ∨ (hasSelectedDelegation interest = true ∧ 0 <= idx ∧ idx + 1 < 2 ^ 64
     ∧ Z.of_nat (length delegations) <= idx + 1) →
  handleNack interest delegations idx callback ecb s
  = (Ret tt, set_invoked
               (λ l, l ++ [EvError ecb DataRetrievalFailure (toUri (i_name interest))]) s).
Proof.
  intros [->|(Hsel & H0 & Hw & Hge)]; unfold handleNack, size_t_wrap.
  - by rewrite bool_decide_true by done.
  - destruct (bool_decide (delegations = [])); [done|]. simpl. rewrite Hsel. simpl.
    rewrite Z.mod_small by lia. by rewrite (proj2 (Z.ltb_ge _ _)) by done.
Qed.

Lemma answer_in_turn_cons r rest p s :
  face_pending s = [p] →
  answer_in_turn (r :: rest) s
  = match dispatch p r (set_pending (λ _, []) s) with
    | (Ret _, s') => answer_in_turn rest s'
    | (Throw e, s') => (Throw e, s')
    end.
Proof. intros H. simpl. by rewrite H. Qed.

(** Under answers that are all failures, the delegations are tried one
    after the other. *)
Lemma link_phase (m : nat) :
  ∀ idx interest s answers callback ecb delegations,
    face_pending s = [mkPending (linked delegations interest idx) 0 delegations idx callback ecb] →
    0 <= idx → idx + 1 + Z.of_nat m = Z.of_nat (length delegations) →
    Z.of_nat (length delegations) < 2 ^ 64 →
    length answers = S m → Forall is_failure answers →
    ∃ s', answer_in_turn answers s = (Ret tt, s')
      ∧ face_pending s' = []
      ∧ face_expressed s'
        = face_expressed s
          ++ List.map (λ j, linked delegations interest (idx + 1 + Z.of_nat j)) (seq 0 m)
      ∧ invoked s'
        = invoked s ++ [EvError ecb DataRetrievalFailure (toUri (i_name interest))].
Proof.
  induction m as [|m IH]; intros idx interest s answers callback ecb delegations
    Hpend H0 HN Hlen Hans Hfail.
  - destruct answers as [|r [|? ?]]; try done.
    rewrite (answer_in_turn_cons _ _ _ _ Hpend).
    assert (Hd : dispatch (mkPending (linked delegations interest idx) 0 delegations idx
                                     callback ecb) r (set_pending (λ _, []) s)
                 = (Ret tt, set_invoked
                      (λ l, l ++ [EvError ecb DataRetrievalFailure (toUri (i_name interest))])
                      (set_pending (λ _, []) s))).
    { apply Forall_cons in Hfail as [Hr _].
      destruct r as [d| |]; [done| |]; simpl;
        [|rewrite handleTimeout_exhausted by lia];
        rewrite handleNack_out_of_options; try done; right; repeat split; try done; lia. }
    rewrite Hd. eexists. split; [done|]. simpl. by rewrite app_nil_r.
  - destruct answers as [|r rest]; [done|].
    rewrite (answer_in_turn_cons _ _ _ _ Hpend).
    apply Forall_cons in Hfail as [Hr Hrest].
    assert (HL : delegations ≠ []) by (intros ->; simpl in HN; lia).
    assert (Hd : dispatch (mkPending (linked delegations interest idx) 0 delegations idx
                                     callback ecb) r (set_pending (λ _, []) s)
                 = (Ret tt, sent (linked delegations interest (idx + 1)) 0 delegations
                                 (idx + 1) callback ecb (set_pending (λ _, []) s))).
    { destruct r as [d| |]; [done| |]; simpl;
        [|rewrite handleTimeout_exhausted by lia];
        rewrite handleNack_next; try done; lia. }
    rewrite Hd.
    destruct (IH (idx + 1) interest
                 (sent (linked delegations interest (idx + 1)) 0 delegations
                       (idx + 1) callback ecb (set_pending (λ _, []) s))
                 rest callback ecb delegations eq_refl)
      as (s' & Hrun & Hp & He & Hi); try done; try lia.
    { simpl in Hans. lia. }
    exists s'. split; [done|]. split; [done|]. split; [|done].
    rewrite He. simpl. rewrite <- app_assoc. f_equal. simpl. f_equal.
    + f_equal. lia.
    + rewrite <- seq_shift, List.map_map. apply List.map_ext. intros j. f_equal. lia.
Qed.

(** Timeouts while the budget lasts: the same interest is sent again. *)
Lemma budget_phase (j : nat) :
  ∀ interest nRetrials delegations idx callback ecb s rest,
    face_pending s = [mkPending interest nRetrials delegations idx callback ecb] →
    ((0 < j)%nat → Z.of_nat j <= nRetrials) →
    ∃ s1, answer_in_turn (replicate j RespTimeout ++ rest) s = answer_in_turn rest s1
      ∧ face_pending s1
        = [mkPending interest (nRetrials - Z.of_nat j) delegations idx callback ecb]
      ∧ face_expressed s1 = face_expressed s ++ replicate j interest
      ∧ invoked s1 = invoked s.
Proof.
  induction j as [|j IH]; intros interest nRetrials delegations idx callback ecb s rest
    Hpend Hle.
  - exists s. simpl. rewrite Z.sub_0_r, app_nil_r. done.
  - simpl replicate. rewrite <- app_comm_cons.
    rewrite (answer_in_turn_cons _ _ _ _ Hpend). simpl.
    rewrite handleTimeout_retry by lia.
    destruct (IH interest (nRetrials - 1) delegations idx callback ecb
                 (sent interest (nRetrials - 1) delegations idx callback ecb
                       (set_pending (λ _, []) s)) rest eq_refl)
      as (s1 & Hrun & Hp & He & Hi); [lia|].
    exists s1. split; [done|]. split; [|split; [|done]].
    + rewrite Hp. do 2 f_equal. lia.
    + rewrite He. simpl. by rewrite <- app_assoc.
Qed.

(** C6. A timeout with budget left sends the identical interest again
    with the budget decreased by one; without budget it is handled as a
    NACK. A NACK with delegations at hand sends a copy of the interest,
    with budget 0. If the interest carried no selected delegation, the
    copy has the link attached ([i_link] holds the delegations) and
    delegation 0 selected, and is bound to index 0. If it carried one,
    the copy keeps the link the interest has and selects the next index,
    to which it is bound. Name, exclude and child selector are those of
    the interest in both cases. When no delegation is left (or there is no
    link) the error callback gets [DataRetrievalFailure] and the URI of
    the interest's name. Over a retrieval that only fails, the interest is
    expressed once more for every timeout within the budget, then every
    delegation is tried once, in the order of the indices, each time with
    the link attached, and then the error is reported. *)
Theorem retrieval_failure_policy (s : State) (interest : Interest) (nRetrials : Z)
    (delegations : Link) (delegationIndex : Z) (callback : OnDataValidated)
    (ecb : ErrorCallBack) :
  0 <= delegationIndex → delegationIndex + 1 < 2 ^ 64 →
  Z.of_nat (length delegations) < 2 ^ 64 →
  let failure := EvError ecb DataRetrievalFailure (toUri (i_name interest)) in
  let withLink (j : Z) :=
    mkInterest (i_name interest) (i_exclude interest) (i_childSelector interest)
               (Some delegations) (Some j) in
  let advanced :=
    mkInterest (i_name interest) (i_exclude interest) (i_childSelector interest)
               (i_link interest) (Some (delegationIndex + 1)) in
  (0 < nRetrials →
     handleTimeout interest nRetrials delegations delegationIndex callback ecb s
     = (Ret tt, sent interest (nRetrials - 1) delegations delegationIndex callback ecb s))
  ∧ (nRetrials <= 0 →
     handleTimeout interest nRetrials delegations delegationIndex callback ecb s
     = handleNack interest delegations delegationIndex callback ecb s)
  ∧ (delegations ≠ [] → hasSelectedDelegation interest = false →
     handleNack interest delegations delegationIndex callback ecb s
     = (Ret tt, sent (withLink 0) 0 delegations 0 callback ecb s))
  ∧ (delegations ≠ [] → hasSelectedDelegation interest = true →
     delegationIndex + 1 < Z.of_nat (length delegations) →
     handleNack interest delegations delegationIndex callback ecb s
     = (Ret tt, sent advanced 0 delegations (delegationIndex + 1) callback ecb s))
  ∧ (delegations = []
     ∨ (hasSelectedDelegation interest = true
        ∧ Z.of_nat (length delegations) <= delegationIndex + 1) →
     handleNack interest delegations delegationIndex callback ecb s
     = (Ret tt, set_invoked (λ l, l ++ [failure]) s))
  ∧ (∀ (j : nat) (first : Response) (rest : list Response),
       face_pending s
       = [mkPending interest nRetrials delegations delegationIndex callback ecb] →
       hasSelectedDelegation interest = false → delegations ≠ [] →
       ((0 < j)%nat → Z.of_nat j <= nRetrials) →
       first = RespNack ∨ (first = RespTimeout ∧ nRetrials <= Z.of_nat j) →
       Forall is_failure rest → length rest = length delegations →
       ∃ s', answer_in_turn (replicate j RespTimeout ++ first :: rest) s = (Ret tt, s')
         ∧ face_pending s' = []
         ∧ face_expressed s'
           = face_expressed s ++ replicate j interest
             ++ List.map (λ i, withLink (Z.of_nat i)) (seq 0 (length delegations))
         ∧ invoked s' = invoked s ++ [failure]).
Proof.
  intros H0 Hw HN failure withLink advanced.
  split; [|split; [|split; [|split; [|split]]]].
  - apply handleTimeout_retry.
  - apply handleTimeout_exhausted.
  - intros HL Hsel. by rewrite handleNack_first.
  - intros HL Hsel Hlt. by rewrite handleNack_next.
  - intros [->|[Hsel Hge]]; apply handleNack_out_of_options; [by left|right; done].
  - subst withLink. clear advanced. cbv beta.
    intros j first rest Hpend Hsel HL Hj Hfirst Hrest Hlen.
    destruct (budget_phase j interest nRetrials delegations delegationIndex callback ecb
                s (first :: rest) Hpend Hj) as (s1 & Hrun & Hp1 & He1 & Hi1).
    rewrite Hrun. rewrite (answer_in_turn_cons _ _ _ _ Hp1).
    assert (Hd : dispatch (mkPending interest (nRetrials - Z.of_nat j) delegations
                                     delegationIndex callback ecb)
                          first (set_pending (λ _, []) s1)
                 = (Ret tt, sent (linked delegations interest 0) 0 delegations 0
                                 callback ecb (set_pending (λ _, []) s1))).
    { destruct Hfirst as [->|[-> Hex]]; simpl.
      - by apply handleNack_first.
      - rewrite handleTimeout_exhausted by lia. by apply handleNack_first. }
    rewrite Hd.
    destruct delegations as [|d0 ds] eqn:Hds; [done|]. rewrite <- Hds in *.
    assert (HlenL : length delegations = S (length ds)) by (by rewrite Hds).
    destruct (link_phase (length ds) 0 interest
                (sent (linked delegations interest 0) 0 delegations 0 callback ecb
                      (set_pending (λ _, []) s1))
                rest callback ecb delegations eq_refl)
      as (s' & Hrun' & Hp' & He' & Hi'); try done; try lia.
    exists s'. split; [done|]. split; [done|]. split.
    + rewrite He'. simpl. rewrite He1, HlenL, <- !app_assoc. do 2 f_equal.
      simpl. f_equal.
      rewrite <- seq_shift, List.map_map. apply List.map_ext. intros i.
      unfold linked, setSelectedDelegation, setLink. simpl.
      do 2 f_equal. lia.
    + rewrite Hi'. simpl. by rewrite Hi1.
Qed.


(** C2, on the code. A D-KEY packet with more than two sub-blocks makes
    [decryptDKey] report [InvalidEncryptedFormat] and then go on exactly
    as for the packet made of its first two sub-blocks: the check has no
    [return]. With a single sub-block it reports the error and goes on to
    the nonce: without the consumer key it reports [NoDecryptKey] as
    well, with it it reads past the end of the elements. *)
Theorem decryptDKey_continues_after_format_error (s : State) (dKeyData wellFormed : Data)
    (plainTextCallBack : PlainTextCallBack) (ecb : ErrorCallBack)
    (nonceBlock payloadBlock : Buffer) (extra : list Buffer)
    (encryptedNonce : EncryptedContent) :
  let malformed := EvError ecb InvalidEncryptedFormat
                     "Data packet does not satisfy D-KEY packet format" in
  let reported := set_invoked (λ l, l ++ [malformed]) s in
  (parseElements (d_content dKeyData) = Some (nonceBlock :: payloadBlock :: extra) →
   extra ≠ [] →
   parseElements (d_content wellFormed) = Some [nonceBlock; payloadBlock] →
   decryptDKey dKeyData plainTextCallBack ecb s
   = decryptDKey wellFormed plainTextCallBack ecb reported)
  ∧ (parseElements (d_content dKeyData) = Some [nonceBlock] →
     decodeEncryptedContent nonceBlock = Some encryptedNonce →
     decryptDKey dKeyData plainTextCallBack ecb s
     = if bool_decide (getKey (m_db s) (ec_keyLocator encryptedNonce) = [])
       then (Ret tt, set_invoked
                       (λ l, l ++ [EvError ecb NoDecryptKey
                                     "No desired consumer decryption key in database"])
                       reported)
       else (Throw Undefined, reported)).
Proof.
  intros malformed reported. split.
  - intros Hparse Hextra Hwf. unfold decryptDKey, or_throw. rewrite Hparse, Hwf.
    unfold mbind at 1, M_bind at 1, mret, M_ret. symmetry.
    unfold mbind at 1, M_bind at 1, mret, M_ret. symmetry.
    rewrite bool_decide_true by (destruct extra; [done|simpl; lia]).
    rewrite bool_decide_false by (simpl; lia).
    reflexivity.
  - intros Hparse Hdec. unfold decryptDKey, or_throw. rewrite Hparse.
    unfold mbind at 1, M_bind at 1, mret, M_ret.
    rewrite bool_decide_true by (simpl; lia).
    unfold mbind, M_bind, invoke, modify, getDecryptionKey, get, mret, M_ret. simpl.
    rewrite Hdec. simpl.
    destruct (getKey (m_db s) (ec_keyLocator encryptedNonce)) eqn:Hk.
    + by rewrite bool_decide_true.
    + by rewrite bool_decide_false.
Qed.

End Theory.

End ConsumerTheory.

(** ** The theorems on the scenario *)

Module ProducerScenarioTheory.

Import Producer ProducerTheory ProducerScenario.

Lemma producer1_request : m_keyRequests producer1 !! timeCount 600000 = Some request1.
Proof. by vm_compute. Qed.

Lemma producer1_null_request :
  m_keyRequests producer1_null !! timeCount 600000 = Some request1.
Proof. by vm_compute. Qed.

Lemma producer1_pending : face_pending producer1 = [pending1].
Proof. by vm_compute. Qed.

Lemma producer1_reachable : reachable producer1.
Proof.
  exists producer0. split; [apply Producer_new_initial|].
  apply rtc_once.
  eapply (step_createContentKey producer0 600000 (Some 7%nat) 9%nat ["1"%byte]).
  - unfold int64. lia.
  - apply surjective_pairing.
  - by vm_compute.
Qed.

Lemma linkProducer2_reachable : reachable linkProducer2.
Proof.
  exists linkProducer0. split; [apply Producer_new_initial|].
  eapply rtc_l; [|apply rtc_once].
  - eapply (step_createContentKey linkProducer0 600000 (Some 7%nat) 9%nat ["1"%byte]).
    + unfold int64. lia.
    + apply surjective_pairing.
    + by vm_compute.
  - eapply (step_face linkProducer1 [] pending1 [] RespNack).
    + by vm_compute.
    + apply surjective_pairing.
    + by vm_compute.
Qed.

Lemma linkProducer2_pending :
  face_pending linkProducer2 = [mkPending interest1_linked 0 600000 (Some 7%nat) 9%nat].
Proof. by vm_compute. Qed.

Lemma linkProducer2_request :
  m_keyRequests (set_pending (λ _, []) linkProducer2) !! timeCount 600000 = Some request1.
Proof. by vm_compute. Qed.

(** C10 on [producer1]: the request of the pending interest is there. *)
Lemma keyRequest_lookup_never_fails_witness :
  reachable producer1
  ∧ ∀ p, p ∈ face_pending producer1 →
         is_Some (m_keyRequests producer1 !! timeCount (pi_timeslot p)).
Proof.
  split; [exact producer1_reachable|].
  exact (proj1 (keyRequest_lookup_never_fails producer1 producer1_reachable)).
Defined.

(** C1 on [producer1]: wrapping under the empty key fails. *)
Lemma encryptContentKey_failure_witness :
  encryptContentKey [] eKeyNode 600000 (Some 7%nat) 9%nat producer1
  = (Ret false,
     set_invoked (λ l, l ++ [EvError (timeCount 600000) 9%nat EncryptionFailure "empty key"])
                 producer1).
Proof.
  exact (proj1 (encryptContentKey_failure producer1 [] eKeyNode 600000 (Some 7%nat) 9%nat
                  request1 ["1"%byte] "empty key"%string producer1_request eq_refl eq_refl)).
Defined.

(** C3 on [producer1]: the only wrap succeeds, the request completes. *)
Lemma successful_wrap_updates_request_witness :
  invoked (encryptContentKey ["2"%byte] eKeyNode 600000 (Some 7%nat) 9%nat producer1).2
  = [EvKeys (timeCount 600000) 7%nat
            [mkData ["p"; "SAMPLE"; "x"; "C-KEY"; "19700101T000000"]%string
                    ["1"%byte; "2"%byte]]]
  ∧ m_keyRequests (encryptContentKey ["2"%byte] eKeyNode 600000 (Some 7%nat) 9%nat
                                     producer1).2
    = delete (timeCount 600000) (m_keyRequests producer1).
Proof.
  pose proof (successful_wrap_updates_request producer1 ["2"%byte] eKeyNode 600000
                (Some 7%nat) 9%nat request1 ["1"%byte] ["1"%byte; "2"%byte]
                producer1_request eq_refl eq_refl) as Hwrap.
  exact (proj1 (proj2 (proj2 Hwrap))).
Defined.

(** The claim C3 as the specification has it does not hold of the null
    callback: after the successful wrap that brings the counter to zero,
    nothing has been invoked and the request is still in
    [m_keyRequests]. *)
Lemma null_callback_is_not_invoked :
  ¬ (∀ (s : State) (encryptionKey : Buffer) (eKeyName : Name) (timeslot : TimePoint)
       (cb : option nat) (ecb : nat) (kr : KeyRequest) (contentKey blob : Buffer),
       m_keyRequests s !! timeCount timeslot = Some kr →
       getContentKey (m_db s) timeslot = Some contentKey →
       encryptData AlgorithmRsaOaep contentKey eKeyName encryptionKey = inr blob →
       interestCount kr = 1 →
       let s' := (encryptContentKey encryptionKey eKeyName timeslot cb ecb s).2 in
       (∃ c keys, invoked s' = invoked s ++ [EvKeys (timeCount timeslot) c keys])
       ∧ m_keyRequests s' !! timeCount timeslot = None).
Proof.
  intros Hclaim.
  destruct (Hclaim producer1_null ["2"%byte] eKeyNode 600000 None 9%nat request1
              ["1"%byte] ["1"%byte; "2"%byte] producer1_null_request eq_refl eq_refl eq_refl)
    as [_ Herased].
  by vm_compute in Herased.
Qed.

(** C9 on [producer1]: 00:11:40 lies in the hour whose key is stored. *)
Lemma createContentKey_known_timeslot_witness :
  hasContentKey (m_db producer1) 700000 = true
  ∧ createContentKey 700000 (Some 8%nat) 9%nat ["3"%byte] producer1
    = (Ret (m_namespace producer1
            ++ [NAME_COMPONENT_C_KEY; toIsoString (getRoundedTimeslot 700000)]), producer1).
Proof.
  split; [by vm_compute|].
  apply (createContentKey_known_timeslot producer1 700000).
  by vm_compute.
Defined.

(** C4 on [producer0]: its only node does not cover 00:10:00. *)
Lemma createContentKey_interest_iff_uncovered_witness :
  hasContentKey (m_db producer0) 600000 = false
  ∧ m_keyRequests producer0 !! timeCount 600000 = None
  ∧ (createContentKey 600000 (Some 7%nat) 9%nat ["1"%byte] producer0).1
    = Ret ["p"; "SAMPLE"; "x"; "C-KEY"; "19700101T000000"]%string.
Proof.
  split; [by vm_compute|]. split; [by vm_compute|].
  exact (proj1 (createContentKey_interest_iff_uncovered producer0 600000 (Some 7%nat) 9%nat
                  ["1"%byte] eq_refl eq_refl)).
Defined.

(** C5 on [producer1]: the stale key makes the producer ask again. *)
Lemma handleCoveringKey_stale_or_covering_witness :
  face_pending (handleCoveringKey interest1 staleKey 0 600000 (Some 7%nat) 9%nat producer1).2
  = face_pending producer1
    ++ [mkPending (mkInterest eKeyNode
                              [ExcludedAfter "19700101T001000"%string;
                               ExcludedBefore "19700101T000000"%string]
                              (Some 1) None None)
                  0 600000 (Some 7%nat) 9%nat].
Proof.
  pose proof (handleCoveringKey_stale_or_covering producer1 interest1 staleKey 0 600000
                (Some 7%nat) 9%nat request1
                "19700101T000000"%string "19700101T000000"%string 0 0
                producer1_request eq_refl eq_refl eq_refl eq_refl) as [Hstale _].
  exact (proj1 (proj2 (proj2 (Hstale ltac:(lia))))).
Defined.

(** The claim C5 as the specification has it does not hold of the
    interest that [linkProducer2] has pending, which carries the link and
    a selected delegation: when the stale key answers it, what is
    expressed is not that interest with its exclude extended, but a new
    one without the link. *)
Lemma stale_key_reissue_drops_link :
  ¬ (∀ (s : State) (interest : Interest) (data : Data) (delegationIndex timeslot : Z)
       (cb : option nat) (ecb : nat) (kr : KeyRequest) (startComponent endComponent : string)
       (begin end_ : Z),
       m_keyRequests s !! timeCount timeslot = Some kr →
       name_get (d_name data) (-2) = Some startComponent →
       name_get (d_name data) (-1) = Some endComponent →
       fromIsoString startComponent = Some begin →
       fromIsoString endComponent = Some end_ →
       end_ <= timeslot →
       face_pending (handleCoveringKey interest data delegationIndex timeslot cb ecb s).2
       = face_pending s
         ++ [mkPending (setExclude (excludeBefore startComponent (i_exclude interest)) interest)
                       delegationIndex timeslot cb ecb]).
Proof.
  intros Hclaim.
  specialize (Hclaim (set_pending (λ _, []) linkProducer2) interest1_linked staleKey 0 600000
                (Some 7%nat) 9%nat request1
                "19700101T000000"%string "19700101T000000"%string 0 0
                linkProducer2_request eq_refl eq_refl eq_refl eq_refl ltac:(lia)).
  vm_compute in Hclaim. discriminate Hclaim.
Qed.

End ProducerScenarioTheory.

Module ConsumerScenarioTheory.

Import Consumer ConsumerTheory ConsumerScenario.

Lemma consumer1_pending :
  face_pending consumer1
  = [mkPending contentInterest 1 twoHops 0 (OnValidContent 5%nat 6%nat) 6%nat].
Proof. reflexivity. Qed.

(** C6 on [consumer1]: one timeout within the budget, one beyond it, then
    each of the two delegations fails once. *)
Lemma retrieval_failure_policy_witness :
  ∃ s', answer_in_turn [RespTimeout; RespTimeout; RespNack; RespTimeout] consumer1
        = (Ret tt, s')
    ∧ face_pending s' = []
    ∧ face_expressed s'
      = [contentInterest; contentInterest;
         mkInterest ["p"; "SAMPLE"; "x"; "19700101T001000"]%string [] None
                    (Some twoHops) (Some 0);
         mkInterest ["p"; "SAMPLE"; "x"; "19700101T001000"]%string [] None
                    (Some twoHops) (Some 1)]
    ∧ invoked s'
      = [EvError 6%nat DataRetrievalFailure "/p/SAMPLE/x/19700101T001000"].
Proof.
  pose proof (retrieval_failure_policy consumer1 contentInterest 1 twoHops 0
                (OnValidContent 5%nat 6%nat) 6%nat
                ltac:(lia) ltac:(lia) ltac:(simpl; lia)) as Hpolicy.
  destruct Hpolicy as (_ & _ & _ & _ & _ & Hrun).
  assert (Hlink : twoHops ≠ []) by discriminate.
  assert (Hbudget : (0 < 1)%nat → Z.of_nat 1 <= 1) by (intros _; simpl; lia).
  assert (Hfirst : RespTimeout = RespNack ∨ (RespTimeout = RespTimeout ∧ 1 <= Z.of_nat 1))
    by (right; split; [reflexivity|simpl; lia]).
  assert (Hrest : Forall is_failure [RespNack; RespTimeout]) by (repeat constructor).
  exact (Hrun 1%nat RespTimeout [RespNack; RespTimeout] consumer1_pending eq_refl
              Hlink Hbudget Hfirst Hrest eq_refl).
Defined.


(** C2 on [consumer0]: the packet with three sub-blocks is handled as
    the one with two, after the error was reported. *)
Lemma decryptDKey_continues_after_format_error_witness :
  decryptDKey dKeyPacket3 (OnPlainContent dKeyPacket3 5%nat) 6%nat consumer0
  = decryptDKey dKeyPacket2 (OnPlainContent dKeyPacket3 5%nat) 6%nat
                (set_invoked
                   (λ l, l ++ [EvError 6%nat InvalidEncryptedFormat
                                 "Data packet does not satisfy D-KEY packet format"])
                   consumer0).
Proof.
  pose proof (decryptDKey_continues_after_format_error consumer0 dKeyPacket3 dKeyPacket2
                (OnPlainContent dKeyPacket3 5%nat) 6%nat
                ["N"%byte] ["P"%byte] [["X"%byte]]
                (mkEncryptedContent AlgorithmRsaOaep ["c"; "k"]%string [] ["n"%byte]))
    as [Hmore _].
  exact (Hmore eq_refl ltac:(discriminate) eq_refl).
Defined.

(** What the user sees for the packet with three sub-blocks: the format
    error, and then the decrypted D-KEY all the same. *)
Lemma decryptDKey_three_blocks :
  invoked (decryptDKey dKeyPacket3 (OnPlainContent dKeyPacket3 5%nat) 6%nat consumer0).2
  = [EvError 6%nat InvalidEncryptedFormat "Data packet does not satisfy D-KEY packet format";
     EvConsumed 5%nat dKeyPacket3 ["d"; "n"; "K"]%byte].
Proof. by vm_compute. Qed.

End ConsumerScenarioTheory.

(** ** The producer: construction, footprints and runs *)

Module ProducerLifecycle.

Import Producer ProducerTheory.

Section Theory.

Context {library : Library}.

Ltac run_monad :=
  unfold mbind, M_bind, mret, M_ret, get, modify, throw, invoke,
    keyRequest_at, keyRequest_update, sendKeyInterest in *.

(** *** Footprints *)

Ltac effect_same :=
  solve [ intros ?; by left
        | exists []; split; [by rewrite app_nil_r|by constructor]
        | exists []; split; [by rewrite app_nil_r|]; split; [by constructor|];
          intros ? ?; by constructor
        | eexists; split; [done|]; by apply Forall_singleton
        | eexists; split; [done|]; split; [by apply Forall_singleton|];
          intros ? ?; by apply Forall_singleton ].

Lemma effect_refl t cb ecb node s : effect t cb ecb node s s.
Proof.
  split; try done; effect_same.
Qed.

Lemma effect_trans t cb ecb node s1 s2 s3 :
  effect t cb ecb node s1 s2 → effect t cb ecb node s2 s3 → effect t cb ecb node s1 s3.
Proof.
  intros [Hc1 Hd1 Ho1 Hk1 Hn1 He1 (n1 & Hp1 & Hf1) Hq1 (e1 & Hi1 & Hg1 & Hw1)]
         [Hc2 Hd2 Ho2 Hk2 Hn2 He2 (n2 & Hp2 & Hf2) Hq2 (e2 & Hi2 & Hg2 & Hw2)].
  split.
  - congruence.
  - congruence.
  - intros tc Hne. rewrite Ho2, Ho1; done.
  - auto.
  - auto.
  - intros k. destruct (He2 k) as [E2|?]; [|by right].
    destruct (He1 k) as [E1|[? ?]]; [left; congruence|right]. split; [done|]. by rewrite E2.
  - exists (n1 ++ n2). split; [by rewrite Hp2, Hp1, app_assoc|]. by apply Forall_app.
  - auto.
  - exists (e1 ++ e2). split; [by rewrite Hi2, Hi1, app_assoc|].
    split; [by apply Forall_app|]. intros n Hn. apply Forall_app. auto.
Qed.

Lemma effect_weaken t cb ecb (node1 node2 : Name → Prop) s s' :
  (∀ k, node1 k → node2 k) → effect t cb ecb node1 s s' → effect t cb ecb node2 s s'.
Proof.
  intros Hn [Hc Hd Ho Hk Hnn He (n & Hp & Hf) Hq Hi]. split; try done.
  - intros k. destruct (He k) as [?|[? ?]]; [by left|right; auto].
  - exists n. split; [done|]. eapply Forall_impl; [exact Hf|].
    intros p (? & ? & ? & ?). repeat split; auto.
Qed.

Lemma footprint_ret {A} t cb ecb node (a : A) : footprint t cb ecb node (mret a).
Proof. intros s r s' [= <- <-]. apply effect_refl. Qed.

Lemma footprint_throw {A} t cb ecb node (e : Fault) : footprint t cb ecb node (@throw A e).
Proof. intros s r s' [= <- <-]. apply effect_refl. Qed.

Lemma footprint_get t cb ecb node : footprint t cb ecb node get.
Proof. intros s r s' [= <- <-]. apply effect_refl. Qed.

Lemma footprint_bind {A B} t cb ecb node (m : M A) (f : A → M B) :
  footprint t cb ecb node m → (∀ a, footprint t cb ecb node (f a)) →
  footprint t cb ecb node (m ≫= f).
Proof.
  intros Hm Hf s r s'. unfold mbind, M_bind.
  destruct (m s) as [[a|e] s1] eqn:E; apply Hm in E.
  - intros H. apply Hf in H. by eapply effect_trans.
  - by intros [= <- <-].
Qed.

Lemma footprint_keyRequest_at t cb ecb node tc : footprint t cb ecb node (keyRequest_at tc).
Proof.
  intros s r s'. unfold keyRequest_at.
  destruct (_ !! _); intros [= <- <-]; apply effect_refl.
Qed.

Lemma footprint_keyRequest_update t cb ecb node f :
  (∀ kr, potential (Some (f kr)) <= potential (Some kr)) →
  footprint t cb ecb node (keyRequest_update (timeCount t) f).
Proof.
  intros Hf s r s'. unfold keyRequest_update.
  destruct (m_keyRequests s !! timeCount t) as [kr|] eqn:E; intros [= <- <-];
    [|apply effect_refl].
  split; simpl; try done; try effect_same.
  - intros tc Hne. by rewrite lookup_insert_ne.
  - intros _ _. rewrite lookup_insert_eq. by eexists.
  - intros n. rewrite E, lookup_insert_eq. specialize (Hf kr). lia.
Qed.

Lemma potential_set_repeatAttempts name v kr :
  potential (Some (set_repeatAttempts name v kr)) <= potential (Some kr).
Proof. simpl. lia. Qed.

Lemma potential_decr_interestCount kr :
  potential (Some (decr_interestCount kr)) <= potential (Some kr).
Proof. simpl. lia. Qed.

Lemma footprint_sendKeyInterest t cb ecb (node : Name → Prop) interest idx :
  node (i_name interest) → footprint t cb ecb node (sendKeyInterest interest idx t cb ecb).
Proof.
  intros Hn s r s' [= <- <-]. split; simpl; try done; effect_same.
Qed.

Lemma footprint_invoke_failure t cb ecb node what :
  footprint t cb ecb node (invoke (EvError (timeCount t) ecb EncryptionFailure what)).
Proof.
  intros s r s' [= <- <-]. split; simpl; try done; effect_same.
Qed.

Lemma footprint_updateKeyRequest t cb ecb node :
  footprint t cb ecb node (updateKeyRequest (timeCount t) cb).
Proof.
  intros s r s'.
  destruct (m_keyRequests s !! timeCount t) as [kr|] eqn:E.
  2:{ unfold updateKeyRequest, keyRequest_update, mbind, M_bind. rewrite E.
      intros [= <- <-]. apply effect_refl. }
  rewrite (updateKeyRequest_eq _ _ _ _ E). intros [= <- <-].
  assert (Hdecr : effect t cb ecb node s
                    (set_keyRequests <[timeCount t := decr_interestCount kr]> s)).
  { split; simpl; try done; try effect_same.
    - intros tc Hne. by rewrite lookup_insert_ne.
    - intros _ _. rewrite lookup_insert_eq. by eexists.
    - intros n. rewrite E, lookup_insert_eq. simpl. lia. }
  destruct cb as [c|]; [|exact Hdecr]. simpl.
  destruct (interestCount kr - 1 =? 0) eqn:Hz; [|exact Hdecr].
  apply Z.eqb_eq in Hz.
  split; simpl; try done; try effect_same.
  - intros tc Hne. by rewrite lookup_delete_ne, lookup_insert_ne.
  - intros n. rewrite E, lookup_delete_eq. simpl. lia.
  - eexists. split; [done|]. split; [by apply Forall_singleton|].
    intros n. rewrite E. simpl. intros Hn. apply Forall_singleton. simpl. lia.
Qed.

(** A wrapped key joins the request and is counted at once. *)
Lemma footprint_push_update {A} t cb ecb node d (f : unit → M A) :
  (∀ a, footprint t cb ecb node (f a)) →
  footprint t cb ecb node
    (keyRequest_update (timeCount t) (push_encryptedKey d) ≫= λ _,
     updateKeyRequest (timeCount t) cb ≫= f).
Proof.
  intros Hf s r s'. unfold mbind at 1, M_bind at 1, keyRequest_update.
  destruct (m_keyRequests s !! timeCount t) as [kr|] eqn:E.
  2:{ intros [= <- <-]. apply effect_refl. }
  unfold mbind, M_bind.
  rewrite (updateKeyRequest_eq _ _ _ (push_encryptedKey d kr)).
  2:{ simpl. apply lookup_insert_eq. }
  match goal with |- context [f tt ?s2] => set (s1 := s2) end.
  assert (H1 : effect t cb ecb node s s1).
  { subst s1. destruct cb as [c|]; simpl.
    - destruct (interestCount kr - 1 =? 0) eqn:Hz.
      + apply Z.eqb_eq in Hz. split; simpl; try done; try effect_same.
        * intros tc Hne. by rewrite lookup_delete_ne, !lookup_insert_ne.
        * intros n. rewrite E, lookup_delete_eq. simpl. lia.
        * eexists. split; [done|]. split; [by apply Forall_singleton|].
          intros n. rewrite E. simpl. intros Hn. apply Forall_singleton. simpl.
          rewrite length_app. simpl. lia.
      + split; simpl; try done; try effect_same.
        * intros tc Hne. by rewrite !lookup_insert_ne.
        * intros n. rewrite E, lookup_insert_eq. simpl. rewrite length_app. simpl. lia.
    - split; simpl; try done; try effect_same.
      + intros tc Hne. by rewrite !lookup_insert_ne.
      + intros _ _. rewrite lookup_insert_eq. by eexists.
      + intros n. rewrite E, lookup_insert_eq. simpl. rewrite length_app. simpl. lia. }
  destruct (f tt s1) as [r2 s2] eqn:Hfs. apply Hf in Hfs.
  intros [= <- <-]. by eapply effect_trans.
Qed.

Lemma footprint_set_ekeyInfo t cb ecb (node : Name → Prop) k info :
  node k → footprint t cb ecb node (modify (set_ekeyInfo <[k := info]>)).
Proof.
  intros Hn s r s' [= <- <-]. split; simpl; try done; try effect_same.
  intros k'. rewrite lookup_insert. case_decide; [right|by left].
  subst. split; [done|by eexists].
Qed.

Ltac footprint_step :=
  first
    [ apply footprint_ret
    | apply footprint_throw
    | apply footprint_get
    | apply footprint_keyRequest_at
    | apply footprint_push_update; intros ?
    | apply footprint_keyRequest_update; intros ?; simpl; lia
    | apply footprint_updateKeyRequest
    | apply footprint_invoke_failure
    | apply footprint_sendKeyInterest; done
    | apply footprint_set_ekeyInfo; done
    | apply footprint_bind; [|intros ?]
    | match goal with
      | |- footprint _ _ _ _ (match ?x with _ => _ end) => destruct x
      | |- footprint _ _ _ _ (if ?b then _ else _) => destruct b
      end ].

Lemma footprint_encryptContentKey t cb ecb node encryptionKey eKeyName :
  footprint t cb ecb node (encryptContentKey encryptionKey eKeyName t cb ecb).
Proof. unfold encryptContentKey. cbv zeta. repeat footprint_step. Qed.

Lemma footprint_handleNack t cb ecb interest idx :
  footprint t cb ecb (eq (i_name interest)) (handleNack interest idx t cb ecb).
Proof. unfold handleNack. cbv zeta. repeat footprint_step. Qed.

Lemma footprint_handleTimeout t cb ecb interest idx :
  footprint t cb ecb (eq (i_name interest)) (handleTimeout interest idx t cb ecb).
Proof.
  unfold handleTimeout. cbv zeta.
  repeat first [apply footprint_handleNack | footprint_step].
Qed.

Lemma footprint_handleCoveringKey t cb ecb interest data idx :
  footprint t cb ecb (eq (i_name interest)) (handleCoveringKey interest data idx t cb ecb).
Proof.
  unfold handleCoveringKey. cbv zeta.
  repeat first [apply footprint_encryptContentKey | footprint_step].
Qed.

Lemma footprint_dispatch p resp :
  footprint (pi_timeslot p) (pi_callback p) (pi_errorCallback p)
            (eq (i_name (pi_interest p))) (dispatch p resp).
Proof.
  destruct resp; simpl.
  - apply footprint_handleCoveringKey.
  - apply footprint_handleNack.
  - apply footprint_handleTimeout.
Qed.

Lemma footprint_createContentKey_body t cb ecb it :
  footprint t cb ecb (eq it.1) (createContentKey_body t cb ecb it).
Proof.
  unfold createContentKey_body. cbv zeta.
  repeat first [apply footprint_encryptContentKey | footprint_step].
Qed.

Lemma footprint_for_each t cb ecb (node : Name → Prop) (l : list (Name * KeyInfo)) :
  (∀ it, it ∈ l → node it.1) →
  footprint t cb ecb node (for_each (createContentKey_body t cb ecb) l).
Proof.
  induction l as [|it l IH]; intros Hl; simpl.
  - apply footprint_ret.
  - apply footprint_bind.
    + intros s r s' H. apply footprint_createContentKey_body in H.
      eapply effect_weaken; [|exact H]. intros k <-. apply Hl. by left.
    + intros _. apply IH. intros it' Hin. apply Hl. by right.
Qed.

Lemma createContentKey_effect t cb ecb bits s r s' :
  createContentKey t cb ecb bits s = (r, s') →
  (hasContentKey (m_db s) t = true ∧ s' = s)
  ∨ (hasContentKey (m_db s) t = false
     ∧ effect t cb ecb (λ k, is_Some (m_ekeyInfo s !! k)) (opened t bits s) s').
Proof.
  unfold createContentKey.
  change (get ≫= ?f) with (λ s0 : State, f s0 s0). cbv beta.
  destruct (hasContentKey (m_db s) t) eqn:Hhas.
  { intros [= <- <-]. by left. }
  right. split; [done|]. revert H. unfold mbind, M_bind, modify. fold (opened t bits s).
  destruct (for_each _ _ (opened t bits s)) as [r1 s1] eqn:Hloop.
  apply footprint_for_each with (node := λ k, is_Some (m_ekeyInfo s !! k)) in Hloop.
  2:{ intros [k info] Hin%elem_of_map_to_list. by eexists. }
  by destruct r1; intros [= <- <-].
Qed.

Lemma produce_state t content ecb bits s :
  (produce t content ecb bits s).2 = (createContentKey t None ecb bits s).2.
Proof.
  unfold produce. unfold mbind at 1, M_bind at 1.
  destruct (createContentKey t None ecb bits s) as [[n|f] s1]; [|done].
  unfold mbind, M_bind, get, throw, mret, M_ret. simpl.
  destruct (getContentKey _ _); [|done]. by destruct (encryptData _ _ _ _).
Qed.

Lemma opened_db t bits s :
  hasContentKey (m_db s) t = false → m_db s ⊆ m_db (opened t bits s).
Proof.
  unfold hasContentKey. intros Hhas%bool_decide_eq_false. simpl. unfold addContentKey.
  apply insert_subseteq. destruct (m_db s !! floorHour t) eqn:E; [|done].
  destruct Hhas. by eexists.
Qed.

(** What a step of the producer leaves alone. *)
Lemma step_frame s s' :
  step s s' →
  configuration s' = configuration s
  ∧ m_db s ⊆ m_db s'
  ∧ (∀ k, is_Some (m_ekeyInfo s !! k) → is_Some (m_ekeyInfo s' !! k))
  ∧ ∃ evs, invoked s' = invoked s ++ evs
           ∧ Forall (λ e, ∃ t cb ecb, event_for t cb ecb e) evs.
Proof.
  assert (Hcreate : ∀ t cb ecb bits s r s', createContentKey t cb ecb bits s = (r, s') →
    configuration s' = configuration s
    ∧ m_db s ⊆ m_db s'
    ∧ (∀ k, is_Some (m_ekeyInfo s !! k) → is_Some (m_ekeyInfo s' !! k))
    ∧ ∃ evs, invoked s' = invoked s ++ evs
             ∧ Forall (λ e, ∃ t cb ecb, event_for t cb ecb e) evs).
  { intros t cb ecb bits s0 r s1 [[_ ->]|[Hhas He]]%createContentKey_effect.
    - repeat split; try done. exists []. by rewrite app_nil_r.
    - destruct He as [Hc Hd _ _ _ Hk _ _ (evs & Hi & Hf & _)]. repeat split.
      + by rewrite Hc.
      + rewrite Hd. by apply opened_db.
      + intros k Hs. destruct (Hk k) as [->|[_ ?]]; done.
      + exists evs. split; [done|]. eapply Forall_impl; [exact Hf|].
        intros e He. by exists t, cb, ecb. }
  intros [s0 t cb ecb bits r s1 _ Hc _
    | s0 t content ecb bits r s1 _ Hp _ | s0 l1 p l2 resp r s1 Hpend Hd _].
  - by eapply Hcreate.
  - pose proof (produce_state t content ecb bits s0) as Hs. rewrite Hp in Hs. simpl in Hs.
    destruct (createContentKey t None ecb bits s0) as [r2 s2] eqn:Hc. simpl in Hs. subst s2.
    by eapply Hcreate.
  - apply footprint_dispatch in Hd as [Hc Hdb _ _ _ Hk _ _ (evs & Hi & Hf & _)]. repeat split.
    + by rewrite Hc.
    + by rewrite Hdb.
    + intros k Hs. destruct (Hk k) as [->|[_ ?]]; done.
    + exists evs. split; [done|]. eapply Forall_impl; [exact Hf|].
      intros e He. by eexists _, _, _.
Qed.

Lemma steps_frame s s' :
  rtc step s s' →
  configuration s' = configuration s
  ∧ m_db s ⊆ m_db s'
  ∧ (∀ k, is_Some (m_ekeyInfo s !! k) → is_Some (m_ekeyInfo s' !! k))
  ∧ ∃ evs, invoked s' = invoked s ++ evs
           ∧ Forall (λ e, ∃ t cb ecb, event_for t cb ecb e) evs.
Proof.
  induction 1 as [s|s1 s2 s3 Hstep _ (Hc & Hd & Hk & evs & Hi & Hf)].
  - repeat split; try done. exists []. by rewrite app_nil_r.
  - apply step_frame in Hstep as (Hc1 & Hd1 & Hk1 & evs1 & Hi1 & Hf1). repeat split.
    + congruence.
    + by etrans.
    + auto.
    + exists (evs1 ++ evs). split; [by rewrite Hi, Hi1, app_assoc|]. by apply Forall_app.
Qed.

(** The nodes of [m_ekeyInfo] and the interests pending for them. *)
Lemma step_nodes s s' :
  step s s' → pending_nodes s →
  (∀ k, is_Some (m_ekeyInfo s' !! k) ↔ is_Some (m_ekeyInfo s !! k)) ∧ pending_nodes s'.
Proof.
  assert (Huse : ∀ t cb ecb (node : Name → Prop) s0 s1 s,
    effect t cb ecb node s0 s1 →
    m_ekeyInfo s0 = m_ekeyInfo s →
    (∀ k, node k → is_Some (m_ekeyInfo s !! k)) →
    (∀ p, p ∈ face_pending s0 → is_Some (m_ekeyInfo s !! i_name (pi_interest p))) →
    (∀ k, is_Some (m_ekeyInfo s1 !! k) ↔ is_Some (m_ekeyInfo s !! k)) ∧ pending_nodes s1).
  { clear s s'. intros t cb ecb node s0 s1 s [_ _ _ _ _ Hk (news & Hp & Hf) _ _] He Hnode Hpend.
    assert (Hdom : ∀ k, is_Some (m_ekeyInfo s1 !! k) ↔ is_Some (m_ekeyInfo s !! k)).
    { intros k. destruct (Hk k) as [->|[Hn Hs]]; [by rewrite He|]. split; auto. }
    split; [done|]. intros p. rewrite Hp, elem_of_app. intros [Hin|Hin]; apply Hdom.
    - by apply Hpend.
    - rewrite Forall_forall in Hf. destruct (Hf p Hin) as (_ & _ & _ & Hn). by apply Hnode. }
  assert (Hcreate : ∀ t cb ecb bits s r s', createContentKey t cb ecb bits s = (r, s') →
    pending_nodes s →
    (∀ k, is_Some (m_ekeyInfo s' !! k) ↔ is_Some (m_ekeyInfo s !! k)) ∧ pending_nodes s').
  { intros t cb ecb bits s0 r s1 [[_ ->]|[Hhas He]]%createContentKey_effect Hpn; [done|].
    eapply Huse; [exact He|done|done|]. intros p Hp. by apply Hpn. }
  intros [s0 t cb ecb bits r s1 _ Hc _
    | s0 t content ecb bits r s1 _ Hp _ | s0 l1 p l2 resp r s1 Hpend Hd _] Hpn.
  - by eapply Hcreate.
  - pose proof (produce_state t content ecb bits s0) as Hs. rewrite Hp in Hs. simpl in Hs.
    destruct (createContentKey t None ecb bits s0) as [r2 s2] eqn:Hc. simpl in Hs. subst s2.
    by eapply Hcreate.
  - apply footprint_dispatch in Hd.
    eapply Huse; [exact Hd|done| |].
    + intros k <-. apply Hpn. rewrite Hpend, elem_of_app, elem_of_cons. tauto.
    + intros q Hq. apply Hpn. simpl in Hq. rewrite Hpend. rewrite elem_of_app in Hq.
      rewrite elem_of_app, elem_of_cons. tauto.
Qed.

Lemma steps_nodes s s' :
  rtc step s s' → pending_nodes s →
  (∀ k, is_Some (m_ekeyInfo s' !! k) ↔ is_Some (m_ekeyInfo s !! k)) ∧ pending_nodes s'.
Proof.
  induction 1 as [s|s1 s2 s3 Hstep _ IH]; intros Hpn; [done|].
  destruct (step_nodes _ _ Hstep Hpn) as [Hd Hpn2].
  destruct (IH Hpn2) as [Hd3 Hpn3]. split; [|done].
  intros k. by rewrite Hd3.
Qed.

(** One key per node at most. *)
Lemma step_within_nodes n s s' :
  step s s' → n = Z.of_nat (size (m_ekeyInfo s)) → within_nodes n s → within_nodes n s'.
Proof.
  assert (Huse : ∀ t cb ecb (node : Name → Prop) s0 s1,
    effect t cb ecb node s0 s1 →
    (∀ tc, potential (m_keyRequests s0 !! tc) <= n) →
    Forall (keys_within n) (invoked s0) →
    within_nodes n s1).
  { intros t cb ecb node s0 s1 [_ _ Ho _ _ _ _ Hq (evs & Hi & _ & Hw)] Hpot Hev. split.
    - intros tc. destruct (decide (tc = timeCount t)) as [->|Hne]; [by apply Hq|].
      by rewrite Ho.
    - rewrite Hi. apply Forall_app. split; [done|]. by apply Hw. }
  assert (Hcreate : ∀ t cb ecb bits s0 r s1, createContentKey t cb ecb bits s0 = (r, s1) →
    n = Z.of_nat (size (m_ekeyInfo s0)) → within_nodes n s0 → within_nodes n s1).
  { intros t cb ecb bits s0 r s1 [[_ ->]|[Hhas He]]%createContentKey_effect Hn [Hpot Hev];
      [done|].
    eapply Huse; [exact He| |done].
    intros tc. simpl. unfold keyRequests_insert.
    destruct (m_keyRequests s0 !! timeCount t) eqn:E; [apply Hpot|].
    rewrite lookup_insert. case_decide; [|apply Hpot]. simpl. lia. }
  intros [s0 t cb ecb bits r s1 _ Hc _
    | s0 t content ecb bits r s1 _ Hp _ | s0 l1 p l2 resp r s1 Hpend Hd _] Hn Hw.
  - by eapply Hcreate.
  - pose proof (produce_state t content ecb bits s0) as Hs. rewrite Hp in Hs. simpl in Hs.
    destruct (createContentKey t None ecb bits s0) as [r2 s2] eqn:Hc. simpl in Hs. subst s2.
    by eapply Hcreate.
  - apply footprint_dispatch in Hd. destruct Hw as [Hpot Hev].
    eapply Huse; [exact Hd|exact Hpot|exact Hev].
Qed.

(** The request of a [produce] stays. *)
Lemma step_null_request tc s s' :
  step s s' → Inv s → null_request tc s → null_request tc s'.
Proof.
  assert (Hcreate : ∀ t cb ecb bits s r s', createContentKey t cb ecb bits s = (r, s') →
    int64 t → Inv s → null_request tc s → null_request tc s').
  { intros t cb ecb bits s0 r s1 [[_ ->]|[Hhas He]]%createContentKey_effect Ht HI [Hreq Hnull];
      [done|].
    assert (Hne : tc ≠ timeCount t).
    { intros ->. destruct (inv_db _ _ _ _ _ _ HI (timeCount t)) as (t' & Ht' & Heq & Hrow);
        [by left|].
      apply timeCount_inj in Heq; [|done..]. subst t'.
      unfold hasContentKey in Hhas. by apply bool_decide_eq_false in Hhas. }
    destruct He as [_ _ Ho _ _ _ (news & Hp & Hf) _ _]. split.
    - rewrite Ho by done. simpl. unfold keyRequests_insert.
      destruct (m_keyRequests s0 !! timeCount t); [done|]. by rewrite lookup_insert_ne.
    - intros p. rewrite Hp, elem_of_app. simpl. intros [Hin|Hin] Htc; [by apply Hnull|].
      rewrite Forall_forall in Hf. destruct (Hf p Hin) as (Hpt & _). congruence. }
  intros [s0 t cb ecb bits r s1 Ht Hc _
    | s0 t content ecb bits r s1 Ht Hp _ | s0 l1 p l2 resp r s1 Hpend Hd _] HI Hn.
  - by eapply Hcreate.
  - pose proof (produce_state t content ecb bits s0) as Hs. rewrite Hp in Hs. simpl in Hs.
    destruct (createContentKey t None ecb bits s0) as [r2 s2] eqn:Hc. simpl in Hs. subst s2.
    by eapply Hcreate.
  - destruct Hn as [Hreq Hnull].
    assert (Hin : p ∈ face_pending s0) by (rewrite Hpend, elem_of_app, elem_of_cons; tauto).
    apply footprint_dispatch in Hd as [_ _ Ho Hk _ _ (news & Hp & Hf) _ _]. simpl in *.
    split.
    + destruct (decide (tc = timeCount (pi_timeslot p))) as [->|Hne].
      * apply Hk; [|done]. by apply Hnull.
      * by rewrite Ho.
    + intros q. rewrite Hp, elem_of_app. intros [Hq|Hq] Htc.
      * apply Hnull; [|done]. rewrite Hpend. rewrite elem_of_app in Hq.
        rewrite elem_of_app, elem_of_cons. tauto.
      * rewrite Forall_forall in Hf. destruct (Hf q Hq) as (Hqt & Hqc & _).
        rewrite Hqc. apply Hnull; [done|]. by rewrite <- Hqt.
Qed.

Lemma steps_null_request tc s s' :
  rtc step s s' → Inv s → null_request tc s → null_request tc s' ∧ Inv s'.
Proof.
  induction 1 as [s|s1 s2 s3 Hstep _ IH]; intros HI Hn; [done|].
  apply IH; [by eapply step_inv|by eapply step_null_request].
Qed.

(** *** Failures of an E-KEY interest *)

Lemma handleTimeout_again interest idx t cb ecb s kr :
  m_keyRequests s !! timeCount t = Some kr →
  attempts kr (i_name interest) < m_maxRepeatAttempts s →
  handleTimeout interest idx t cb ecb s
  = (Ret tt,
     set_pending (λ l, l ++ [mkPending interest idx t cb ecb])
       (set_keyRequests
          <[timeCount t := set_repeatAttempts (i_name interest)
                             (attempts kr (i_name interest) + 1) kr]> s)).
Proof.
  intros E Hlt. unfold handleTimeout, attempts in *. run_monad. rewrite E. simpl.
  rewrite (proj2 (Z.ltb_lt _ _)) by done. by rewrite E.
Qed.

Lemma handleTimeout_as_nack interest idx t cb ecb s kr :
  m_keyRequests s !! timeCount t = Some kr →
  m_maxRepeatAttempts s <= attempts kr (i_name interest) →
  handleTimeout interest idx t cb ecb s
  = handleNack interest idx t cb ecb
      (set_keyRequests
         <[timeCount t := set_repeatAttempts (i_name interest)
                            (attempts kr (i_name interest)) kr]> s).
Proof.
  intros E Hge. unfold handleTimeout, attempts in *. run_monad. rewrite E. simpl.
  rewrite (proj2 (Z.ltb_ge _ _)) by done. by rewrite E.
Qed.

Lemma handleNack_use_link interest idx t cb ecb s :
  m_useLink s = true → hasSelectedDelegation interest = false →
  handleNack interest idx t cb ecb s
  = (Ret tt,
     set_pending
       (λ l, l ++ [mkPending (setSelectedDelegation 0 (setLink (m_linkBlock s) interest))
                             0 t cb ecb]) s).
Proof.
  intros Hl Hsel. unfold handleNack.
  change (get ≫= ?f) with (λ s0 : State, f s0 s0). cbv beta.
  by rewrite Hl, Hsel.
Qed.

Lemma handleNack_next_delegation interest idx t cb ecb s :
  m_useLink s = true → hasSelectedDelegation interest = true →
  0 <= idx → idx + 1 < 2 ^ 64 → idx + 1 < m_linkSize s →
  handleNack interest idx t cb ecb s
  = (Ret tt,
     set_pending
       (λ l, l ++ [mkPending (setSelectedDelegation (idx + 1) interest) (idx + 1) t cb ecb]) s).
Proof.
  intros Hl Hsel H0 Hw Hlt. unfold handleNack, size_t_wrap.
  change (get ≫= ?f) with (λ s0 : State, f s0 s0). cbv beta.
  rewrite Hl, Hsel. simpl. rewrite Z.mod_small by lia.
  by rewrite (proj2 (Z.ltb_lt _ _)) by done.
Qed.

Lemma handleNack_gives_up interest idx t cb ecb s kr :
  m_keyRequests s !! timeCount t = Some kr →
  m_useLink s = false
  ∨ (hasSelectedDelegation interest = true ∧ 0 <= idx ∧ idx + 1 < 2 ^ 64
     ∧ m_linkSize s <= idx + 1) →
  handleNack interest idx t cb ecb s = updateKeyRequest (timeCount t) cb s.
Proof.
  intros E Hcase. unfold handleNack, size_t_wrap.
  change (get ≫= ?f) with (λ s0 : State, f s0 s0). cbv beta.
  assert (Hout : (keyRequest_at (timeCount t) ≫= λ _, updateKeyRequest (timeCount t) cb) s
                 = updateKeyRequest (timeCount t) cb s).
  { unfold mbind at 1, M_bind at 1, keyRequest_at. by rewrite E. }
  destruct Hcase as [->|(Hsel & H0 & Hw & Hge)]; [done|].
  destruct (m_useLink s); [|done]. rewrite Hsel. simpl.
  rewrite Z.mod_small by lia. by rewrite (proj2 (Z.ltb_ge _ _)) by done.
Qed.

Lemma timed_out_run (n : nat) :
  ∀ p s kr,
    m_keyRequests s !! timeCount (pi_timeslot p) = Some kr →
    attempts kr (i_name (pi_interest p)) + Z.of_nat n <= m_maxRepeatAttempts s →
    p ∈ face_pending s →
    (∃ s', timed_out p n s s')
    ∧ ∀ s', timed_out p n s s' →
        m_keyRequests s'
        = (if n is O then m_keyRequests s
           else <[timeCount (pi_timeslot p)
                  := set_repeatAttempts (i_name (pi_interest p))
                       (attempts kr (i_name (pi_interest p)) + Z.of_nat n) kr]>
                  (m_keyRequests s))
        ∧ face_pending s' ≡ₚ face_pending s
        ∧ invoked s' = invoked s
        ∧ m_ekeyInfo s' = m_ekeyInfo s
        ∧ m_db s' = m_db s.
Proof.
  induction n as [|n IH]; intros p s kr E Hle Hin.
  { split; [exists s; constructor|]. intros s' Hrun. by inversion Hrun; subst. }
  set (name := i_name (pi_interest p)) in *.
  set (tc := timeCount (pi_timeslot p)) in *.
  assert (Hstep : ∀ l1 l2, face_pending s = l1 ++ p :: l2 →
    dispatch p RespTimeout (set_pending (λ _, l1 ++ l2) s)
    = (Ret tt,
       set_pending (λ l, l ++ [p])
         (set_keyRequests <[tc := set_repeatAttempts name (attempts kr name + 1) kr]>
            (set_pending (λ _, l1 ++ l2) s)))).
  { intros l1 l2 Hl. simpl. rewrite (handleTimeout_again _ _ _ _ _ _ kr); [|done|subst name; simpl; lia].
    by destruct p. }
  assert (Hnext : ∀ l1 l2, face_pending s = l1 ++ p :: l2 →
    let s1 := set_pending (λ l, l ++ [p])
                (set_keyRequests <[tc := set_repeatAttempts name (attempts kr name + 1) kr]>
                   (set_pending (λ _, l1 ++ l2) s)) in
    m_keyRequests s1 !! tc = Some (set_repeatAttempts name (attempts kr name + 1) kr)
    ∧ attempts (set_repeatAttempts name (attempts kr name + 1) kr) name + Z.of_nat n
      <= m_maxRepeatAttempts s1
    ∧ p ∈ face_pending s1).
  { intros l1 l2 Hl. simpl. split; [apply lookup_insert_eq|]. split.
    - unfold attempts at 1. simpl. rewrite lookup_insert_eq. subst name. simpl. lia.
    - rewrite elem_of_app. right. by apply list_elem_of_singleton. }
  split.
  - apply list_elem_of_split in Hin as (l1 & l2 & Hl).
    destruct (Hnext l1 l2 Hl) as (E1 & Hle1 & Hin1).
    destruct (IH p _ _ E1 Hle1 Hin1) as [[s' Hrun] _].
    exists s'. econstructor; [exact Hl|by apply Hstep|exact Hrun].
  - intros s' Hrun. inversion Hrun as [|n' s0 l1 l2 s1 s2 Hl Hd Hrest]; subst.
    rewrite (Hstep l1 l2 Hl) in Hd. injection Hd as <-.
    destruct (Hnext l1 l2 Hl) as (E1 & Hle1 & Hin1).
    destruct (IH p _ _ E1 Hle1 Hin1) as [_ Hall].
    destruct (Hall s' Hrest) as (Hk & Hp & Hi & He & Hdb). simpl in *.
    split; [|split; [|done]].
    + rewrite Hk. destruct n as [|n]; simpl.
      * reflexivity.
      * fold tc name. rewrite insert_insert_eq. f_equal.
        unfold set_repeatAttempts, attempts. simpl. rewrite lookup_insert_eq. simpl.
        rewrite insert_insert_eq. do 2 f_equal. lia.
    + rewrite Hp, Hl. rewrite <- app_assoc. apply Permutation_app_head.
      symmetry. apply Permutation_cons_append.
Qed.

(** X1. How the producer handles the failures of an E-KEY interest.
    A timeout while [repeatAttempts[name]] is below [m_maxRepeatAttempts]
    counts one attempt and expresses the same interest again; at the
    maximum it is handled as a NACK. A NACK with the link in use expresses
    the interest with the link and delegation 0 if it carried no selected
    delegation, and with the next delegation if it carried one and one is
    left. Otherwise (no link, or no delegation left) the interest is given
    up: [interestCount] is decremented and, at zero with a callback, the
    callback receives the keys wrapped so far and the request is erased;
    no error is reported. Timeouts within the maximum leave the interest
    pending, with one attempt counted for each, and nothing else changed. *)
Theorem key_retrieval_policy (s : State) (p : PendingInterest) (kr : KeyRequest) :
  let interest := pi_interest p in
  let idx := pi_delegationIndex p in
  let timeslot := pi_timeslot p in
  let cb := pi_callback p in
  let ecb := pi_errorCallback p in
  let tc := timeCount timeslot in
  let name := i_name interest in
  m_keyRequests s !! tc = Some kr →
  0 <= idx → idx + 1 < 2 ^ 64 →
  (attempts kr name < m_maxRepeatAttempts s →
     dispatch p RespTimeout s
     = (Ret tt,
        set_pending (λ l, l ++ [p])
          (set_keyRequests
             <[tc := set_repeatAttempts name (attempts kr name + 1) kr]> s)))
  ∧ (m_maxRepeatAttempts s <= attempts kr name →
     dispatch p RespTimeout s
     = dispatch p RespNack
         (set_keyRequests <[tc := set_repeatAttempts name (attempts kr name) kr]> s))
  ∧ (m_useLink s = true → hasSelectedDelegation interest = false →
     dispatch p RespNack s
     = (Ret tt,
        set_pending
          (λ l, l ++ [mkPending (setSelectedDelegation 0 (setLink (m_linkBlock s) interest))
                                0 timeslot cb ecb]) s))
  ∧ (m_useLink s = true → hasSelectedDelegation interest = true → idx + 1 < m_linkSize s →
     dispatch p RespNack s
     = (Ret tt,
        set_pending
          (λ l, l ++ [mkPending (setSelectedDelegation (idx + 1) interest)
                                (idx + 1) timeslot cb ecb]) s))
  ∧ (m_useLink s = false
     ∨ (hasSelectedDelegation interest = true ∧ m_linkSize s <= idx + 1) →
     dispatch p RespNack s
     = (Ret tt,
        let s1 := set_keyRequests <[tc := decr_interestCount kr]> s in
        match cb with
        | Some c =>
            if interestCount kr - 1 =? 0
            then set_keyRequests (delete tc)
                   (set_invoked (λ l, l ++ [EvKeys tc c (encryptedKeys kr)]) s1)
            else s1
        | None => s1
        end))
  ∧ (∀ n : nat, attempts kr name + Z.of_nat n <= m_maxRepeatAttempts s →
       p ∈ face_pending s →
       (∃ s', timed_out p n s s')
       ∧ ∀ s', timed_out p n s s' →
           m_keyRequests s'
           = (if n is O then m_keyRequests s
              else <[tc := set_repeatAttempts name (attempts kr name + Z.of_nat n) kr]>
                     (m_keyRequests s))
           ∧ face_pending s' ≡ₚ face_pending s
           ∧ invoked s' = invoked s
           ∧ m_ekeyInfo s' = m_ekeyInfo s
           ∧ m_db s' = m_db s).
Proof.
  intros interest idx timeslot cb ecb tc name E H0 Hw.
  split; [|split; [|split; [|split; [|split]]]].
  - intros Hlt. simpl. rewrite (handleTimeout_again _ _ _ _ _ _ kr) by done. by destruct p.
  - intros Hge. simpl. by rewrite (handleTimeout_as_nack _ _ _ _ _ _ kr) by done.
  - intros Hl Hsel. simpl. by apply handleNack_use_link.
  - intros Hl Hsel Hlt. simpl. by apply handleNack_next_delegation.
  - intros Hcase. simpl. rewrite (handleNack_gives_up _ _ _ _ _ _ kr); [|done|].
    + by apply updateKeyRequest_eq.
    + destruct Hcase as [?|[? ?]]; [by left|right; done].
  - intros n Hle Hin. by apply timed_out_run.
Qed.

(** *** Construction *)

Lemma getPrefix_minus_one (n : Name) :
  n ≠ [] → Z.of_nat (length n) < 2 ^ 64 → getPrefix n (-1) = take (length n - 1) n.
Proof.
  intros Hne Hlen. destruct n as [|c n]; [done|].
  unfold getPrefix, size_t_wrap, getSubName. cbn [Z.ltb Z.compare].
  rewrite Z.mod_small by (simpl length in *; lia).
  rewrite (proj2 (Z.eqb_neq _ _)) by (simpl length in *; lia).
  cbn [Z.ltb Z.compare Z.max]. rewrite Z.min_r by lia.
  rewrite Z.sub_0_r. simpl drop. f_equal. simpl length. lia.
Qed.

Lemma nodeName_inj prefix dataType (j k : nat) :
  (j <= length dataType)%nat → (k <= length dataType)%nat →
  nodeName prefix dataType j = nodeName prefix dataType k → j = k.
Proof.
  intros Hj Hk Heq. apply (f_equal length) in Heq. unfold nodeName in Heq.
  rewrite !length_app, !length_take in Heq. simpl in Heq. lia.
Qed.

Lemma seed_ekeyInfo_nodes prefix keyInfo (n : nat) :
  ∀ dataType m,
    length dataType = n → Z.of_nat n < 2 ^ 64 →
    (∀ k, (1 <= k <= n)%nat → m !! nodeName prefix dataType k = None) →
    map_to_list (seed_ekeyInfo n (prefix ++ [NAME_COMPONENT_READ]) keyInfo dataType m)
    ≡ₚ ((λ k, (nodeName prefix dataType k, keyInfo)) <$> seq 1 n) ++ map_to_list m.
Proof.
  induction n as [|n IH]; intros dataType m Hlen Hbound Hfree; [done|].
  assert (Hne : dataType ≠ []) by (by destruct dataType).
  assert (Hnode : (prefix ++ [NAME_COMPONENT_READ]) ++ dataType ++ [NAME_COMPONENT_E_KEY]
                  = nodeName prefix dataType (S n)).
  { unfold nodeName. rewrite <- Hlen, firstn_all. by rewrite <- app_assoc. }
  assert (Hseed : seed_ekeyInfo (S n) (prefix ++ [NAME_COMPONENT_READ]) keyInfo dataType m
                  = seed_ekeyInfo n (prefix ++ [NAME_COMPONENT_READ]) keyInfo
                      (take n dataType)
                      (<[nodeName prefix dataType (S n) := keyInfo]> m)).
  { simpl. destruct dataType as [|c d]; [done|].
    rewrite getPrefix_minus_one by (done || lia). rewrite Hnode.
    by replace (length (c :: d) - 1)%nat with n by (rewrite Hlen; lia). }
  rewrite Hseed, IH.
  - rewrite map_to_list_insert by (apply Hfree; lia).
    rewrite seq_S, fmap_app. simpl. rewrite <- app_assoc. simpl.
    assert (Heq : (λ k, (nodeName prefix (take n dataType) k, keyInfo)) <$> seq 1 n
                  = (λ k, (nodeName prefix dataType k, keyInfo)) <$> seq 1 n).
    { apply list_fmap_ext. intros i k Hk. apply lookup_seq in Hk as [-> Hi].
      unfold nodeName. by rewrite take_take, Nat.min_l by lia. }
    by rewrite Heq.
  - rewrite length_take. lia.
  - lia.
  - intros k Hk. unfold nodeName at 1. rewrite take_take, Nat.min_l by lia.
    fold (nodeName prefix dataType k). rewrite lookup_insert_ne; [apply Hfree; lia|].
    intros Heq. apply nodeName_inj in Heq; lia.
Qed.

Lemma Producer_new_map_to_list prefix dataType db maxRepeatAttempts keyRetrievalLink keyInfo :
  Z.of_nat (length dataType) < 2 ^ 64 →
  map_to_list (m_ekeyInfo (Producer_new prefix dataType db maxRepeatAttempts
                                        keyRetrievalLink keyInfo))
  ≡ₚ (λ k, (nodeName prefix dataType k, keyInfo)) <$> seq 1 (length dataType).
Proof.
  intros Hbound. simpl.
  rewrite (seed_ekeyInfo_nodes prefix keyInfo (length dataType) dataType ∅); try done.
  by rewrite map_to_list_empty, app_nil_r.
Qed.

Lemma Producer_new_lookup prefix dataType db maxRepeatAttempts keyRetrievalLink keyInfo :
  Z.of_nat (length dataType) < 2 ^ 64 →
  ∀ node info,
    m_ekeyInfo (Producer_new prefix dataType db maxRepeatAttempts keyRetrievalLink keyInfo)
      !! node = Some info
    ↔ info = keyInfo
      ∧ ∃ k, (1 <= k <= length dataType)%nat ∧ node = nodeName prefix dataType k.
Proof.
  intros Hbound node info.
  rewrite <- elem_of_map_to_list, Producer_new_map_to_list, list_elem_of_fmap by done.
  split.
  - intros (k & [= -> ->] & Hk). split; [done|]. exists k. split; [|done].
    apply elem_of_seq in Hk. lia.
  - intros (-> & k & Hk & ->). exists k. split; [done|]. apply elem_of_seq. lia.
Qed.

Lemma Producer_new_size prefix dataType db maxRepeatAttempts keyRetrievalLink keyInfo :
  Z.of_nat (length dataType) < 2 ^ 64 →
  size (m_ekeyInfo (Producer_new prefix dataType db maxRepeatAttempts
                                 keyRetrievalLink keyInfo))
  = length dataType.
Proof.
  intros Hbound.
  rewrite <- length_map_to_list, Producer_new_map_to_list, length_fmap by done.
  apply length_seq.
Qed.

(** X2. The constructor makes one node of [m_ekeyInfo] for every
    non-empty prefix of the data type, named prefix/READ/(the first [k]
    components)/E-KEY and holding the default [KeyInfo]: as many nodes as
    the data type has components. The namespace is prefix/SAMPLE/dataType,
    the link is in use exactly when it has a delegation, and nothing is
    requested, pending or invoked. *)
Theorem Producer_new_nodes (prefix dataType : Name) (db : gmap Z Buffer)
    (maxRepeatAttempts : Z) (keyRetrievalLink : Link) (keyInfo : KeyInfo) :
  Z.of_nat (length dataType) < 2 ^ 64 →
  let s := Producer_new prefix dataType db maxRepeatAttempts keyRetrievalLink keyInfo in
  map_to_list (m_ekeyInfo s)
  ≡ₚ (λ k, (nodeName prefix dataType k, keyInfo)) <$> seq 1 (length dataType)
  ∧ size (m_ekeyInfo s) = length dataType
  ∧ (∀ node info, m_ekeyInfo s !! node = Some info
       ↔ info = keyInfo
         ∧ ∃ k, (1 <= k <= length dataType)%nat ∧ node = nodeName prefix dataType k)
  ∧ m_namespace s = prefix ++ [NAME_COMPONENT_SAMPLE] ++ dataType
  ∧ (m_useLink s = true ↔ keyRetrievalLink ≠ [])
  ∧ m_linkSize s = Z.of_nat (length keyRetrievalLink)
  ∧ m_maxRepeatAttempts s = maxRepeatAttempts
  ∧ m_keyRequests s = ∅ ∧ face_pending s = [] ∧ invoked s = [].
Proof.
  intros Hbound s.
  split; [by apply Producer_new_map_to_list|].
  split; [by apply Producer_new_size|].
  split; [by apply Producer_new_lookup|].
  split; [done|]. split; [|done].
  subst s. simpl. destruct keyRetrievalLink; simpl; split; done.
Qed.

Lemma uncovered_always keyInfo timeslot node :
  endTimeslot keyInfo <= beginTimeslot keyInfo →
  node_uncovered timeslot (node, keyInfo) = true.
Proof.
  intros Hle. unfold node_uncovered. simpl. apply orb_true_iff.
  destruct (Z.ltb_spec timeslot (beginTimeslot keyInfo)); [by left|right].
  apply Z.leb_le. lia.
Qed.

(** X3. On a producer as constructed, whose nodes hold a [KeyInfo]
    that covers no timeslot (its end is not after its begin),
    [createContentKey] for a timeslot without content key stores the
    drawn key, opens the request of the timeslot with [interestCount] the
    number of nodes, and expresses one interest for every node and no
    other; nothing is wrapped and no callback is invoked. *)
Theorem first_createContentKey_asks_every_node (prefix dataType : Name)
    (db : gmap Z Buffer) (maxRepeatAttempts : Z) (keyRetrievalLink : Link)
    (keyInfo : KeyInfo) (timeslot : TimePoint) (cb : ProducerEKeyCallback)
    (ecb : ErrorCallBack) (bits : Buffer) :
  Z.of_nat (length dataType) < 2 ^ 64 →
  endTimeslot keyInfo <= beginTimeslot keyInfo →
  hasContentKey db timeslot = false →
  let s := Producer_new prefix dataType db maxRepeatAttempts keyRetrievalLink keyInfo in
  let s' := (createContentKey timeslot cb ecb bits s).2 in
  let ask k :=
    mkPending (mkInterest (nodeName prefix dataType k)
                          [ExcludedAfter (toIsoString timeslot)] (Some 1) None None)
              0 timeslot cb ecb in
  (createContentKey timeslot cb ecb bits s).1
  = Ret (prefix ++ [NAME_COMPONENT_SAMPLE] ++ dataType
         ++ [NAME_COMPONENT_C_KEY; toIsoString (getRoundedTimeslot timeslot)])
  ∧ face_pending s' ≡ₚ ask <$> seq 1 (length dataType)
  ∧ invoked s' = []
  ∧ getContentKey (m_db s') timeslot = Some bits
  ∧ ∃ kr, m_keyRequests s' = {[timeCount timeslot := kr]}
          ∧ interestCount kr = Z.of_nat (length dataType)
          ∧ encryptedKeys kr = []
          ∧ ∀ k, (1 <= k <= length dataType)%nat →
              repeatAttempts kr !! nodeName prefix dataType k = Some 0.
Proof.
  intros Hbound Hempty Hhas s s' ask.
  pose proof (Producer_new_map_to_list prefix dataType db maxRepeatAttempts
                keyRetrievalLink keyInfo Hbound) as Hperm.
  pose proof (Producer_new_size prefix dataType db maxRepeatAttempts
                keyRetrievalLink keyInfo Hbound) as Hsize.
  pose proof (Producer_new_lookup prefix dataType db maxRepeatAttempts
                keyRetrievalLink keyInfo Hbound) as Hnodes.
  fold s in Hperm, Hsize, Hnodes.
  set (l := map_to_list (m_ekeyInfo s)) in *.
  assert (Hall : ∀ it, it ∈ l → node_uncovered timeslot it = true).
  { intros [node info] Hin%elem_of_map_to_list. apply Hnodes in Hin as [-> _].
    by apply uncovered_always. }
  assert (Hkeys : omap (node_key timeslot bits (m_namespace s)) l = []).
  { apply omap_none. intros it Hin. unfold node_key. by rewrite Hall. }
  assert (Herrs : omap (node_error timeslot ecb bits) l = []).
  { apply omap_none. intros it Hin. unfold node_error. by rewrite Hall. }
  assert (Hasks : omap (node_interest timeslot cb ecb) l ≡ₚ ask <$> seq 1 (length dataType)).
  { rewrite Hperm. clear Hperm. induction (seq 1 (length dataType)) as [|k ks IH]; [done|].
    csimpl. unfold node_interest at 1. rewrite uncovered_always by done. simpl.
    by apply Permutation_skip. }
  assert (Hlen : length l = length dataType).
  { unfold l. by rewrite length_map_to_list. }
  subst s'. unfold createContentKey.
  change (get ≫= ?f) with (λ s0 : State, f s0 s0). cbv beta.
  replace (hasContentKey (m_db s) timeslot) with false by done.
  unfold mbind, M_bind, modify, mret, M_ret. fold l.
  set (s2 := set_keyRequests _ (set_db _ s)).
  assert (E : m_keyRequests s2 !! timeCount timeslot
              = Some (KeyRequest_of (Z.of_nat (length dataType)))).
  { subst s2. unfold set_keyRequests. cbn [m_keyRequests]. rewrite Hsize.
    unfold keyRequests_insert. change (m_keyRequests (set_db _ s)) with (∅ : gmap Z KeyRequest).
    rewrite lookup_empty. apply lookup_insert_eq. }
  assert (Hdb : getContentKey (m_db s2) timeslot = Some bits).
  { subst s2. simpl. unfold getContentKey, addContentKey. apply lookup_insert_eq. }
  assert (Hloop : for_each (createContentKey_body timeslot cb ecb) l s2
                  = (Ret tt, with_request timeslot
                       (request_after timeslot bits (m_namespace s) l
                          (KeyRequest_of (Z.of_nat (length dataType))))
                       (omap (node_interest timeslot cb ecb) l)
                       (omap (node_error timeslot ecb bits) l) s2)).
  { destruct (decide (l = [])) as [El|El].
    - rewrite El. simpl. unfold request_after. simpl. rewrite Z.sub_0_r.
      by rewrite with_request_id.
    - apply (loop_open timeslot cb ecb bits (m_namespace s) l s2 _ eq_refl E Hdb).
      right. rewrite (omap_none _ l).
      2:{ intros it Hin. unfold node_key. by rewrite Hall. }
      simpl. destruct l; [done|]. simpl in Hlen. lia. }
  rewrite Hloop. unfold with_request, request_after. rewrite Hkeys, Herrs.
  cbn [fst snd face_pending invoked m_db m_keyRequests].
  split; [|split; [|split; [|split]]].
  { f_equal. change (m_namespace s) with (prefix ++ [NAME_COMPONENT_SAMPLE] ++ dataType).
    by rewrite <- !app_assoc. }
  { exact Hasks. }
  { done. }
  { exact Hdb. }
  eexists. split; [|split; [|split]].
  - subst s2. unfold set_keyRequests. cbn [m_keyRequests]. unfold keyRequests_insert.
    change (m_keyRequests (set_db _ s)) with (∅ : gmap Z KeyRequest).
    rewrite lookup_empty. by rewrite insert_insert_eq, insert_empty.
  - simpl. lia.
  - done.
  - intros k Hk. cbn [repeatAttempts].
    assert (Hin : (nodeName prefix dataType k, keyInfo) ∈ l).
    { apply elem_of_map_to_list, Hnodes. split; [done|]. by exists k. }
    eapply foldl_attempts_set; [exact Hin|by apply uncovered_always].
Qed.

(** *** Content keys and packets *)

(** X4. [getRoundedTimeslot] rounds toward the epoch, not to the
    nearest hour: the result is a whole number of hours, a second rounding
    leaves it as it is, it is no further from the epoch than the timeslot
    and less than an hour away from the timeslot, and rounding commutes
    with negation. From the epoch on it is the start of the hour the
    timeslot lies in. A time point of the 64-bit range is rounded to one
    of that range. *)
Theorem getRoundedTimeslot_toward_zero (timeslot : TimePoint) :
  (∃ hours, getRoundedTimeslot timeslot = hours * 3600000)
  ∧ getRoundedTimeslot (getRoundedTimeslot timeslot) = getRoundedTimeslot timeslot
  ∧ Z.abs (getRoundedTimeslot timeslot) <= Z.abs timeslot
  ∧ Z.abs (timeslot - getRoundedTimeslot timeslot) < 3600000
  ∧ getRoundedTimeslot (- timeslot) = - getRoundedTimeslot timeslot
  ∧ (0 <= timeslot →
       getRoundedTimeslot timeslot <= timeslot < getRoundedTimeslot timeslot + 3600000)
  ∧ (int64 timeslot → int64 (getRoundedTimeslot timeslot)).
Proof.
  unfold getRoundedTimeslot, int64.
  pose proof (Z.quot_rem' timeslot 3600000) as Hqr.
  pose proof (Z.rem_bound_abs timeslot 3600000 ltac:(lia)) as Hb.
  assert (Hsign : 0 <= timeslot → 0 <= Z.rem timeslot 3600000).
  { intros. apply Z.rem_nonneg; lia. }
  assert (Hsign' : timeslot <= 0 → Z.rem timeslot 3600000 <= 0).
  { intros. apply Z.rem_nonpos; lia. }
  repeat split.
  - by eexists.
  - rewrite Z.quot_mul by lia. done.
  - lia.
  - lia.
  - rewrite Z.quot_opp_l by lia. lia.
  - lia.
  - lia.
  - lia.
  - lia.
Qed.

Lemma createContentKey_stores s timeslot cb ecb bits :
  let s1 := (createContentKey timeslot cb ecb bits s).2 in
  m_namespace s1 = m_namespace s
  ∧ getContentKey (m_db s1) timeslot = Some (default bits (getContentKey (m_db s) timeslot)).
Proof.
  intros s1. subst s1. destruct (createContentKey timeslot cb ecb bits s) as [r s1] eqn:Hc.
  apply createContentKey_effect in Hc as [[Hhas ->]|[Hhas He]]; simpl.
  - split; [done|]. unfold hasContentKey in Hhas. apply bool_decide_eq_true in Hhas.
    unfold getContentKey. by destruct Hhas as [x ->].
  - destruct He as [Hc Hd _ _ _ _ _ _ _]. unfold configuration in Hc.
    injection Hc as -> _ _ _ _. split; [done|].
    rewrite Hd. unfold hasContentKey in Hhas. apply bool_decide_eq_false in Hhas.
    unfold getContentKey. simpl. unfold addContentKey. rewrite lookup_insert_eq.
    destruct (m_db s !! floorHour timeslot) eqn:E; [|done]. destruct Hhas. by eexists.
Qed.

(** X5. [createContentKey] is idempotent. Called again for the same
    timeslot, with whatever callbacks and drawn key, it returns the same
    name and changes nothing: no second request, no interest. The key in
    the database is the one that was there before the first call, or else
    the one the first call drew; the second draw is dropped. *)
Theorem createContentKey_twice (s : State) (timeslot : TimePoint)
    (cb cb' : ProducerEKeyCallback) (ecb ecb' : ErrorCallBack) (bits bits' : Buffer) :
  let s1 := (createContentKey timeslot cb ecb bits s).2 in
  createContentKey timeslot cb' ecb' bits' s1
  = (Ret (m_namespace s ++ [NAME_COMPONENT_C_KEY;
                            toIsoString (getRoundedTimeslot timeslot)]), s1)
  ∧ getContentKey (m_db s1) timeslot = Some (default bits (getContentKey (m_db s) timeslot)).
Proof.
  intros s1. destruct (createContentKey_stores s timeslot cb ecb bits) as [Hns Hkey].
  fold s1 in Hns, Hkey. split; [|done].
  unfold createContentKey.
  change (get ≫= ?f) with (λ s0 : State, f s0 s0). cbv beta.
  unfold hasContentKey. rewrite bool_decide_true; [by rewrite Hns|].
  unfold getContentKey in Hkey. by eexists.
Qed.

(** X6. [produce] names the packet namespace/iso(timeslot), with the
    timeslot itself and not its hour, encrypts the content with AES-CBC
    under the content key of the database (the drawn key only when none
    was stored) with the content-key name as locator, and signs it. When
    the encryption raises, the exception leaves [produce]: the error
    callback is not invoked, and what [createContentKey] did stays. For a
    timeslot whose key is stored the producer is unchanged. [produce]
    invokes no completion callback. *)
Theorem produce_packet (s : State) (timeslot : TimePoint) (content : Buffer)
    (ecb : ErrorCallBack) (bits : Buffer) :
  reachable s → int64 timeslot →
  let contentKeyName :=
    m_namespace s ++ [NAME_COMPONENT_C_KEY; toIsoString (getRoundedTimeslot timeslot)] in
  let contentKey := default bits (getContentKey (m_db s) timeslot) in
  let s1 := (createContentKey timeslot None ecb bits s).2 in
  produce timeslot content ecb bits s
  = (match encryptData AlgorithmAesCbc content contentKeyName contentKey with
     | inr blob => Ret (sign (mkData (m_namespace s ++ [toIsoString timeslot]) blob))
     | inl what => Throw (CryptoError what)
     end, s1)
  ∧ (hasContentKey (m_db s) timeslot = true → s1 = s)
  ∧ (∀ request c keys, EvKeys request c keys ∈ invoked s1 →
       EvKeys request c keys ∈ invoked s).
Proof.
  intros HI%reachable_inv Ht contentKeyName contentKey s1.
  destruct (createContentKey_stores s timeslot None ecb bits) as [_ Hkey].
  fold s1 contentKey in Hkey.
  destruct (createContentKey timeslot None ecb bits s) as [r s1'] eqn:Hc.
  simpl in s1. subst s1.
  pose proof Hc as Heff. apply createContentKey_effect in Heff.
  assert (Hr : r = Ret contentKeyName).
  { destruct Heff as [[Hhas ->]|[Hhas _]].
    - revert Hc. unfold createContentKey.
      change (get ≫= ?f) with (λ s0 : State, f s0 s0). cbv beta. rewrite Hhas.
      by intros [= <-].
    - assert (Hnone : m_db s !! floorHour timeslot = None).
      { unfold hasContentKey in Hhas. apply bool_decide_eq_false in Hhas.
        destruct (m_db s !! floorHour timeslot) eqn:E; [|done]. destruct Hhas. by eexists. }
      destruct (Inv_at_fresh _ _ _ _ _ _ HI Ht Hnone) as [Hreq _].
      destruct (createContentKey_fresh s timeslot None ecb bits Hhas Hreq) as (s2 & Heq & _).
      rewrite Heq in Hc. by injection Hc as <- _. }
  assert (Hns : m_namespace s1' = m_namespace s).
  { destruct Heff as [[_ ->]|[_ He]]; [done|].
    destruct He as [Hcf _ _ _ _ _ _ _ _]. unfold configuration in Hcf.
    by injection Hcf as -> _ _ _ _. }
  subst r. split; [|split].
  - unfold produce. unfold mbind at 1, M_bind at 1. rewrite Hc.
    unfold mbind, M_bind, get, throw, mret, M_ret. rewrite Hkey, Hns.
    by destruct (encryptData _ _ _ _).
  - intros Hhas. destruct Heff as [[_ ->]|[Hhas' _]]; [done|congruence].
  - intros request c keys. destruct Heff as [[_ ->]|[_ He]]; [done|].
    destruct He as [_ _ _ _ _ _ _ _ (evs & -> & Hf & _)]. simpl.
    rewrite elem_of_app. intros [?|Hin]; [done|].
    rewrite Forall_forall in Hf. by destruct (Hf _ Hin) as [_ ?].
Qed.

(** *** A covering key is cached *)

(** What an E-KEY that covers the timeslot and wraps its content key
    leaves behind. *)
Lemma handleCoveringKey_covering interest data idx timeslot cb ecb s kr
    startComponent endComponent begin end_ contentKey blob :
  m_keyRequests s !! timeCount timeslot = Some kr →
  name_get (d_name data) (-2) = Some startComponent →
  name_get (d_name data) (-1) = Some endComponent →
  fromIsoString startComponent = Some begin →
  fromIsoString endComponent = Some end_ →
  timeslot < end_ →
  getContentKey (m_db s) timeslot = Some contentKey →
  encryptData AlgorithmRsaOaep contentKey (d_name data) (d_content data) = inr blob →
  let s' := (handleCoveringKey interest data idx timeslot cb ecb s).2 in
  m_ekeyInfo s' = <[i_name interest := mkKeyInfo begin end_ (d_content data)]> (m_ekeyInfo s)
  ∧ face_pending s' = face_pending s.
Proof.
  intros E Hs He Hb Hen Hcov Hck Hwrap s'. subst s'.
  unfold handleCoveringKey. run_monad. rewrite E. simpl.
  rewrite Hs, He, Hb, Hen. apply Z.leb_gt in Hcov. rewrite Hcov.
  pose proof (encryptContentKey_frame (d_content data) (d_name data) timeslot cb ecb s kr E)
    as (Hp & Hk & _ & Hiff). simpl in *.
  assert (Hok : (encryptContentKey (d_content data) (d_name data) timeslot cb ecb s).1
                = Ret true) by (apply Hiff; eauto).
  destruct (encryptContentKey _ _ _ _ _ s) as [r s1]. simpl in *. subst r. simpl.
  by rewrite Hk.
Qed.

(** X7. An E-KEY that covered a timeslot and wrapped its content key is
    cached under the node its interest was named after. A later
    [createContentKey], for a timeslot within the key's bounds whose
    content key is new, sends no interest for that node: it wraps the new
    content key at once under the cached payload. The locator of that
    wrap is the node's name followed by the ISO strings of the parsed
    bounds. *)
Theorem covering_key_is_cached (s : State) (interest : Interest) (data : Data)
    (delegationIndex : Z) (timeslot later : TimePoint)
    (cb cb' : ProducerEKeyCallback) (ecb ecb' : ErrorCallBack) (bits' : Buffer)
    (kr : KeyRequest) (startComponent endComponent : Component)
    (begin end_ : TimePoint) (contentKey blob : Buffer) :
  m_keyRequests s !! timeCount timeslot = Some kr →
  name_get (d_name data) (-2) = Some startComponent →
  name_get (d_name data) (-1) = Some endComponent →
  fromIsoString startComponent = Some begin →
  fromIsoString endComponent = Some end_ →
  timeslot < end_ →
  getContentKey (m_db s) timeslot = Some contentKey →
  encryptData AlgorithmRsaOaep contentKey (d_name data) (d_content data) = inr blob →
  begin <= later < end_ →
  hasContentKey (m_db s) later = false →
  m_keyRequests s !! timeCount later = None →
  let node := i_name interest in
  let s1 := (handleCoveringKey interest data delegationIndex timeslot cb ecb s).2 in
  let s2 := (createContentKey later cb' ecb' bits' s1).2 in
  let tc := timeCount later in
  let eKeyName := node ++ [toIsoString begin; toIsoString end_] in
  let keyName :=
    m_namespace s ++ [NAME_COMPONENT_C_KEY; toIsoString (getRoundedTimeslot later)] in
  m_ekeyInfo s1 !! node = Some (mkKeyInfo begin end_ (d_content data))
  ∧ (∀ p, p ∈ face_pending s2 → i_name (pi_interest p) = node → p ∈ face_pending s)
  ∧ match encryptData AlgorithmRsaOaep bits' eKeyName (d_content data) with
    | inr blob' =>
        let cKeyData := sign (mkData keyName blob') in
        (∃ kr', m_keyRequests s2 !! tc = Some kr' ∧ cKeyData ∈ encryptedKeys kr')
        ∨ (∃ c keys, EvKeys tc c keys ∈ invoked s2 ∧ cKeyData ∈ keys)
    | inl what => EvError tc ecb' EncryptionFailure what ∈ invoked s2
    end.
Proof.
  intros E Hs He Hb Hen Hcov Hck Hwrap Hin Hhas Hreq node s1 s2 tc eKeyName keyName.
  destruct (handleCoveringKey_covering interest data delegationIndex timeslot cb ecb s kr
              _ _ _ _ _ _ E Hs He Hb Hen Hcov Hck Hwrap) as [Hinfo Hpend].
  fold s1 in Hinfo, Hpend.
  assert (Heff : effect timeslot cb ecb (eq (i_name interest)) s s1).
  { subst s1. destruct (handleCoveringKey _ _ _ _ _ _ s) as [r s'] eqn:Hh.
    by apply footprint_handleCoveringKey in Hh. }
  assert (Hne : tc ≠ timeCount timeslot).
  { intros Heq. subst tc. rewrite Heq in Hreq. congruence. }
  assert (Hdb : m_db s1 = m_db s) by apply (eff_db _ _ _ _ _ _ Heff).
  assert (Hns : m_namespace s1 = m_namespace s).
  { pose proof (eff_configuration _ _ _ _ _ _ Heff) as Hc. unfold configuration in Hc.
    congruence. }
  assert (Hreq1 : m_keyRequests s1 !! tc = None).
  { by rewrite (eff_others _ _ _ _ _ _ Heff). }
  assert (Hnode : m_ekeyInfo s1 !! node = Some (mkKeyInfo begin end_ (d_content data))).
  { rewrite Hinfo. apply lookup_insert_eq. }
  split; [done|].
  assert (Hhas1 : hasContentKey (m_db s1) later = false) by (by rewrite Hdb).
  destruct (createContentKey_fresh s1 later cb' ecb' bits' Hhas1 Hreq1)
    as (s' & Heq & Hp & Hcases).
  subst s2. rewrite Heq. simpl. clear Heq.
  set (l := map_to_list (m_ekeyInfo s1)) in *.
  set (info := mkKeyInfo begin end_ (d_content data)) in *.
  assert (Hl : (node, info) ∈ l) by (by apply elem_of_map_to_list).
  assert (Hc : (later <? beginTimeslot info) || (endTimeslot info <=? later) = false).
  { apply covered_test. done. }
  split.
  - intros p. rewrite Hp, Hpend, elem_of_app.
    intros [Hold|(k' & info' & Hin' & Hu & ->)%elem_of_node_interests] Hn; [done|].
    simpl in Hn. subst k'. apply elem_of_map_to_list in Hin'.
    assert (info' = info) by congruence. subst info'. by destruct Hu.
  - rewrite Hns in *. clear Hwrap.
    destruct (encryptData AlgorithmRsaOaep bits' eKeyName (d_content data))
      as [what|blob'] eqn:Hw; unfold eKeyName in Hw; unfold info in Hc; simpl in Hc.
    + assert (Hnerr : node_error later ecb' bits' (node, info)
                      = Some (EvError tc ecb' EncryptionFailure what)).
      { unfold node_error, node_uncovered, node_wrap, info. simpl.
        by rewrite Hc, Hw. }
      destruct Hcases as [[_ Hinv]|(c & _ & Hfull & _)].
      * rewrite Hinv, elem_of_app. right. apply list_elem_of_omap. by exists (node, info).
      * destruct (omap_full _ _ Hfull _ Hl) as [d Hd].
        unfold node_key, node_uncovered, node_wrap, info in Hd. simpl in Hd.
        by rewrite Hc, Hw in Hd.
    + assert (Hnk : node_key later bits' (m_namespace s) (node, info)
                    = Some (sign (mkData keyName blob'))).
      { unfold node_key, node_uncovered, node_wrap, info. simpl.
        by rewrite Hc, Hw. }
      assert (Hkeys : sign (mkData keyName blob')
                      ∈ omap (node_key later bits' (m_namespace s)) l).
      { apply list_elem_of_omap. by exists (node, info). }
      destruct Hcases as [[Hkr _]|(c & _ & _ & _ & Hinv)].
      * left. eexists. split; [exact Hkr|]. simpl. done.
      * right. exists c, (omap (node_key later bits' (m_namespace s)) l).
        split; [|done]. rewrite Hinv, elem_of_app. right.
        by apply list_elem_of_singleton.
Qed.

(** *** Whole runs *)

(** X8. However the producer runs, the fields set by the constructor
    keep their values, and a content key that is in the database stays
    there with the same bits: [createContentKey] writes a key only for a
    timeslot that has none. *)
Theorem configuration_and_content_keys_kept (s s' : State) :
  rtc step s s' →
  m_namespace s' = m_namespace s
  ∧ m_maxRepeatAttempts s' = m_maxRepeatAttempts s
  ∧ m_useLink s' = m_useLink s
  ∧ m_linkSize s' = m_linkSize s
  ∧ m_linkBlock s' = m_linkBlock s
  ∧ (∀ timeslot key, getContentKey (m_db s) timeslot = Some key →
       hasContentKey (m_db s') timeslot = true
       ∧ getContentKey (m_db s') timeslot = Some key).
Proof.
  intros (Hc & Hd & _)%steps_frame. unfold configuration in Hc.
  injection Hc as -> -> -> -> ->. do 5 (split; [done|]).
  intros timeslot key Hkey. unfold hasContentKey, getContentKey in *. split.
  - apply bool_decide_eq_true. exists key. by eapply lookup_weaken.
  - by eapply lookup_weaken.
Qed.

(** X9. The only error the producer ever reports is
    [EncryptionFailure]: an E-KEY retrieval that times out or is refused,
    on every delegation, is counted as done and nothing is reported for
    it. *)
Theorem only_encryption_failures_reported (s : State) :
  reachable s →
  Forall (λ e, match e with
               | EvError _ _ code _ => code = EncryptionFailure
               | EvKeys _ _ _ => True
               end) (invoked s).
Proof.
  intros (s0 & (_ & _ & Hev) & Hsteps).
  apply steps_frame in Hsteps as (_ & _ & _ & evs & Hi & Hf).
  rewrite Hi, Hev. simpl. eapply Forall_impl; [exact Hf|].
  intros [tc c keys|tc ecb code msg] (t & cb & ecb' & He); [done|].
  simpl in He. tauto.
Qed.

(** X10. The nodes of [m_ekeyInfo] are those the constructor made: no
    run adds or removes one, [handleCoveringKey] only replaces the
    [KeyInfo] of the node its interest was named after. So
    [m_ekeyInfo.size()], to which every new request's [interestCount] is
    set, is constant, and every pending interest is named after a node. *)
Theorem ekeyInfo_nodes_fixed (s0 s : State) :
  initial s0 → rtc step s0 s →
  dom (m_ekeyInfo s) = dom (m_ekeyInfo s0)
  ∧ size (m_ekeyInfo s) = size (m_ekeyInfo s0)
  ∧ ∀ p, p ∈ face_pending s → i_name (pi_interest p) ∈ dom (m_ekeyInfo s0).
Proof.
  intros (_ & Hpend & _) Hsteps.
  apply steps_nodes in Hsteps as [Hdom Hpn].
  2:{ intros p. rewrite Hpend. by intros ?%elem_of_nil. }
  assert (Heq : dom (m_ekeyInfo s) = dom (m_ekeyInfo s0)).
  { apply set_eq. intros k. by rewrite !elem_of_dom. }
  split; [done|]. split.
  - by rewrite <- !size_dom, Heq.
  - intros p Hp. apply elem_of_dom, Hdom. by apply Hpn.
Qed.

(** X11. Code that runs for the request of one timeslot leaves the
    requests of the other timeslots as they are: an answer of the face
    changes at most the request its interest was sent for, and
    [createContentKey] and [produce] at most the request of their
    timeslot. *)
Theorem request_isolation (s : State) :
  (∀ p resp tc, tc ≠ timeCount (pi_timeslot p) →
     m_keyRequests (dispatch p resp s).2 !! tc = m_keyRequests s !! tc)
  ∧ (∀ timeslot cb ecb bits tc, tc ≠ timeCount timeslot →
       m_keyRequests (createContentKey timeslot cb ecb bits s).2 !! tc = m_keyRequests s !! tc)
  ∧ (∀ timeslot content ecb bits tc, tc ≠ timeCount timeslot →
       m_keyRequests (produce timeslot content ecb bits s).2 !! tc = m_keyRequests s !! tc).
Proof.
  assert (Hcreate : ∀ timeslot cb ecb bits tc, tc ≠ timeCount timeslot →
    m_keyRequests (createContentKey timeslot cb ecb bits s).2 !! tc = m_keyRequests s !! tc).
  { intros t cb ecb bits tc Hne.
    destruct (createContentKey t cb ecb bits s) as [r s'] eqn:Hc.
    apply createContentKey_effect in Hc as [[_ ->]|[_ He]]; [done|].
    simpl. rewrite (eff_others _ _ _ _ _ _ He) by done. simpl.
    unfold keyRequests_insert. destruct (m_keyRequests s !! timeCount t); [done|].
    by rewrite lookup_insert_ne. }
  split; [|split; [done|]].
  - intros p resp tc Hne. destruct (dispatch p resp s) as [r s'] eqn:Hd.
    apply footprint_dispatch in Hd. simpl. by rewrite (eff_others _ _ _ _ _ _ Hd).
  - intros t content ecb bits tc Hne. rewrite produce_state. by apply Hcreate.
Qed.

(** X12. [produce] passes the null callback to [createContentKey]. The
    request it opens for a timeslot without content key is therefore
    never erased from [m_keyRequests], however its interests are answered
    and whatever else the producer does, and no completion callback is
    ever invoked for it. *)
Theorem produce_request_never_erased (s : State) (timeslot : TimePoint)
    (content : Buffer) (ecb : ErrorCallBack) (bits : Buffer) :
  reachable s → int64 timeslot → hasContentKey (m_db s) timeslot = false →
  ∀ s', rtc step (produce timeslot content ecb bits s).2 s' →
    is_Some (m_keyRequests s' !! timeCount timeslot)
    ∧ ∀ c keys, EvKeys (timeCount timeslot) c keys ∉ invoked s'.
Proof.
  intros HI%reachable_inv Ht Hhas s' Hsteps.
  assert (Hnone : m_db s !! floorHour timeslot = None).
  { unfold hasContentKey in Hhas. apply bool_decide_eq_false in Hhas.
    destruct (m_db s !! floorHour timeslot) eqn:E; [|done]. destruct Hhas. by eexists. }
  destruct (Inv_at_fresh _ _ _ _ _ _ HI Ht Hnone) as [Hreq _].
  destruct (inv_dead _ _ _ _ _ _ HI _ Hreq) as (Hp0 & _).
  assert (HI1 : Inv (produce timeslot content ecb bits s).2).
  { destruct (produce timeslot content ecb bits s) as [r s1] eqn:Hp.
    by apply produce_inv in Hp as [_ ?]. }
  assert (Hnull : null_request (timeCount timeslot) (produce timeslot content ecb bits s).2).
  { rewrite produce_state.
    destruct (createContentKey timeslot None ecb bits s) as [r s1] eqn:Hc.
    apply createContentKey_effect in Hc as [[Hc _]|[_ He]]; [congruence|]. simpl.
    destruct He as [_ _ _ Hk _ _ (news & Hp & Hf) _ _]. split.
    - apply Hk; [done|]. simpl. unfold keyRequests_insert. rewrite Hreq, lookup_insert_eq.
      by eexists.
    - intros p. rewrite Hp, elem_of_app. simpl. intros [Hin|Hin] Htc.
      + pose proof (count_zero_elem _ _ _ Hp0 Hin) as Hf0.
        unfold for_request in Hf0. by apply bool_decide_eq_false in Hf0.
      + rewrite Forall_forall in Hf. by destruct (Hf p Hin) as (_ & ? & _). }
  destruct (steps_null_request _ _ _ Hsteps HI1 Hnull) as [[[kr Hkr] _] HI2].
  split; [by eexists|]. intros c keys Hin.
  destruct (inv_live _ _ _ _ _ _ HI2 _ _ Hkr) as [_ Hz].
  pose proof (count_zero_elem _ _ _ Hz Hin) as Hf. simpl in Hf.
  by rewrite bool_decide_true in Hf.
Qed.

(** X13. A request holds, and its completion callback receives, at
    most one wrapped key per node of [m_ekeyInfo]: in every state the
    producer can reach, [interestCount] is not negative, and the keys a
    request holds plus the interests it still counts do not exceed the
    number of nodes. *)
Theorem keys_bounded_by_nodes (s0 s : State) :
  initial s0 → rtc step s0 s →
  let nodes := Z.of_nat (size (m_ekeyInfo s0)) in
  (∀ tc kr, m_keyRequests s !! tc = Some kr →
     0 <= interestCount kr
     ∧ Z.of_nat (length (encryptedKeys kr)) + interestCount kr <= nodes)
  ∧ (∀ tc c keys, EvKeys tc c keys ∈ invoked s → Z.of_nat (length keys) <= nodes).
Proof.
  intros Hinit Hsteps nodes.
  assert (HI : Inv s) by (apply reachable_inv; by exists s0).
  destruct Hinit as (Hreq & Hpend & Hev).
  assert (Hall : pending_nodes s ∧ Z.of_nat (size (m_ekeyInfo s)) = nodes
                 ∧ within_nodes nodes s).
  { assert (H0 : pending_nodes s0 ∧ Z.of_nat (size (m_ekeyInfo s0)) = nodes
                 ∧ within_nodes nodes s0).
    { split; [|split; [done|split]].
      - intros p. rewrite Hpend. by intros ?%elem_of_nil.
      - intros tc. rewrite Hreq, lookup_empty. simpl. subst nodes. lia.
      - rewrite Hev. constructor. }
    clear Hreq Hpend Hev HI. revert H0. generalize nodes. intros n.
    induction Hsteps as [s1|s1 s2 s3 Hstep _ IH]; intros (Hpn & Hsize & Hw); [done|].
    destruct (step_nodes _ _ Hstep Hpn) as [Hdom Hpn2].
    assert (Hsize2 : size (m_ekeyInfo s2) = size (m_ekeyInfo s1)).
    { rewrite <- !size_dom. f_equal. apply set_eq. intros k. by rewrite !elem_of_dom. }
    apply IH. split; [done|]. split; [congruence|].
    by eapply step_within_nodes. }
  destruct Hall as (_ & _ & Hpot & Hevs). split.
  - intros tc kr E. split.
    + destruct (inv_live _ _ _ _ _ _ HI tc kr E) as [Hle _].
      pose proof (count_nonneg (for_request tc) (face_pending s)).
      pose proof (count_nonneg (is_failure tc) (invoked s)).
      destruct (decide (tc = 0)); lia.
    + specialize (Hpot tc). by rewrite E in Hpot.
  - intros tc c keys Hin. rewrite Forall_forall in Hevs. by apply (Hevs _ Hin).
Qed.

End Theory.

End ProducerLifecycle.

(** ** The consumer: the pipeline as a whole *)

Module ConsumerPipeline.

Import Consumer ConsumerTheory.

Section Theory.

Context {library : Library}.

Lemma extends_refl s : extends 0 s s.
Proof. split; try done. exists []. by rewrite app_nil_r. Qed.

Lemma extends_trans a b s1 s2 s3 :
  extends a s1 s2 → extends b s2 s3 → extends (a + b) s1 s3.
Proof.
  intros [H1 H2 H3 H4 H5 H6 H7 H8 H9 (e1 & Hi1 & Hn1)]
         [G1 G2 G3 G4 G5 G6 G7 G8 G9 (e2 & Hi2 & Hn2)].
  split; try congruence; try (by etrans).
  exists (e1 ++ e2). split; [by rewrite Hi2, Hi1, app_assoc|].
  rewrite List.filter_app, length_app. lia.
Qed.

Lemma extends_mono a b s s' : (a <= b)%nat → extends a s s' → extends b s s'.
Proof.
  intros Hle [H1 H2 H3 H4 H5 H6 H7 H8 H9 (e1 & Hi1 & Hn1)]. split; try done.
  exists e1. split; [done|lia].
Qed.

Lemma extending_mono {A} a b (m : M A) : (a <= b)%nat → extending a m → extending b m.
Proof. intros Hle Hm s r s' H. eapply extends_mono; [exact Hle|by eapply Hm]. Qed.

Lemma extending_ret {A} (a : A) : extending 0 (mret a).
Proof. intros s r s' [= <- <-]. apply extends_refl. Qed.

Lemma extending_throw {A} (e : Fault) : extending 0 (@throw A e).
Proof. intros s r s' [= <- <-]. apply extends_refl. Qed.

Lemma extending_get : extending 0 get.
Proof. intros s r s' [= <- <-]. apply extends_refl. Qed.

Lemma extending_lift {A} (r : res A) : extending 0 (lift r).
Proof. intros s r' s' [= <- <-]. apply extends_refl. Qed.

Lemma extending_or_throw {A} (e : Fault) (o : option A) : extending 0 (or_throw e o).
Proof. destruct o; [apply extending_ret|apply extending_throw]. Qed.

Lemma extending_bind {A B} a b (m : M A) (f : A → M B) :
  extending a m → (∀ x, extending b (f x)) → extending (a + b) (m ≫= f).
Proof.
  intros Hm Hf s r s'. unfold mbind, M_bind.
  destruct (m s) as [[x|e] s1] eqn:E; apply Hm in E.
  - intros H. apply Hf in H. by eapply extends_trans.
  - intros [= <- <-]. eapply extends_mono; [|exact E]. lia.
Qed.

Lemma extending_invoke_error ecb code msg : extending 0 (invoke (EvError ecb code msg)).
Proof.
  intros s r s' [= <- <-]. split; try done. eexists. split; [done|]. simpl. lia.
Qed.

Lemma extending_invoke_consumed cb data bits : extending 1 (invoke (EvConsumed cb data bits)).
Proof.
  intros s r s' [= <- <-]. split; try done. eexists. split; [done|]. simpl. lia.
Qed.

Lemma map_insert_subseteq (k : Name) (v : Buffer) (m : gmap Name Buffer) : m ⊆ Consumer.map_insert k v m.
Proof.
  unfold Consumer.map_insert. destruct (m !! k) eqn:E; [done|]. by apply insert_subseteq.
Qed.

Lemma extending_cache_cKey k v : extending 0 (modify (set_cKeyMap (Consumer.map_insert k v))).
Proof.
  intros s r s' [= <- <-]. split; try done.
  - apply map_insert_subseteq.
  - exists []. by rewrite app_nil_r.
Qed.

Lemma extending_cache_dKey k v : extending 0 (modify (set_dKeyMap (Consumer.map_insert k v))).
Proof.
  intros s r s' [= <- <-]. split; try done.
  - apply map_insert_subseteq.
  - exists []. by rewrite app_nil_r.
Qed.

Lemma extending_sendInterest interest nRetrials delegations idx callback ecb :
  extending 0 (sendInterest interest nRetrials delegations idx callback ecb).
Proof.
  intros s r s' [= <- <-]. split; try done.
  - by eexists.
  - by eexists.
  - exists []. by rewrite app_nil_r.
Qed.

Lemma extending_decrypt_with n (k : Buffer → M unit) block keyBits ecb :
  (∀ bits, extending n (k bits)) → extending n (decrypt_with k block keyBits ecb).
Proof.
  intros Hk. unfold decrypt_with.
  apply (extending_bind 0 n); [apply extending_or_throw|intros ec].
  destruct (ec_algorithmType ec);
    try (eapply extending_mono; [|apply extending_invoke_error]; lia).
  - apply (extending_bind 0 n); [apply extending_or_throw|done].
  - apply (extending_bind 0 n); [apply extending_lift|done].
Qed.

Lemma extending_call k : ∀ bits, extending 1 (call k bits).
Proof.
  induction k as [validData ccb|block name k IH ecb|block name k IH ecb|block k IH ecb];
    intros bits; simpl.
  - apply extending_invoke_consumed.
  - apply (extending_bind 1 0); [by apply extending_decrypt_with|intros _].
    apply extending_cache_cKey.
  - apply (extending_bind 1 0); [by apply extending_decrypt_with|intros _].
    apply extending_cache_dKey.
  - by apply extending_decrypt_with.
Qed.

Lemma extending_decrypt block keyBits k ecb : extending 1 (decrypt block keyBits k ecb).
Proof. apply extending_decrypt_with, extending_call. Qed.

Lemma extending_getDecryptionKey name : extending 0 (getDecryptionKey name).
Proof.
  unfold getDecryptionKey. apply (extending_bind 0 0); [apply extending_get|intros ?].
  apply extending_ret.
Qed.

Lemma extending_decryptDKey data k ecb : extending 1 (decryptDKey data k ecb).
Proof.
  unfold decryptDKey.
  apply (extending_bind 0 1); [apply extending_or_throw|intros elements].
  apply (extending_bind 0 1).
  { destruct (bool_decide _); [apply extending_invoke_error|apply extending_ret]. }
  intros _.
  apply (extending_bind 0 1); [apply extending_or_throw|intros nb].
  apply (extending_bind 0 1); [apply extending_or_throw|intros en].
  apply (extending_bind 0 1); [apply extending_getDecryptionKey|intros key].
  destruct key.
  - eapply extending_mono; [|apply extending_invoke_error]. lia.
  - apply (extending_bind 0 1); [apply extending_or_throw|intros pb].
    apply extending_decrypt.
Qed.

Lemma extending_decryptCKey data k ecb : extending 1 (decryptCKey data k ecb).
Proof.
  unfold decryptCKey.
  apply (extending_bind 0 1); [apply extending_or_throw|intros block].
  apply (extending_bind 0 1); [apply extending_or_throw|intros ec]. cbv zeta.
  apply (extending_bind 0 1); [apply extending_get|intros s0].
  destruct (_ !! _).
  - apply extending_decrypt.
  - eapply extending_mono; [|apply extending_sendInterest]. lia.
Qed.

Lemma extending_decryptContent data k ecb : extending 1 (decryptContent data k ecb).
Proof.
  unfold decryptContent.
  apply (extending_bind 0 1); [apply extending_or_throw|intros block].
  apply (extending_bind 0 1); [apply extending_or_throw|intros ec]. cbv zeta.
  apply (extending_bind 0 1); [apply extending_get|intros s0].
  destruct (_ !! _).
  - apply extending_decrypt.
  - eapply extending_mono; [|apply extending_sendInterest]. lia.
Qed.

Lemma extending_handleNack interest delegations idx callback ecb :
  extending 0 (handleNack interest delegations idx callback ecb).
Proof.
  unfold handleNack. cbv zeta.
  destruct (negb _); [|apply extending_invoke_error].
  destruct (negb _); [apply extending_sendInterest|].
  destruct (_ <? _); [apply extending_sendInterest|apply extending_invoke_error].
Qed.

Lemma extending_handleTimeout interest nRetrials delegations idx callback ecb :
  extending 0 (handleTimeout interest nRetrials delegations idx callback ecb).
Proof.
  unfold handleTimeout.
  destruct (_ <? _); [apply extending_sendInterest|apply extending_handleNack].
Qed.

Lemma extending_dispatch p resp : extending 1 (dispatch p resp).
Proof.
  destruct resp as [d| |]; simpl.
  - unfold dataCallback. destruct (negb _).
    { eapply extending_mono; [|apply extending_ret]. lia. }
    destruct (validate d).
    { eapply extending_mono; [|apply extending_invoke_error]. lia. }
    unfold validated. destruct (pi_validationCallback p).
    + apply extending_decryptContent.
    + apply extending_decryptCKey.
    + apply extending_decryptDKey.
  - eapply extending_mono; [|apply extending_handleNack]. lia.
  - eapply extending_mono; [|apply extending_handleTimeout]. lia.
Qed.

Lemma decrypt_with_delivers (k : Buffer → M unit) block keyBits ecb s ec content :
  decodeEncryptedContent block = Some ec →
  decrypted ec keyBits = Some content →
  decrypt_with k block keyBits ecb s = k content s.
Proof.
  intros Hdec Hplain. unfold decrypt_with, decrypted in *.
  unfold or_throw, lift, mbind, M_bind, mret, M_ret. rewrite Hdec. cbv beta iota.
  destruct (ec_algorithmType ec); try done.
  - by rewrite Hplain.
  - destruct (Rsa_decrypt _ _ _) as [b|e]; [|done]. by injection Hplain as ->.
Qed.

Lemma decrypt_delivers block keyBits k ecb s ec content :
  decodeEncryptedContent block = Some ec →
  decrypted ec keyBits = Some content →
  decrypt block keyBits k ecb s = call k content s.
Proof. apply decrypt_with_delivers. Qed.







Lemma Rsa_decrypt_oaep_failure key payload f :
  Rsa_decrypt key payload AlgorithmRsaOaep = Throw f → f = CryptoError "".
Proof.
  unfold Rsa_decrypt. destruct (loadsPrivateKey key); [|by intros [= <-]].
  destruct (RSAES_OAEP_SHA_decrypt key payload); [done|by intros [= <-]].
Qed.

(** X14. [Consumer::decrypt] supports AES-CBC and RSA-OAEP and nothing
    else. For these two it hands the decrypted payload to the plaintext
    callback; when the decryption raises, the exception leaves [decrypt]
    with the consumer unchanged (and it is never the "unsupported padding
    scheme" of [Rsa::decrypt], which is always asked for OAEP). For every
    other scheme, RSA-PKCS and AES-ECB included, the error callback gets
    [UnsupportedEncryptionScheme] with the number of the scheme, and the
    plaintext callback is not called. *)
Theorem decrypt_supported_schemes (s : State) (encryptedBlock keyBits : Buffer)
    (plainTextCallBack : PlainTextCallBack) (ecb : ErrorCallBack)
    (encryptedContent : EncryptedContent) :
  decodeEncryptedContent encryptedBlock = Some encryptedContent →
  let scheme := ec_algorithmType encryptedContent in
  let supported := scheme = AlgorithmAesCbc ∨ scheme = AlgorithmRsaOaep in
  (∀ content, decrypted encryptedContent keyBits = Some content →
     supported
     ∧ decrypt encryptedBlock keyBits plainTextCallBack ecb s
       = call plainTextCallBack content s)
  ∧ (supported → decrypted encryptedContent keyBits = None →
     decrypt encryptedBlock keyBits plainTextCallBack ecb s = (Throw (CryptoError ""), s))
  ∧ (¬ supported →
     decrypt encryptedBlock keyBits plainTextCallBack ecb s
     = (Ret tt, set_invoked
                  (λ l, l ++ [EvError ecb UnsupportedEncryptionScheme (to_string scheme)]) s)).
Proof.
  intros Hdec scheme supported. split; [|split].
  - intros content Hplain. split; [|by eapply decrypt_delivers].
    subst supported scheme. unfold decrypted in Hplain.
    destruct (ec_algorithmType encryptedContent); try done; tauto.
  - intros Hs Hnone. unfold decrypt, decrypt_with, decrypted in *.
    unfold or_throw, lift, mbind, M_bind, mret, M_ret, throw. rewrite Hdec. cbv beta iota.
    subst supported scheme.
    destruct (ec_algorithmType encryptedContent); try (by destruct Hs).
    + by rewrite Hnone.
    + destruct (Rsa_decrypt _ _ _) as [b|e] eqn:Hr; [done|].
      by rewrite (Rsa_decrypt_oaep_failure _ _ _ Hr).
  - intros Hns. unfold decrypt, decrypt_with.
    unfold or_throw, mbind, M_bind, mret, M_ret. rewrite Hdec. cbv beta iota.
    subst supported scheme.
    destruct (ec_algorithmType encryptedContent); try done; destruct Hns; tauto.
Qed.



(** X17. When the database has no key under the key locator of the
    nonce block of a D-KEY packet (or has an empty one, which
    [getDecryptionKey] cannot tell from none), [decryptDKey] reports
    [NoDecryptKey] and stops: nothing is decrypted, cached or delivered. *)
Theorem decryptDKey_without_consumer_key (s : State) (dKeyData : Data)
    (plainTextCallBack : PlainTextCallBack) (ecb : ErrorCallBack)
    (nonceBlock payloadBlock : Buffer) (encryptedNonce : EncryptedContent) :
  parseElements (d_content dKeyData) = Some [nonceBlock; payloadBlock] →
  decodeEncryptedContent nonceBlock = Some encryptedNonce →
  m_db s !! ec_keyLocator encryptedNonce = None
  ∨ m_db s !! ec_keyLocator encryptedNonce = Some [] →
  decryptDKey dKeyData plainTextCallBack ecb s
  = (Ret tt, set_invoked
               (λ l, l ++ [EvError ecb NoDecryptKey
                             "No desired consumer decryption key in database"]) s).
Proof.
  intros Hparse Hdec Hkey. unfold decryptDKey, or_throw. rewrite Hparse.
  unfold mbind at 1, M_bind at 1, mret, M_ret.
  rewrite bool_decide_false by (simpl; lia).
  unfold mbind, M_bind, invoke, modify, getDecryptionKey, get, mret, M_ret. simpl.
  rewrite Hdec. simpl. unfold getKey. by destruct Hkey as [->| ->].
Qed.

(** X18. Whatever the face answers, the handlers keep what the caches
    hold: a C-KEY or D-KEY that is cached is neither removed nor replaced
    ([std::map::insert] leaves a present key alone). The database, the
    names and the links are not written, and interests and invocations
    are only added. *)
Theorem cached_keys_are_kept (s : State) (p : PendingInterest) (resp : Response) :
  let s' := (dispatch p resp s).2 in
  m_cKeyMap s ⊆ m_cKeyMap s'
  ∧ m_dKeyMap s ⊆ m_dKeyMap s'
  ∧ m_db s' = m_db s
  ∧ m_groupName s' = m_groupName s
  ∧ m_consumerName s' = m_consumerName s
  ∧ m_cKeyLink s' = m_cKeyLink s
  ∧ m_dKeyLink s' = m_dKeyLink s
  ∧ face_expressed s `prefix_of` face_expressed s'
  ∧ invoked s `prefix_of` invoked s'.
Proof.
  intros s'. subst s'. destruct (dispatch p resp s) as [r s'] eqn:Hd.
  apply extending_dispatch in Hd as [H1 H2 H3 H4 H5 H6 H7 H8 H9 (evs & Hi & _)].
  simpl. repeat split; try done. by exists evs.
Qed.

(** X19. Handling one answer of the face invokes the consumption
    callback at most once, and not at all for a NACK or a timeout. *)
Theorem at_most_one_consumption (s : State) (p : PendingInterest) (resp : Response) :
  ∃ evs, invoked (dispatch p resp s).2 = invoked s ++ evs
         ∧ (length (List.filter is_consumption evs) <= 1)%nat
         ∧ (is_failure resp → List.filter is_consumption evs = []).
Proof.
  destruct (dispatch p resp s) as [r s'] eqn:Hd. simpl.
  destruct resp as [d| |].
  - apply extending_dispatch in Hd as [_ _ _ _ _ _ _ _ _ (evs & Hi & Hn)].
    exists evs. split; [done|]. split; [done|]. by intros [].
  - simpl in Hd. apply extending_handleNack in Hd as [_ _ _ _ _ _ _ _ _ (evs & Hi & Hn)].
    exists evs. split; [done|]. split; [lia|]. intros _.
    destruct (List.filter is_consumption evs); [done|simpl in Hn; lia].
  - simpl in Hd. apply extending_handleTimeout in Hd as [_ _ _ _ _ _ _ _ _ (evs & Hi & Hn)].
    exists evs. split; [done|]. split; [lia|]. intros _.
    destruct (List.filter is_consumption evs); [done|simpl in Hn; lia].
Qed.


End Theory.

End ConsumerPipeline.

(** ** The further theorems on the scenarios *)

Module ProducerLifecycleScenarioTheory.

Import Producer ProducerTheory ProducerLifecycle.
Import ProducerScenario ProducerScenarioTheory ProducerLifecycleScenario.

Lemma producer0_steps : rtc step producer0 producer1.
Proof.
  apply rtc_once.
  eapply (step_createContentKey producer0 600000 (Some 7%nat) 9%nat ["1"%byte]).
  - unfold int64. lia.
  - apply surjective_pairing.
  - by vm_compute.
Qed.

Lemma producer0_reachable : reachable producer0.
Proof. exists producer0. split; [apply Producer_new_initial|done]. Qed.

Lemma emptyKeyProducer1_reachable : reachable emptyKeyProducer1.
Proof.
  exists emptyKeyProducer0. split; [apply Producer_new_initial|].
  apply rtc_once.
  eapply (step_createContentKey emptyKeyProducer0 600000 (Some 7%nat) 9%nat ["1"%byte]).
  - unfold int64. lia.
  - apply surjective_pairing.
  - by vm_compute.
Qed.

Lemma emptyKeyProducer1_invoked :
  invoked emptyKeyProducer1 = [EvError (timeCount 600000) 9%nat EncryptionFailure "empty key"].
Proof. by vm_compute. Qed.

Lemma producer1_answering_request :
  m_keyRequests producer1_answering !! timeCount 600000 = Some request1.
Proof. by vm_compute. Qed.

(** X2 on [producerXY]: two components, two nodes. *)
Lemma Producer_new_nodes_witness :
  size (m_ekeyInfo producerXY) = 2%nat
  ∧ m_namespace producerXY = ["p"; "SAMPLE"; "x"; "y"]%string.
Proof.
  assert (Hbound : Z.of_nat (length ["x"; "y"]%string) < 2 ^ 64) by (simpl; lia).
  pose proof (Producer_new_nodes ["p"%string] ["x"; "y"]%string ∅ 1 [] (mkKeyInfo 0 0 [])
                Hbound) as (_ & Hsize & _ & Hns & _).
  exact (conj Hsize Hns).
Defined.

(** X3 on [producer0]: its one node is asked. *)
Lemma first_createContentKey_asks_every_node_witness :
  face_pending producer1 ≡ₚ [pending1] ∧ invoked producer1 = [].
Proof.
  assert (Hbound : Z.of_nat (length ["x"%string]) < 2 ^ 64) by (simpl; lia).
  assert (Hempty : endTimeslot (mkKeyInfo 0 0 []) <= beginTimeslot (mkKeyInfo 0 0 []))
    by (simpl; lia).
  pose proof (first_createContentKey_asks_every_node ["p"%string] ["x"%string] ∅ 1 []
                (mkKeyInfo 0 0 []) 600000 (Some 7%nat) 9%nat ["1"%byte]
                Hbound Hempty eq_refl) as (_ & Hasks & Hnone & _).
  exact (conj Hasks Hnone).
Defined.

(** X6 on [producer1]: the packet of 00:10:00 is encrypted under the stored key. *)
Lemma produce_packet_witness :
  produce 600000 ["c"%byte] 9%nat ["3"%byte] producer1
  = (Ret (mkData ["p"; "SAMPLE"; "x"; "19700101T001000"]%string ["c"; "1"]%byte), producer1).
Proof.
  assert (Ht : int64 600000) by (unfold int64; lia).
  exact (proj1 (produce_packet producer1 600000 ["c"%byte] 9%nat ["3"%byte]
                  producer1_reachable Ht)).
Defined.

(** X1 on [producer1]: the first timeout of [pending1] is within the maximum of 1. *)
Lemma key_retrieval_policy_witness :
  dispatch pending1 RespTimeout producer1_answering
  = (Ret tt,
     set_pending (λ l, l ++ [pending1])
       (set_keyRequests
          <[timeCount 600000 := set_repeatAttempts eKeyNode 1 request1]>
          producer1_answering)).
Proof.
  assert (H0 : 0 <= pi_delegationIndex pending1) by (simpl; lia).
  assert (Hw : pi_delegationIndex pending1 + 1 < 2 ^ 64) by (simpl; lia).
  assert (Hlt : attempts request1 (i_name (pi_interest pending1))
                < m_maxRepeatAttempts producer1_answering) by (by vm_compute).
  exact (proj1 (key_retrieval_policy producer1_answering pending1 request1
                  producer1_answering_request H0 Hw) Hlt).
Defined.

(** X8 on the step from [producer0] to [producer1]. *)
Lemma configuration_and_content_keys_kept_witness :
  m_namespace producer1 = m_namespace producer0
  ∧ m_maxRepeatAttempts producer1 = m_maxRepeatAttempts producer0.
Proof.
  pose proof (configuration_and_content_keys_kept producer0 producer1 producer0_steps)
    as (Hns & Hmax & _).
  exact (conj Hns Hmax).
Defined.

(** X10 on the step from [producer0] to [producer1]. *)
Lemma ekeyInfo_nodes_fixed_witness :
  dom (m_ekeyInfo producer1) = dom (m_ekeyInfo producer0)
  ∧ size (m_ekeyInfo producer1) = size (m_ekeyInfo producer0).
Proof.
  pose proof (ekeyInfo_nodes_fixed producer0 producer1
                (Producer_new_initial _ _ _ _ _ _) producer0_steps) as (Hdom & Hsize & _).
  exact (conj Hdom Hsize).
Defined.

(** X9 on [emptyKeyProducer1]: the one error reported is the failed wrap. *)
Lemma only_encryption_failures_reported_witness :
  invoked emptyKeyProducer1 = [EvError (timeCount 600000) 9%nat EncryptionFailure "empty key"]
  ∧ Forall (λ e, match e with
                 | EvError _ _ code _ => code = EncryptionFailure
                 | EvKeys _ _ _ => True
                 end) (invoked emptyKeyProducer1).
Proof.
  split; [exact emptyKeyProducer1_invoked|].
  exact (only_encryption_failures_reported emptyKeyProducer1 emptyKeyProducer1_reachable).
Defined.

(** X12 on [producer0]: the request that [produce] opens at 00:10:00. *)
Lemma produce_request_never_erased_witness :
  is_Some (m_keyRequests (produce 600000 ["c"%byte] 9%nat ["1"%byte] producer0).2
             !! timeCount 600000).
Proof.
  assert (Ht : int64 600000) by (unfold int64; lia).
  exact (proj1 (produce_request_never_erased producer0 600000 ["c"%byte] 9%nat ["1"%byte]
                  producer0_reachable Ht eq_refl _ (rtc_refl _ _))).
Defined.

(** X13 on [producer1]: its request counts one interest, for one node. *)
Lemma keys_bounded_by_nodes_witness :
  0 <= interestCount request1
  ∧ Z.of_nat (length (encryptedKeys request1)) + interestCount request1
    <= Z.of_nat (size (m_ekeyInfo producer0)).
Proof.
  exact (proj1 (keys_bounded_by_nodes producer0 producer1
                  (Producer_new_initial _ _ _ _ _ _) producer0_steps)
               (timeCount 600000) request1 producer1_request).
Defined.

(** X7 on [producer1]: the key that answers [interest1] is cached for
    [eKeyNode], and covers 01:00:00. *)
Lemma covering_key_is_cached_witness :
  m_ekeyInfo (handleCoveringKey interest1 coveringKey 0 600000 (Some 7%nat) 9%nat
                producer1_answering).2 !! eKeyNode
  = Some (mkKeyInfo 0 7200000 ["5"%byte]).
Proof.
  assert (Hck : getContentKey (m_db producer1_answering) 600000 = Some ["1"%byte])
    by (by vm_compute).
  assert (Hhas : hasContentKey (m_db producer1_answering) 3600000 = false)
    by (by vm_compute).
  assert (Hreq : m_keyRequests producer1_answering !! timeCount 3600000 = None)
    by (by vm_compute).
  exact (proj1 (covering_key_is_cached producer1_answering interest1 coveringKey 0
                  600000 3600000 (Some 7%nat) (Some 8%nat) 9%nat 9%nat ["2"%byte] request1
                  "19700101T000000"%string "19700101T020000"%string 0 7200000
                  ["1"%byte] ["1"; "5"]%byte
                  producer1_answering_request eq_refl eq_refl eq_refl eq_refl
                  ltac:(lia) Hck eq_refl ltac:(lia) Hhas Hreq)).
Defined.

End ProducerLifecycleScenarioTheory.

Module ConsumerPipelineScenarioTheory.

Import Consumer ConsumerTheory ConsumerPipeline ConsumerPipelineScenario.

(** X14 on [consumer]: a block encrypted with RSA-PKCS is refused. *)
Lemma decrypt_supported_schemes_witness :
  decrypt ["R"%byte] ["K"%byte] (OnPlainContent contentPacket 5%nat) 6%nat consumer
  = (Ret tt, set_invoked (λ l, l ++ [EvError 6%nat UnsupportedEncryptionScheme "2"]) consumer).
Proof.
  assert (Hnot : ¬ (AlgorithmRsaPkcs = AlgorithmAesCbc ∨ AlgorithmRsaPkcs = AlgorithmRsaOaep))
    by (by intros [?|?]).
  exact (proj2 (proj2 (decrypt_supported_schemes consumer ["R"%byte] ["K"%byte]
                         (OnPlainContent contentPacket 5%nat) 6%nat
                         (mkEncryptedContent AlgorithmRsaPkcs consumerKeyName [] ["r"%byte])
                         eq_refl)) Hnot).
Defined.


(** X17 on [keylessConsumer]. *)
Lemma decryptDKey_without_consumer_key_witness :
  decryptDKey dKeyPacket (OnPlainContent dKeyPacket 5%nat) 6%nat keylessConsumer
  = (Ret tt, set_invoked
               (λ l, l ++ [EvError 6%nat NoDecryptKey
                             "No desired consumer decryption key in database"])
               keylessConsumer).
Proof.
  exact (decryptDKey_without_consumer_key keylessConsumer dKeyPacket
           (OnPlainContent dKeyPacket 5%nat) 6%nat ["N"%byte] ["P"%byte]
           (mkEncryptedContent AlgorithmRsaOaep consumerKeyName [] ["n"%byte])
           eq_refl eq_refl (or_introl eq_refl)).
Defined.



End ConsumerPipelineScenarioTheory.
